(** * speech-analyzer: the audio capture pipeline

    A shallow embedding of the desktop client's audio path:

    - [audioUtils.ts] (src/desktop/src/components/Session.tsx, lines
      671-823): [calculateRMS], [downsample], [floatToInt16];
    - [MicCapture.ts] (same file, lines 350-670): the [MicCapture] object,
      its [processAudioFrame], sampling handler, [stop] and [cleanup];
    - the loopback capture module (src/unnamed/part_000): the hidden window's
      [processFrame], and the main process' [calculateRMS], [pcmHandler],
      level timer, [startLoopback], [stopLoopback] and [listOutputDevices];
    - [MicCapture.start] and [startSampling] (Session.tsx, lines 385-503);
    - [SessionController.ts]: [startSession], [stopSession] and
      [getLiveAudioStats], with the two closures it registers;
    - [main.js]: the handlers [audio:listOutputs], [audio:startLoopback] and
      [audio:stopLoopback], and the [closed] handler of the main window;
    - [FakeTranscriptGenerator.ts]: [start], [stop] and [generateEvent];
    - [db.js]: [initializeDb] and [getDb].

    Asynchronous functions.  An [async] function is cut at its [await]s
    into phases that run one after the other; what happens while it waits
    is what is put between two phases.  Requests that the platform may
    refuse (promises, constructors, the database) are answered by an
    oracle.

    Numbers.  A JavaScript number is modelled by [number]: a finite value is
    an exact rational, and NaN and the two infinities are separate
    constructors.  The arithmetic of the sources is only ever applied to values
    that passed [isFinite], and it is done here in exact rationals: the
    rounding of IEEE-754 doubles and of [Float32Array] stores is not modelled.
    [Math.sqrt] lands in the real numbers.  [Math.round] is
    [floor (x + 1/2)], which is what ECMAScript specifies (ties go up).

    Buffers.  Typed arrays live in a [heap] and are named by their location,
    so that "the same buffer" and "a fresh copy" are different things. *)

From Stdlib Require Import String Bool Arith ZArith Lia.
From Stdlib Require Import QArith Qround Qminmax Qreals Reals Lra.
From Stdlib Require Lqa.
From Stdlib Require Import List.
Import ListNotations.

Set Implicit Arguments.

Local Open Scope Q_scope.

(* ================================================================= *)
(** ** Numbers and thrown errors *)

Inductive number : Type :=
| Fin (q : Q)
| NaN
| PosInf
| NegInf.

Definition isFinite (x : number) : bool :=
  match x with Fin _ => true | _ => false end.

(** [Math.round]: the nearest integer, ties towards +infinity. *)
Definition Math_round (x : Q) : Z := Qfloor (x + (1 # 2)).

(** [new Error(message)]; the specification calls it [InvalidInput]. *)
Inductive error : Type := Error (message : string).

Inductive result (A : Type) : Type :=
| Ok (a : A)
| Throw (e : error).
Arguments Ok {A} a.
Arguments Throw {A} e.

Definition bind_result {A B} (r : result A) (k : A -> result B) : result B :=
  match r with Ok a => k a | Throw e => Throw e end.

Notation "'let!' x ':=' r 'in' k" := (bind_result r (fun x => k))
  (at level 10, x pattern, r at level 100, k at level 200).

Definition threw {A} (r : result A) : Prop := exists e, r = Throw e.

Definition of_nat (n : nat) : Q := inject_Z (Z.of_nat n).

(* ================================================================= *)
(** ** audioUtils.ts *)

(** The [for] loop of [calculateRMS]: every element must be finite, and its
    square is added to [sum]. *)
Fixpoint sum_of_squares (buffer : list number) (sum : Q) : result Q :=
  match buffer with
  | [] => Ok sum
  | Fin value :: rest => sum_of_squares rest (sum + value * value)
  | _ :: _ => Throw (Error "calculateRMS: Invalid value")
  end.

Definition Math_sqrt (x : Q) : R := sqrt (Q2R x).

(** The second [buffer.length === 0] test (line 698) comes after the empty
    buffer has been rejected, and [isFinite(rms)] (line 706) holds for the
    square root of a mean of squares: neither branch can be taken. *)
Definition calculateRMS (buffer : list number) : result R :=
  if (length buffer =? 0)%nat
  then Throw (Error "calculateRMS: Invalid buffer (null or empty)")
  else
    let! sum := sum_of_squares buffer 0 in
    let mean := sum / of_nat (length buffer) in
    Ok (Math_sqrt mean).

(** The inner [for] of [downsample]: [steps] iterations starting at index
    [i], each adding one finite source sample to [accum]. *)
Fixpoint downsample_window (sourceBuffer : list number) (i steps : nat)
    (accum : Q) (count : nat) : result (Q * nat) :=
  match steps with
  | O => Ok (accum, count)
  | S steps' =>
      match nth_error sourceBuffer i with
      | Some (Fin value) =>
          downsample_window sourceBuffer (S i) steps' (accum + value) (S count)
      | Some _ => Throw (Error "downsample: Invalid value")
      | None => Ok (accum, count)
      end
  end.

(** The [while (offsetResult < result.length)] loop; [todo] is
    [result.length - offsetResult].  The inner loop runs over the indices
    [offsetSource <= i < nextOffsetSource] that are below the source length.
    The mean of finite samples is finite, so the check of line 778 cannot
    fire. *)
Fixpoint downsample_loop (sourceBuffer : list number) (sampleRateRatio : Q)
    (todo : nat) (offsetResult offsetSource : Z) : result (list number) :=
  match todo with
  | O => Ok []
  | S todo' =>
      let nextOffsetSource :=
        Math_round (inject_Z (offsetResult + 1) * sampleRateRatio) in
      let stop := Z.min nextOffsetSource (Z.of_nat (length sourceBuffer)) in
      let! (accum, count) :=
        downsample_window sourceBuffer (Z.to_nat offsetSource)
          (Z.to_nat (stop - offsetSource)) 0 0 in
      let value := if (count =? 0)%nat then 0 else accum / of_nat count in
      let! rest :=
        downsample_loop sourceBuffer sampleRateRatio todo'
          (offsetResult + 1) nextOffsetSource in
      Ok (Fin value :: rest)
  end.

(** [!isFinite(rate) || rate <= 0] *)
Definition invalid_rate (rate : number) : bool :=
  match rate with
  | Fin r => Qle_bool r 0
  | _ => true
  end.

Definition rate_value (rate : number) : Q :=
  match rate with Fin r => r | _ => 0 end.

Definition downsample_newLength (len : nat) (sampleRateRatio : Q) : Z :=
  Math_round (of_nat len / sampleRateRatio).

Definition downsample (sourceBuffer : list number)
    (sourceSampleRate targetSampleRate : number) : result (list number) :=
  if (length sourceBuffer =? 0)%nat
  then Throw (Error "downsample: Invalid source buffer (null or empty)")
  else if invalid_rate sourceSampleRate
  then Throw (Error "downsample: Invalid sourceSampleRate")
  else if invalid_rate targetSampleRate
  then Throw (Error "downsample: Invalid targetSampleRate")
  else if Qeq_bool (rate_value sourceSampleRate) (rate_value targetSampleRate)
  then Ok sourceBuffer
  else
    let sampleRateRatio :=
      rate_value sourceSampleRate / rate_value targetSampleRate in
    if Qle_bool sampleRateRatio 0
    then Throw (Error "downsample: Invalid sampleRateRatio")
    else
      let newLength :=
        downsample_newLength (length sourceBuffer) sampleRateRatio in
      if (newLength <=? 0)%Z
      then Throw (Error "downsample: Invalid newLength")
      else
        downsample_loop sourceBuffer sampleRateRatio (Z.to_nat newLength) 0 0.

(** One sample of the codec: clamp to [-1, 1], scale by 32767, round. *)
Definition clamp_unit (value : Q) : Q := Qmax (-1) (Qmin 1 value).

Definition quantize (value : Q) : Z := Math_round (clamp_unit value * 32767).

Fixpoint floatToInt16_loop (floatBuffer : list number) : result (list Z) :=
  match floatBuffer with
  | [] => Ok []
  | Fin value :: rest =>
      let intValue := quantize value in
      if ((intValue <? -32768) || (32767 <? intValue))%Z
      then Throw (Error "floatToInt16: Invalid int16 value")
      else
        let! int16Buffer := floatToInt16_loop rest in
        Ok (intValue :: int16Buffer)
  | _ :: _ => Throw (Error "floatToInt16: Invalid value")
  end.

Definition floatToInt16 (floatBuffer : list number) : result (list Z) :=
  if (length floatBuffer =? 0)%nat
  then Throw (Error "floatToInt16: Invalid buffer (null or empty)")
  else floatToInt16_loop floatBuffer.

(** Modelled from the spec: [int16ToFloat] is not in the repository; the
    specification defines it as the scale-down [value / 32768] (the same
    expression normalises samples in the loopback [calculateRMS]). *)
Definition int16ToFloat (value : Z) : number := Fin (inject_Z value / 32768).


(* ================================================================= *)
(** ** Typed arrays and the heap *)

Inductive typedArray : Type :=
| Float32Array (data : list number)
| Int16Array (data : list Z).

(** A location is the index of an array in the heap. *)
Abbreviation loc := nat (only parsing).
Definition heap := list typedArray.

(** [new Float32Array(...)], [new Int16Array(...)], [slice]: a fresh
    location, never one that is already in use. *)
Definition alloc (a : typedArray) (h : heap) : loc * heap :=
  (length h, h ++ [a]).

Definition float32_at (h : heap) (l : loc) : list number :=
  match nth_error h l with
  | Some (Float32Array data) => data
  | _ => []
  end.

Definition int16_at (h : heap) (l : loc) : list Z :=
  match nth_error h l with
  | Some (Int16Array data) => data
  | _ => []
  end.

(** What the receiver of an [Int16Array] can do to it: overwrite its
    elements.  Other locations, and arrays of the other type, are out of its
    reach. *)
Fixpoint overwrite (l : loc) (data : list Z) (h : heap) {struct h} : heap :=
  match h, l with
  | [], _ => []
  | Int16Array _ :: h', O => Int16Array data :: h'
  | a :: h', O => a :: h'
  | a :: h', S l' => a :: overwrite l' data h'
  end.

(* ================================================================= *)
(** ** Platform calls and the object monad *)

(** Calls that leave the module: Web Audio, timers, Electron, the console and
    the callbacks of the client.  Objects of the platform are named by
    numbers. *)
Inductive call : Type :=
| clearInterval (id : nat)
| disconnect (node : nat)
| track_stop (track : nat)
| audioContext_close (context : nat)
| console_error (message : string)
| console_log (message : string)
| onLevel (callback : nat) (level : R)
| onPcmFrame (callback : nat) (pcm16 : loc)
| initMain
| new_BrowserWindow (window : nat)
| loadURL (window : nat)
| executeJavaScript (window : nat)
| window_destroy (window : nat)
| ipcMain_on (handler : nat)
| ipcMain_removeListener (handler : nat)
| setInterval (id : nat)
| onPcm (callback : nat) (pcmBuffer : list Z)
| emit_level (level : R)
| sendPcmData (pcm : list Z).

Definition opt_call {A} (c : A -> call) (o : option A) : list call :=
  match o with Some a => [c a] | None => [] end.

(** A method body: it reads and writes the state, leaves a trace of platform
    calls and either returns or throws. *)
Definition M (S A : Type) : Type := S -> result A * S * list call.

Definition ret {S A} (a : A) : M S A := fun s => (Ok a, s, []).

Definition bind {S A B} (m : M S A) (k : A -> M S B) : M S B :=
  fun s =>
    match m s with
    | (Ok a, s1, t1) =>
        let '(r, s2, t2) := k a s1 in (r, s2, t1 ++ t2)
    | (Throw e, s1, t1) => (Throw e, s1, t1)
    end.

Notation "x <- m ;; k" := (bind m (fun x => k))
  (at level 100, m at next level, right associativity).
Notation "m ;; k" := (bind m (fun _ => k))
  (at level 100, right associativity).

Definition read {S A} (f : S -> A) : M S A := fun s => (Ok (f s), s, []).
Definition modify {S} (f : S -> S) : M S unit := fun s => (Ok tt, f s, []).
Definition throw {S A} (e : error) : M S A := fun s => (Throw e, s, []).
Definition lift {S A} (r : result A) : M S A := fun s => (r, s, []).

(** [try { m } catch (error) { handler }] *)
Definition try_catch {S A} (m : M S A) (handler : error -> M S A) : M S A :=
  fun s =>
    match m s with
    | (Ok a, s1, t1) => (Ok a, s1, t1)
    | (Throw e, s1, t1) =>
        let '(r, s2, t2) := handler e s1 in (r, s2, t1 ++ t2)
    end.

(** The outcome of a continuation, after the calls made so far. *)
Definition after {S A} (t : list call) (x : result A * S * list call)
  : result A * S * list call :=
  let '(r, s, t') := x in (r, s, t ++ t').

(** A [try] block whose outcome is inspected by the code that follows. *)
Definition attempt {S A} (m : M S A) : M S (result A) :=
  fun s => let '(r, s1, t1) := m s in (Ok r, s1, t1).

Fixpoint forEach {S A} (f : A -> M S unit) (l : list A) : M S unit :=
  match l with
  | [] => ret tt
  | a :: l' => f a ;; forEach f l'
  end.

Section Platform.

(** Which of the calls that the code guards with [try] throw.  The
    unguarded ones ([clearInterval], [MediaStreamTrack.stop],
    [AudioContext.close], whose failure is a rejected promise, and the
    console) have no synchronous failure in their specifications. *)
Variable throws : call -> bool.

Definition perform {S} (c : call) : M S unit :=
  fun s =>
    if throws c then (Throw (Error "platform"), s, [c]) else (Ok tt, s, [c]).

Definition invoke {S} (c : call) : M S unit := fun s => (Ok tt, s, [c]).

(* =============================================================== *)
(** ** MicCapture.ts *)

Record MediaStream : Type := { getTracks : list nat }.

Record MicCapture : Type := {
  audioContext : option nat;
  mediaStream : option MediaStream;
  sourceNode : option nat;
  analyserNode : option nat;
  silentGain : option nat;
  isCapturing : bool;
  sampleIntervalId : option nat;
  onLevelCallback : option nat;
  onPcmFrameCallback : option nat;
  targetSampleRate : number;
  sampleBuffer : list loc;
  samplesPerFrame : nat;
  sourceSampleRate : number
}.

(** The object as the class initialisers leave it. *)
Definition new_MicCapture : MicCapture := {|
  audioContext := None; mediaStream := None; sourceNode := None;
  analyserNode := None; silentGain := None; isCapturing := false;
  sampleIntervalId := None; onLevelCallback := None;
  onPcmFrameCallback := None; targetSampleRate := Fin 16000;
  sampleBuffer := []; samplesPerFrame := 0; sourceSampleRate := Fin 0 |}.

Definition set_audioContext v (o : MicCapture) :=
  {| audioContext := v; mediaStream := mediaStream o;
     sourceNode := sourceNode o; analyserNode := analyserNode o;
     silentGain := silentGain o; isCapturing := isCapturing o;
     sampleIntervalId := sampleIntervalId o;
     onLevelCallback := onLevelCallback o;
     onPcmFrameCallback := onPcmFrameCallback o;
     targetSampleRate := targetSampleRate o;
     sampleBuffer := sampleBuffer o; samplesPerFrame := samplesPerFrame o;
     sourceSampleRate := sourceSampleRate o |}.
Definition set_mediaStream v (o : MicCapture) :=
  {| audioContext := audioContext o; mediaStream := v;
     sourceNode := sourceNode o; analyserNode := analyserNode o;
     silentGain := silentGain o; isCapturing := isCapturing o;
     sampleIntervalId := sampleIntervalId o;
     onLevelCallback := onLevelCallback o;
     onPcmFrameCallback := onPcmFrameCallback o;
     targetSampleRate := targetSampleRate o;
     sampleBuffer := sampleBuffer o; samplesPerFrame := samplesPerFrame o;
     sourceSampleRate := sourceSampleRate o |}.
Definition set_sourceNode v (o : MicCapture) :=
  {| audioContext := audioContext o; mediaStream := mediaStream o;
     sourceNode := v; analyserNode := analyserNode o;
     silentGain := silentGain o; isCapturing := isCapturing o;
     sampleIntervalId := sampleIntervalId o;
     onLevelCallback := onLevelCallback o;
     onPcmFrameCallback := onPcmFrameCallback o;
     targetSampleRate := targetSampleRate o;
     sampleBuffer := sampleBuffer o; samplesPerFrame := samplesPerFrame o;
     sourceSampleRate := sourceSampleRate o |}.
Definition set_analyserNode v (o : MicCapture) :=
  {| audioContext := audioContext o; mediaStream := mediaStream o;
     sourceNode := sourceNode o; analyserNode := v;
     silentGain := silentGain o; isCapturing := isCapturing o;
     sampleIntervalId := sampleIntervalId o;
     onLevelCallback := onLevelCallback o;
     onPcmFrameCallback := onPcmFrameCallback o;
     targetSampleRate := targetSampleRate o;
     sampleBuffer := sampleBuffer o; samplesPerFrame := samplesPerFrame o;
     sourceSampleRate := sourceSampleRate o |}.
Definition set_silentGain v (o : MicCapture) :=
  {| audioContext := audioContext o; mediaStream := mediaStream o;
     sourceNode := sourceNode o; analyserNode := analyserNode o;
     silentGain := v; isCapturing := isCapturing o;
     sampleIntervalId := sampleIntervalId o;
     onLevelCallback := onLevelCallback o;
     onPcmFrameCallback := onPcmFrameCallback o;
     targetSampleRate := targetSampleRate o;
     sampleBuffer := sampleBuffer o; samplesPerFrame := samplesPerFrame o;
     sourceSampleRate := sourceSampleRate o |}.
Definition set_isCapturing v (o : MicCapture) :=
  {| audioContext := audioContext o; mediaStream := mediaStream o;
     sourceNode := sourceNode o; analyserNode := analyserNode o;
     silentGain := silentGain o; isCapturing := v;
     sampleIntervalId := sampleIntervalId o;
     onLevelCallback := onLevelCallback o;
     onPcmFrameCallback := onPcmFrameCallback o;
     targetSampleRate := targetSampleRate o;
     sampleBuffer := sampleBuffer o; samplesPerFrame := samplesPerFrame o;
     sourceSampleRate := sourceSampleRate o |}.
Definition set_sampleIntervalId v (o : MicCapture) :=
  {| audioContext := audioContext o; mediaStream := mediaStream o;
     sourceNode := sourceNode o; analyserNode := analyserNode o;
     silentGain := silentGain o; isCapturing := isCapturing o;
     sampleIntervalId := v;
     onLevelCallback := onLevelCallback o;
     onPcmFrameCallback := onPcmFrameCallback o;
     targetSampleRate := targetSampleRate o;
     sampleBuffer := sampleBuffer o; samplesPerFrame := samplesPerFrame o;
     sourceSampleRate := sourceSampleRate o |}.
Definition set_onLevelCallback v (o : MicCapture) :=
  {| audioContext := audioContext o; mediaStream := mediaStream o;
     sourceNode := sourceNode o; analyserNode := analyserNode o;
     silentGain := silentGain o; isCapturing := isCapturing o;
     sampleIntervalId := sampleIntervalId o;
     onLevelCallback := v;
     onPcmFrameCallback := onPcmFrameCallback o;
     targetSampleRate := targetSampleRate o;
     sampleBuffer := sampleBuffer o; samplesPerFrame := samplesPerFrame o;
     sourceSampleRate := sourceSampleRate o |}.
Definition set_onPcmFrameCallback v (o : MicCapture) :=
  {| audioContext := audioContext o; mediaStream := mediaStream o;
     sourceNode := sourceNode o; analyserNode := analyserNode o;
     silentGain := silentGain o; isCapturing := isCapturing o;
     sampleIntervalId := sampleIntervalId o;
     onLevelCallback := onLevelCallback o;
     onPcmFrameCallback := v;
     targetSampleRate := targetSampleRate o;
     sampleBuffer := sampleBuffer o; samplesPerFrame := samplesPerFrame o;
     sourceSampleRate := sourceSampleRate o |}.
Definition set_sampleBuffer v (o : MicCapture) :=
  {| audioContext := audioContext o; mediaStream := mediaStream o;
     sourceNode := sourceNode o; analyserNode := analyserNode o;
     silentGain := silentGain o; isCapturing := isCapturing o;
     sampleIntervalId := sampleIntervalId o;
     onLevelCallback := onLevelCallback o;
     onPcmFrameCallback := onPcmFrameCallback o;
     targetSampleRate := targetSampleRate o;
     sampleBuffer := v; samplesPerFrame := samplesPerFrame o;
     sourceSampleRate := sourceSampleRate o |}.

(** The microphone object together with the arrays it can reach. *)
Record MicWorld : Type := { this : MicCapture; mem : heap }.

Definition get {A} (f : MicCapture -> A) : M MicWorld A :=
  read (fun w => f (this w)).
Definition update (f : MicCapture -> MicCapture) : M MicWorld unit :=
  modify (fun w => {| this := f (this w); mem := mem w |}).
Definition new_array (a : typedArray) : M MicWorld loc :=
  fun w =>
    let '(l, h) := alloc a (mem w) in (Ok l, {| this := this w; mem := h |}, []).
Definition float32 (l : loc) : M MicWorld (list number) :=
  read (fun w => float32_at (mem w) l).
Definition int16 (l : loc) : M MicWorld (list Z) :=
  read (fun w => int16_at (mem w) l).

Definition is_null {A} (o : option A) : bool :=
  match o with Some _ => false | None => true end.

(** [downsample] and [floatToInt16] on arrays.  [downsample] hands back its
    argument when the rates are equal (line 742) and a [new Float32Array]
    otherwise (line 755); [floatToInt16] always fills a [new Int16Array]. *)
Definition downsample_array (sourceBuffer : loc)
    (sourceSampleRate targetSampleRate : number) : M MicWorld loc :=
  data <- float32 sourceBuffer ;;
  resampled <- lift (downsample data sourceSampleRate targetSampleRate) ;;
  if Qeq_bool (rate_value sourceSampleRate) (rate_value targetSampleRate)
  then ret sourceBuffer
  else new_array (Float32Array resampled).

Definition floatToInt16_array (floatBuffer : loc) : M MicWorld loc :=
  data <- float32 floatBuffer ;;
  int16Buffer <- lift (floatToInt16 data) ;;
  new_array (Int16Array int16Buffer).

(** [sampleBuffer.reduce((sum, buf) => sum + buf.length, 0)] *)
Definition totalSamples (sampleBuffer : list (list number)) : nat :=
  fold_left (fun sum buf => (sum + length buf)%nat) sampleBuffer 0%nat.

(** The Frame Assembler step, on the contents of the buffers: lines 539-558
    of [processAudioFrame], and the same lines (159-175) of the hidden
    window's [processFrame].  The block is appended; if a frame's worth is
    there, one frame is sliced off the front and the rest is kept. *)
Definition push (samplesPerFrame : nat) (sampleBuffer : list (list number))
    (dataArray : list number)
  : list (list number) * option (list number) :=
  let sampleBuffer := sampleBuffer ++ [dataArray] in
  if (samplesPerFrame <=? totalSamples sampleBuffer)%nat then
    let concatenated := concat sampleBuffer in
    let frameSamples := firstn samplesPerFrame concatenated in
    let remaining := skipn samplesPerFrame concatenated in
    (if (0 <? length remaining)%nat then [remaining] else [],
     Some frameSamples)
  else (sampleBuffer, None).

(** Lines 572-592: encode the resampled frame and hand a copy of it to the
    client.  Each [try] block either yields its value or logs and
    returns. *)
Definition encode_and_call (downsampled : loc) : M MicWorld unit :=
  tried <- attempt (floatToInt16_array downsampled) ;;
  match tried with
  | Throw _ =>
      invoke (console_error "[MicCapture] Error converting to PCM16:")
  | Ok pcm16 =>
      encoded <- int16 pcm16 ;;
      if (length encoded =? 0)%nat then ret tt
      else
        callback <- get onPcmFrameCallback ;;
        match callback with
        | Some cb =>
            try_catch
              (pcmCopy <- new_array (Int16Array encoded) ;;
               perform (onPcmFrame cb pcmCopy))
              (fun _ =>
                 invoke (console_error
                   "[MicCapture] Error in onPcmFrame callback:"))
        | None => ret tt
        end
  end.

(** Lines 560-570, then the above: resample the sliced frame first. *)
Definition deliver (frameSamples : loc) : M MicWorld unit :=
  source <- get sourceSampleRate ;;
  target <- get targetSampleRate ;;
  tried <- attempt (downsample_array frameSamples source target) ;;
  match tried with
  | Throw _ => invoke (console_error "[MicCapture] Error downsampling:")
  | Ok downsampled =>
      resampled <- float32 downsampled ;;
      if (length resampled =? 0)%nat then ret tt
      else encode_and_call downsampled
  end.

(** [processAudioFrame]; [timeDomainData] is what the analyser writes into
    [dataArray]. *)
Definition processAudioFrame (timeDomainData : list number)
  : M MicWorld unit :=
  analyser <- get analyserNode ;;
  context <- get audioContext ;;
  if is_null analyser || is_null context then ret tt
  else
    dataArray <- new_array (Float32Array timeDomainData) ;;
    samples <- float32 dataArray ;;
    match calculateRMS samples with
    | Throw _ => invoke (console_error "[MicCapture] Error calculating RMS:")
    | Ok rms =>
        levelCallback <- get onLevelCallback ;;
        match levelCallback with
        | Some cb =>
            try_catch (perform (onLevel cb rms))
              (fun _ =>
                 invoke (console_error
                   "[MicCapture] Error in onLevel callback:"))
        | None => ret tt
        end ;;
        copy <- new_array (Float32Array samples) ;;
        buffered <- get sampleBuffer ;;
        update (set_sampleBuffer (buffered ++ [copy])) ;;
        buffers <- get sampleBuffer ;;
        contents <- read (fun w => map (float32_at (mem w)) buffers) ;;
        perFrame <- get samplesPerFrame ;;
        if (perFrame <=? totalSamples contents)%nat then
          concatenated <- new_array (Float32Array (concat contents)) ;;
          all <- float32 concatenated ;;
          frameSamples <- new_array (Float32Array (firstn perFrame all)) ;;
          remaining <- new_array (Float32Array (skipn perFrame all)) ;;
          rest <- float32 remaining ;;
          update (set_sampleBuffer
                    (if (0 <? length rest)%nat then [remaining] else [])) ;;
          deliver frameSamples
        else ret tt
    end.

(** The closure that [startSampling] hands to [setInterval]. *)
Definition samplingHandler (timeDomainData : list number)
  : M MicWorld unit :=
  capturing <- get isCapturing ;;
  analyser <- get analyserNode ;;
  context <- get audioContext ;;
  if negb capturing || is_null analyser || is_null context then ret tt
  else
    try_catch (processAudioFrame timeDomainData)
      (fun _ =>
         invoke (console_error "[MicCapture] Error in audio processing:")).

(** What [start] computes for the assembler: 100 ms frames counted at the
    context's rate, and the analyser's window. *)
Definition frameDuration : Q := 1 # 10.
Definition fftSize : nat := 2048.
Definition start_samplesPerFrame (contextSampleRate : Q) : nat :=
  Z.to_nat (Math_round (contextSampleRate * frameDuration)).

Definition disconnect_node (field : MicCapture -> option nat)
    (clear : MicCapture -> MicCapture) : M MicWorld unit :=
  node <- get field ;;
  match node with
  | Some n =>
      try_catch (perform (disconnect n)) (fun _ => ret tt) ;;
      update clear
  | None => ret tt
  end.

Definition cleanup : M MicWorld unit :=
  interval <- get sampleIntervalId ;;
  match interval with
  | Some id =>
      invoke (clearInterval id) ;; update (set_sampleIntervalId None)
  | None => ret tt
  end ;;
  disconnect_node silentGain (set_silentGain None) ;;
  disconnect_node analyserNode (set_analyserNode None) ;;
  disconnect_node sourceNode (set_sourceNode None) ;;
  stream <- get mediaStream ;;
  match stream with
  | Some ms =>
      forEach (fun track => invoke (track_stop track)) (getTracks ms) ;;
      update (set_mediaStream None)
  | None => ret tt
  end ;;
  context <- get audioContext ;;
  match context with
  | Some c =>
      invoke (audioContext_close c) ;; update (set_audioContext None)
  | None => ret tt
  end ;;
  update (set_sampleBuffer []) ;;
  update (set_onLevelCallback None) ;;
  update (set_onPcmFrameCallback None).

Definition stop : M MicWorld unit :=
  update (set_isCapturing false) ;;
  cleanup.

End Platform.

(* ================================================================= *)
(** ** The loopback capture module *)

Module Loopback.

(** The inline codec of the hidden window: [Math.max(-1, Math.min(1, x))],
    [Math.round(s * 32767)], stored into an [Int16Array] (where NaN is 0). *)
Definition encode_sample (x : number) : Z :=
  match x with
  | Fin value => quantize value
  | NaN => 0%Z
  | PosInf => 32767%Z
  | NegInf => (-32767)%Z
  end.

(** [Math.round(48000 * 0.1)] *)
Definition samplesPerFrame : nat :=
  Z.to_nat (Math_round (48000 * (1 # 10))).

(** The state of the hidden window's script. *)
Record Renderer : Type := {
  window_isCapturing : bool;
  sampleBuffer : list (list number)
}.

(** [processFrame]: one animation frame of the hidden window. *)
Definition processFrame (timeDomainData : list number) : M Renderer unit :=
  capturing <- read window_isCapturing ;;
  if negb capturing then ret tt
  else
    buffered <- read sampleBuffer ;;
    let '(kept, frame) := push samplesPerFrame buffered timeDomainData in
    modify (fun r => {| window_isCapturing := window_isCapturing r;
                        sampleBuffer := kept |}) ;;
    match frame with
    | Some frameSamples =>
        fun r => (Ok tt, r, [sendPcmData (map encode_sample frameSamples)])
    | None => ret tt
    end.

(** The main process. *)
Record BrowserWindow : Type := { window_id : nat; isDestroyed : bool }.

(** The listener closure: it captures the [onPcm] argument. *)
Record handler : Type := { handler_id : nat; handler_onPcm : option nat }.

(** The exported object together with the variables of the module. *)
Record LoopbackCapture : Type := {
  isCapturing : bool;
  hiddenWindow : option BrowserWindow;
  pcmHandler : option handler;
  onPcmCallback : option nat;
  isInitialized : bool;
  rmsInterval : option nat;
  lastPcmBuffer : option (list Z)
}.

Definition loopbackCapture : LoopbackCapture := {|
  isCapturing := false; hiddenWindow := None; pcmHandler := None;
  onPcmCallback := None; isInitialized := false; rmsInterval := None;
  lastPcmBuffer := None |}.

Definition set_isCapturing v (o : LoopbackCapture) :=
  {| isCapturing := v; hiddenWindow := hiddenWindow o;
     pcmHandler := pcmHandler o; onPcmCallback := onPcmCallback o;
     isInitialized := isInitialized o; rmsInterval := rmsInterval o;
     lastPcmBuffer := lastPcmBuffer o |}.
Definition set_hiddenWindow v (o : LoopbackCapture) :=
  {| isCapturing := isCapturing o; hiddenWindow := v;
     pcmHandler := pcmHandler o; onPcmCallback := onPcmCallback o;
     isInitialized := isInitialized o; rmsInterval := rmsInterval o;
     lastPcmBuffer := lastPcmBuffer o |}.
Definition set_pcmHandler v (o : LoopbackCapture) :=
  {| isCapturing := isCapturing o; hiddenWindow := hiddenWindow o;
     pcmHandler := v; onPcmCallback := onPcmCallback o;
     isInitialized := isInitialized o; rmsInterval := rmsInterval o;
     lastPcmBuffer := lastPcmBuffer o |}.
Definition set_onPcmCallback v (o : LoopbackCapture) :=
  {| isCapturing := isCapturing o; hiddenWindow := hiddenWindow o;
     pcmHandler := pcmHandler o; onPcmCallback := v;
     isInitialized := isInitialized o; rmsInterval := rmsInterval o;
     lastPcmBuffer := lastPcmBuffer o |}.
Definition set_isInitialized v (o : LoopbackCapture) :=
  {| isCapturing := isCapturing o; hiddenWindow := hiddenWindow o;
     pcmHandler := pcmHandler o; onPcmCallback := onPcmCallback o;
     isInitialized := v; rmsInterval := rmsInterval o;
     lastPcmBuffer := lastPcmBuffer o |}.
Definition set_rmsInterval v (o : LoopbackCapture) :=
  {| isCapturing := isCapturing o; hiddenWindow := hiddenWindow o;
     pcmHandler := pcmHandler o; onPcmCallback := onPcmCallback o;
     isInitialized := isInitialized o; rmsInterval := v;
     lastPcmBuffer := lastPcmBuffer o |}.
Definition set_lastPcmBuffer v (o : LoopbackCapture) :=
  {| isCapturing := isCapturing o; hiddenWindow := hiddenWindow o;
     pcmHandler := pcmHandler o; onPcmCallback := onPcmCallback o;
     isInitialized := isInitialized o; rmsInterval := rmsInterval o;
     lastPcmBuffer := v |}.

(** The loop of the main process' [calculateRMS]: Int16 samples are scaled
    by [1 / 32768] and their squares summed. *)
Fixpoint sum_of_squares (buffer : list Z) (sum : Q) : Q :=
  match buffer with
  | [] => sum
  | value :: rest =>
      let normalized := inject_Z value / 32768 in
      sum_of_squares rest (sum + normalized * normalized)
  end.

Definition calculateRMS (buffer : list Z) : R :=
  if (length buffer =? 0)%nat then 0%R
  else
    let mean := sum_of_squares buffer 0 / of_nat (length buffer) in
    let rms := Math_sqrt mean in
    Rmin 1 (Rmax 0 rms).

(** Storing a number into an [Int16Array] keeps its low 16 bits. *)
Definition to_int16 (value : Z) : Z :=
  ((value + 32768) mod 65536 - 32768)%Z.

Section Platform.

Variable throws : call -> bool.

Definition ensureInitialized : M LoopbackCapture unit :=
  initialized <- read isInitialized ;;
  if initialized then ret tt
  else perform throws initMain ;; modify (set_isInitialized true).

Definition stopRMSMonitoring : M LoopbackCapture unit :=
  interval <- read rmsInterval ;;
  match interval with
  | Some id => invoke (clearInterval id) ;; modify (set_rmsInterval None)
  | None => ret tt
  end ;;
  modify (set_lastPcmBuffer None).

Definition startRMSMonitoring (timer : nat) : M LoopbackCapture unit :=
  stopRMSMonitoring ;;
  invoke (setInterval timer) ;;
  modify (set_rmsInterval (Some timer)).

(** The closure of [startRMSMonitoring], run every 100 ms. *)
Definition rmsHandler : M LoopbackCapture unit :=
  last <- read lastPcmBuffer ;;
  capturing <- read isCapturing ;;
  match last with
  | Some buffer =>
      if capturing then
        perform throws (emit_level (calculateRMS buffer)) ;;
        modify (set_lastPcmBuffer None)
      else ret tt
  | None => ret tt
  end.

(** The listener that [startLoopback] registers for [loopback-pcm-data]. *)
Definition pcmHandler_call (h : handler) (pcmArray : list Z)
  : M LoopbackCapture unit :=
  capturing <- read isCapturing ;;
  if capturing then
    let pcmBuffer := map to_int16 pcmArray in
    modify (set_lastPcmBuffer (Some pcmBuffer)) ;;
    match handler_onPcm h with
    | Some cb => perform throws (onPcm cb pcmBuffer)
    | None => ret tt
    end
  else ret tt.

(** The [catch] block of [startLoopback]. *)
Definition startLoopback_catch (e : error) : M LoopbackCapture unit :=
  invoke
    (console_error "[LoopbackCapture] Error starting loopback capture:") ;;
  window <- read hiddenWindow ;;
  match window with
  | Some w =>
      perform throws (window_destroy (window_id w)) ;;
      modify (set_hiddenWindow None)
  | None => ret tt
  end ;;
  modify (set_isCapturing false) ;;
  throw e.

(** [startLoopback] up to its first [await]: the hidden window is created
    and starts loading; it is a local variable of the suspended call. *)
Definition startLoopback_begin (window : nat) : M LoopbackCapture unit :=
  capturing <- read isCapturing ;;
  if capturing
  then throw (Error "Loopback capture is already running. Stop it first.")
  else
    try_catch
      (ensureInitialized ;;
       perform throws (new_BrowserWindow window) ;;
       perform throws (loadURL window))
      startLoopback_catch.

(** [startLoopback] after the window has loaded. *)
Definition startLoopback_resume (window handlerId timer : nat)
    (onPcmArg : option nat) : M LoopbackCapture unit :=
  try_catch
    (modify (set_hiddenWindow
               (Some {| window_id := window; isDestroyed := false |})) ;;
     modify (set_pcmHandler
               (Some {| handler_id := handlerId;
                        handler_onPcm := onPcmArg |})) ;;
     modify (set_isCapturing true) ;;
     modify (set_onPcmCallback onPcmArg) ;;
     perform throws (ipcMain_on handlerId) ;;
     startRMSMonitoring timer ;;
     invoke (console_log "[LoopbackCapture] Started loopback capture"))
    startLoopback_catch.

Definition stopLoopback : M LoopbackCapture unit :=
  capturing <- read isCapturing ;;
  if negb capturing then ret tt
  else
    try_catch
      (window <- read hiddenWindow ;;
       match window with
       | Some w =>
           if isDestroyed w then ret tt
           else
             perform throws (executeJavaScript (window_id w)) ;;
             perform throws (window_destroy (window_id w)) ;;
             modify (set_hiddenWindow None)
       | None => ret tt
       end ;;
       listener <- read pcmHandler ;;
       match listener with
       | Some h =>
           perform throws (ipcMain_removeListener (handler_id h)) ;;
           modify (set_pcmHandler None)
       | None => ret tt
       end ;;
       stopRMSMonitoring ;;
       modify (set_isCapturing false) ;;
       modify (set_onPcmCallback None) ;;
       invoke (console_log "[LoopbackCapture] Stopped loopback capture"))
      (fun _ =>
         invoke
           (console_error
              "[LoopbackCapture] Error stopping loopback capture:") ;;
         modify (set_isCapturing false)).

End Platform.

(** What [stopLoopback] leaves behind when it runs to the end of its [try]
    block, and the calls it makes on the way. *)
Definition live_window (o : LoopbackCapture) : option BrowserWindow :=
  match hiddenWindow o with
  | Some w => if isDestroyed w then None else Some w
  | None => None
  end.

Definition torn_down (o : LoopbackCapture) : LoopbackCapture := {|
  isCapturing := false;
  hiddenWindow :=
    match live_window o with Some _ => None | None => hiddenWindow o end;
  pcmHandler := None; onPcmCallback := None;
  isInitialized := isInitialized o; rmsInterval := None;
  lastPcmBuffer := None |}.

Definition teardown_calls (o : LoopbackCapture) : list call :=
  match live_window o with
  | Some w => [executeJavaScript (window_id w); window_destroy (window_id w)]
  | None => []
  end
  ++ opt_call (fun h => ipcMain_removeListener (handler_id h)) (pcmHandler o)
  ++ opt_call clearInterval (rmsInterval o)
  ++ [console_log "[LoopbackCapture] Stopped loopback capture"].

End Loopback.

(* ================================================================= *)
(** ** Reference formulas of the specification *)

(** The RMS meter's formula, before the square root: the mean of the squared
    samples. *)
Definition sum_squared (samples : list Q) : Q :=
  fold_right (fun value total => value * value + total) 0 samples.

Definition mean_square (samples : list Q) : Q :=
  sum_squared samples / of_nat (length samples).

(** What [MicCapture.stop] is expected to leave behind: nothing held, not
    capturing, no buffered samples and no callbacks; the three numbers set by
    [start] are not touched. *)
Definition stopped (o : MicCapture) : MicCapture := {|
  audioContext := None; mediaStream := None; sourceNode := None;
  analyserNode := None; silentGain := None; isCapturing := false;
  sampleIntervalId := None; onLevelCallback := None;
  onPcmFrameCallback := None; targetSampleRate := targetSampleRate o;
  sampleBuffer := []; samplesPerFrame := samplesPerFrame o;
  sourceSampleRate := sourceSampleRate o |}.

(** The teardown it is expected to perform, in order: the poll timer, the
    three nodes of the graph, every track of the stream, the context. *)
Definition release_calls (o : MicCapture) : list call :=
  opt_call clearInterval (sampleIntervalId o)
  ++ opt_call disconnect (silentGain o)
  ++ opt_call disconnect (analyserNode o)
  ++ opt_call disconnect (sourceNode o)
  ++ match mediaStream o with
     | Some ms => map track_stop (getTracks ms)
     | None => []
     end
  ++ opt_call audioContext_close (audioContext o).

(** A sequence of Frame Assembler steps: the buffer that is left and the
    frames that were sliced off, in order. *)
Definition frames_of {A} (frame : option A) : list A :=
  match frame with Some f => [f] | None => [] end.

Fixpoint pushes (samplesPerFrame : nat) (sampleBuffer : list (list number))
    (blocks : list (list number))
  : list (list number) * list (list number) :=
  match blocks with
  | [] => (sampleBuffer, [])
  | block :: blocks' =>
      let '(kept, frame) := push samplesPerFrame sampleBuffer block in
      let '(final, frames) := pushes samplesPerFrame kept blocks' in
      (final, frames_of frame ++ frames)
  end.

(** The contents of the microphone's [sampleBuffer], and the condition that
    its entries are arrays that exist. *)
Definition buffered (w : MicWorld) : list (list number) :=
  map (float32_at (mem w)) (sampleBuffer (this w)).

Definition well_formed (w : MicWorld) : Prop :=
  Forall (fun l => (l < length (mem w))%nat) (sampleBuffer (this w)).

(** What the microphone makes of one sliced frame: resampled, then encoded;
    nothing if either step throws or yields an empty array. *)
Definition mic_frame (source target : number) (frameSamples : list number)
  : option (list Z) :=
  match downsample frameSamples source target with
  | Ok resampled =>
      if (length resampled =? 0)%nat then None
      else
        match floatToInt16 resampled with
        | Ok encoded => if (length encoded =? 0)%nat then None else Some encoded
        | Throw _ => None
        end
  | Throw _ => None
  end.

(** The arrays handed to [onPcmFrame] in a trace, and their contents. *)
Definition pcm_calls (calls : list call) : list loc :=
  flat_map (fun c => match c with onPcmFrame _ l => [l] | _ => [] end) calls.

Definition delivered (h : heap) (calls : list call) : list (list Z) :=
  map (int16_at h) (pcm_calls calls).

(** A microphone that [start] has brought up: the flag is on and the
    analyser and context exist. *)
Definition capturing (w : MicWorld) : Prop :=
  isCapturing (this w) = true
  /\ analyserNode (this w) <> None
  /\ audioContext (this w) <> None.

(** The object as a successful [start] leaves it, given the platform objects
    it acquired and its options: the context runs at 48000 Hz, the buffer is
    reset and the timer is set. *)
Definition started (context source analyser gain timer : nat)
    (stream : MediaStream) (onLevelOption onPcmFrameOption : option nat)
    (target : number) : MicCapture := {|
  audioContext := Some context; mediaStream := Some stream;
  sourceNode := Some source; analyserNode := Some analyser;
  silentGain := Some gain; isCapturing := true;
  sampleIntervalId := Some timer; onLevelCallback := onLevelOption;
  onPcmFrameCallback := onPcmFrameOption; targetSampleRate := target;
  sampleBuffer := []; samplesPerFrame := start_samplesPerFrame 48000;
  sourceSampleRate := Fin 48000 |}.

(** A block the analyser can produce: not empty, all samples finite. *)
Definition finite_block (block : list number) : Prop :=
  block <> [] /\ Forall (fun v => isFinite v = true) block.

(** Two heaps that differ at most in the contents of [Int16Array]s. *)
Definition same_floats (h1 h2 : heap) : Prop :=
  length h1 = length h2 /\ forall l, float32_at h1 l = float32_at h2 l.

(** A method body is [local] when, on two such heaps, it returns the same
    value, leaves the same object, allocates the same arrays and makes the
    same calls: the contents of the [Int16Array]s that exist when it starts
    have no influence on it. *)
Definition local {A} (m : M MicWorld A) : Prop :=
  forall o h1 h2,
    same_floats h1 h2 ->
    exists r o' ext calls,
      m {| this := o; mem := h1 |}
      = (r, {| this := o'; mem := h1 ++ ext |}, calls)
      /\ m {| this := o; mem := h2 |}
         = (r, {| this := o'; mem := h2 ++ ext |}, calls).

(* ================================================================= *)
(** ** MicCapture.ts: start *)

Definition set_targetSampleRate v (o : MicCapture) :=
  {| audioContext := audioContext o; mediaStream := mediaStream o;
     sourceNode := sourceNode o; analyserNode := analyserNode o;
     silentGain := silentGain o; isCapturing := isCapturing o;
     sampleIntervalId := sampleIntervalId o;
     onLevelCallback := onLevelCallback o;
     onPcmFrameCallback := onPcmFrameCallback o;
     targetSampleRate := v;
     sampleBuffer := sampleBuffer o; samplesPerFrame := samplesPerFrame o;
     sourceSampleRate := sourceSampleRate o |}.
Definition set_samplesPerFrame v (o : MicCapture) :=
  {| audioContext := audioContext o; mediaStream := mediaStream o;
     sourceNode := sourceNode o; analyserNode := analyserNode o;
     silentGain := silentGain o; isCapturing := isCapturing o;
     sampleIntervalId := sampleIntervalId o;
     onLevelCallback := onLevelCallback o;
     onPcmFrameCallback := onPcmFrameCallback o;
     targetSampleRate := targetSampleRate o;
     sampleBuffer := sampleBuffer o; samplesPerFrame := v;
     sourceSampleRate := sourceSampleRate o |}.
Definition set_sourceSampleRate v (o : MicCapture) :=
  {| audioContext := audioContext o; mediaStream := mediaStream o;
     sourceNode := sourceNode o; analyserNode := analyserNode o;
     silentGain := silentGain o; isCapturing := isCapturing o;
     sampleIntervalId := sampleIntervalId o;
     onLevelCallback := onLevelCallback o;
     onPcmFrameCallback := onPcmFrameCallback o;
     targetSampleRate := targetSampleRate o;
     sampleBuffer := sampleBuffer o; samplesPerFrame := samplesPerFrame o;
     sourceSampleRate := v |}.

(** [MicCaptureOptions]: each field may be left out. *)
Record MicCaptureOptions : Type := {
  options_onLevel : option nat;
  options_onPcmFrame : option nat;
  options_targetSampleRate : option number
}.

(** [options.targetSampleRate || 16000]: [undefined], 0 and NaN are
    falsy. *)
Definition targetSampleRate_or_default (rate : option number) : number :=
  match rate with
  | Some (Fin q) => if Qeq_bool q 0 then Fin 16000 else Fin q
  | Some NaN => Fin 16000
  | Some PosInf => PosInf
  | Some NegInf => NegInf
  | None => Fin 16000
  end.

(** A JavaScript string is falsy when it is empty. *)
Definition is_empty (s : string) : bool :=
  match s with EmptyString => true | String _ _ => false end.

(** [error.message || error] inside a template literal: the message, or
    the text of the error when the message is empty. *)
Definition message_or_error (e : error) : string :=
  match e with
  | Error message => if is_empty message then "Error" else message
  end.

(** The requests that the platform can refuse.  For [start]: the two
    promises it awaits, and the constructors and [connect] calls of Web
    Audio.  For the session controller: the two calls of the database.  For
    the database module: the path of the file, the connection, the two
    [CREATE TABLE] statements and [close]. *)
Inductive operation : Type :=
| db_createSession
| db_endSession
| getDbPath
| new_Database
| db_exec (statement : nat)
| db_close
| getUserMedia
| new_AudioContext
| audioContext_resume
| createMediaStreamSource
| createAnalyser
| createGain
| connect (node : nat).

(** What the platform hands out to one call of [start]: the stream that
    [getUserMedia] resolves with, the context, whether it comes up
    suspended and the rate it reports, the three nodes and the timer. *)
Record grant : Type := {
  granted_stream : MediaStream;
  granted_context : nat;
  context_suspended : bool;
  context_sampleRate : Q;
  granted_source : nat;
  granted_analyser : nat;
  granted_gain : nat;
  granted_timer : nat
}.

Section Start.

Variable throws : call -> bool.

(** Which requests are refused.  A request leaves no entry in the trace of
    calls: the trace records releases, timers, the console and callbacks. *)
Variable fails : operation -> bool.

Definition request {S} (op : operation) : M S unit :=
  fun s =>
    if fails op then (Throw (Error "platform"), s, []) else (Ok tt, s, []).

Definition getIsCapturing : M MicWorld bool := get isCapturing.

(** [startSampling]: the closure it installs is [samplingHandler]. *)
Definition startSampling (timer : nat) : M MicWorld unit :=
  interval <- get sampleIntervalId ;;
  match interval with
  | Some id => invoke (clearInterval id)
  | None => ret tt
  end ;;
  invoke (setInterval timer) ;;
  update (set_sampleIntervalId (Some timer)).

(** [start] up to the call of [getUserMedia] (lines 386-392). *)
Definition start_begin (options : MicCaptureOptions) : M MicWorld unit :=
  capturing <- get isCapturing ;;
  (if capturing then stop throws else ret tt) ;;
  update (set_onLevelCallback (options_onLevel options)) ;;
  update (set_onPcmFrameCallback (options_onPcmFrame options)) ;;
  update (set_targetSampleRate
            (targetSampleRate_or_default (options_targetSampleRate options))).

(** The outer [catch] (lines 476-480). *)
Definition start_catch (e : error) : M MicWorld unit :=
  cleanup throws ;; throw e.

(** The [catch] around the creation of the context (lines 417-425). *)
Definition context_catch (e : error) : M MicWorld unit :=
  invoke (console_error "[MicCapture] Failed to create AudioContext:") ;;
  stream <- get mediaStream ;;
  match stream with
  | Some ms =>
      forEach (fun track => invoke (track_stop track)) (getTracks ms) ;;
      update (set_mediaStream None)
  | None => ret tt
  end ;;
  throw (Error ("Failed to initialize audio context: "
                ++ message_or_error e)).

(** [getUserMedia] has resolved: the stream is stored and the context is
    created (lines 396-412).  If the context is suspended, [start] waits
    again, for [resume]. *)
Definition start_context (g : grant) : M MicWorld unit :=
  try_catch
    (update (set_mediaStream (Some (granted_stream g))) ;;
     try_catch
       (request new_AudioContext ;;
        update (set_audioContext (Some (granted_context g))))
       context_catch)
    start_catch.

(** [resume] was rejected: both [catch] blocks run. *)
Definition start_resume_rejected (e : error) : M MicWorld unit :=
  try_catch (context_catch e) start_catch.

(** Line 416, inside the [try] of the context: [resume] has resolved, or
    the context was running at once.  The rate is read off the context;
    reading it off [null] is a TypeError, whose message is the platform's
    and is written "TypeError" here. *)
Definition read_sampleRate (g : grant) : M MicWorld unit :=
  try_catch
    (context <- get audioContext ;;
     match context with
     | Some _ => update (set_sourceSampleRate (Fin (context_sampleRate g)))
     | None => throw (Error "TypeError")
     end)
    context_catch.

(** Lines 428-434. *)
Definition create_source (g : grant) : M MicWorld unit :=
  try_catch
    (request createMediaStreamSource ;;
     update (set_sourceNode (Some (granted_source g))))
    (fun e =>
       invoke (console_error
                 "[MicCapture] Failed to create MediaStreamSource:") ;;
       cleanup throws ;;
       throw (Error ("Failed to create audio source: "
                     ++ message_or_error e))).

(** Lines 437-464: the analyser, the silent gain, the frame size and the
    chain source -> analyser -> gain -> destination. *)
Definition create_analyser (g : grant) : M MicWorld unit :=
  try_catch
    (request createAnalyser ;;
     update (set_analyserNode (Some (granted_analyser g))) ;;
     request createGain ;;
     update (set_silentGain (Some (granted_gain g))) ;;
     rate <- get sourceSampleRate ;;
     update (set_samplesPerFrame (start_samplesPerFrame (rate_value rate))) ;;
     request (connect (granted_source g)) ;;
     request (connect (granted_analyser g)) ;;
     request (connect (granted_gain g)))
    (fun e =>
       invoke (console_error "[MicCapture] Failed to create AnalyserNode:") ;;
       cleanup throws ;;
       throw (Error ("Failed to create audio analyser: "
                     ++ message_or_error e))).

(** The rest of [start] (lines 416-475): the graph is built, the buffer
    reset, the timer started and the flag set. *)
Definition start_graph (g : grant) : M MicWorld unit :=
  try_catch
    (read_sampleRate g ;;
     create_source g ;;
     create_analyser g ;;
     update (set_sampleBuffer []) ;;
     startSampling (granted_timer g) ;;
     update (set_isCapturing true) ;;
     invoke (console_log "[MicCapture] Started successfully"))
    start_catch.

(** A call of [start] that nothing interleaves with. *)
Definition start (options : MicCaptureOptions) (g : grant)
  : M MicWorld unit :=
  start_begin options ;;
  if fails getUserMedia then start_catch (Error "getUserMedia")
  else
    start_context g ;;
    (if context_suspended g then
       if fails audioContext_resume
       then start_resume_rejected (Error "resume")
       else ret tt
     else ret tt) ;;
    start_graph g.

End Start.

(** The object as a successful [start] leaves it. *)
Definition brought_up (options : MicCaptureOptions) (g : grant)
  : MicCapture := {|
  audioContext := Some (granted_context g);
  mediaStream := Some (granted_stream g);
  sourceNode := Some (granted_source g);
  analyserNode := Some (granted_analyser g);
  silentGain := Some (granted_gain g);
  isCapturing := true;
  sampleIntervalId := Some (granted_timer g);
  onLevelCallback := options_onLevel options;
  onPcmFrameCallback := options_onPcmFrame options;
  targetSampleRate :=
    targetSampleRate_or_default (options_targetSampleRate options);
  sampleBuffer := [];
  samplesPerFrame := start_samplesPerFrame (context_sampleRate g);
  sourceSampleRate := Fin (context_sampleRate g) |}.

(** The callbacks and the target rate that [start] takes from its
    options. *)
Definition with_options (options : MicCaptureOptions) (o : MicCapture)
  : MicCapture :=
  set_targetSampleRate
    (targetSampleRate_or_default (options_targetSampleRate options))
    (set_onPcmFrameCallback (options_onPcmFrame options)
       (set_onLevelCallback (options_onLevel options) o)).

(** The object holds nothing of the platform and is switched off. *)
Definition released (o : MicCapture) : Prop :=
  audioContext o = None /\ mediaStream o = None /\ sourceNode o = None
  /\ analyserNode o = None /\ silentGain o = None
  /\ sampleIntervalId o = None /\ isCapturing o = false
  /\ onLevelCallback o = None /\ onPcmFrameCallback o = None
  /\ sampleBuffer o = [].

(** Every request of one call of [start] is granted. *)
Definition all_granted (fails : operation -> bool) (g : grant) : bool :=
  negb (fails getUserMedia)
  && negb (fails new_AudioContext)
  && negb (context_suspended g && fails audioContext_resume)
  && negb (fails createMediaStreamSource)
  && negb (fails createAnalyser)
  && negb (fails createGain)
  && negb (fails (connect (granted_source g))
           || fails (connect (granted_analyser g))
           || fails (connect (granted_gain g))).

(** A call that does not start a timer. *)
Definition not_setInterval (c : call) : Prop :=
  match c with setInterval _ => False | _ => True end.

(** A call that the sampling code may make when [onLevelOption] and
    [onPcmFrameOption] are the registered callbacks: one of the two, or an
    error message on the console. *)
Definition registered (onLevelOption onPcmFrameOption : option nat)
    (c : call) : Prop :=
  match c with
  | onLevel cb _ => onLevelOption = Some cb
  | onPcmFrame cb _ => onPcmFrameOption = Some cb
  | console_error _ => True
  | _ => False
  end.

(** A method body [keeps] an invariant of the object and makes only calls
    that satisfy [allowed]. *)
Definition keeps {A} (invariant : MicCapture -> Prop)
    (allowed : call -> Prop) (m : M MicWorld A) : Prop :=
  forall w r w' calls,
    invariant (this w) -> m w = (r, w', calls) ->
    invariant (this w') /\ Forall allowed calls.

(** The levels handed to [onLevel] in a trace. *)
Definition level_calls (calls : list call) : list R :=
  flat_map (fun c => match c with onLevel _ level => [level] | _ => [] end)
    calls.

(** The two callbacks that are registered in the object. *)
Definition callbacks_are (onLevelOption onPcmFrameOption : option nat)
    (o : MicCapture) : Prop :=
  onLevelCallback o = onLevelOption
  /\ onPcmFrameCallback o = onPcmFrameOption.

(** A message on the console. *)
Definition console_message (c : call) : Prop :=
  match c with console_error _ | console_log _ => True | _ => False end.

(** The options of a call whose callbacks have been dropped. *)
Definition without_callbacks (options : MicCaptureOptions)
  : MicCaptureOptions := {|
  options_onLevel := None;
  options_onPcmFrame := None;
  options_targetSampleRate := options_targetSampleRate options |}.

(** A call to the platform, not to a closure of the client. *)
Definition platform_call (c : call) : Prop :=
  match c with onLevel _ _ | onPcmFrame _ _ => False | _ => True end.

(** A call that is not a call of [onLevel]. *)
Definition not_onLevel (c : call) : Prop :=
  match c with onLevel _ _ => False | _ => True end.

(* ================================================================= *)
(** ** SessionController.ts *)

Record SessionController : Type := {
  currentSessionId : option string;
  framesCaptured : nat;
  lastLevel : R
}.

(** The exported [sessionController]. *)
Definition sessionController : SessionController := {|
  currentSessionId := None; framesCaptured := 0; lastLevel := 0%R |}.

Definition set_currentSessionId v (s : SessionController) :=
  {| currentSessionId := v; framesCaptured := framesCaptured s;
     lastLevel := lastLevel s |}.
Definition set_framesCaptured v (s : SessionController) :=
  {| currentSessionId := currentSessionId s; framesCaptured := v;
     lastLevel := lastLevel s |}.
Definition set_lastLevel v (s : SessionController) :=
  {| currentSessionId := currentSessionId s;
     framesCaptured := framesCaptured s; lastLevel := v |}.

Record LiveAudioStats : Type := {
  stats_framesCaptured : nat;
  stats_lastLevel : R
}.

(** The two closures that [startSession] hands to [micCapture.start]:
    [onLevel] stores the level, [onPcmFrame] counts the frame.  They are
    the only closures that are ever registered with the microphone, so every
    callback in a trace is a call of one of them. *)
Definition client_callback (s : SessionController) (c : call)
  : SessionController :=
  match c with
  | onLevel _ level => set_lastLevel level s
  | onPcmFrame _ _ => set_framesCaptured (S (framesCaptured s)) s
  | _ => s
  end.

(** The renderer process: the controller and the microphone it drives. *)
Record Client : Type := {
  controller : SessionController;
  micCapture : MicWorld
}.

(** A method of [micCapture], run from the controller's side: the callbacks
    it makes act on the controller. *)
Definition on_micCapture {A} (m : M MicWorld A) : M Client A :=
  fun c =>
    let '(r, w, calls) := m (micCapture c) in
    (r, {| controller := fold_left client_callback calls (controller c);
           micCapture := w |}, calls).

Definition assign (f : SessionController -> SessionController)
  : M Client unit :=
  modify (fun c => {| controller := f (controller c);
                      micCapture := micCapture c |}).

Section Session.

Variable throws : call -> bool.
Variable fails : operation -> bool.

(** [startSession], with nothing interleaved at its awaits; [id] is the id
    of the session that [db.createSession] resolves with, and [levelCb] and
    [frameCb] name the two closures. *)
Definition startSession (id : string) (levelCb frameCb : nat) (g : grant)
  : M Client string :=
  try_catch
    (request fails db_createSession ;;
     assign (set_currentSessionId (Some id)) ;;
     assign (set_framesCaptured 0) ;;
     assign (set_lastLevel 0%R) ;;
     invoke (console_log "Starting session") ;;
     try_catch
       (on_micCapture
          (start throws fails
             {| options_onLevel := Some levelCb;
                options_onPcmFrame := Some frameCb;
                options_targetSampleRate := None |} g))
       (fun _ =>
          invoke (console_error "Failed to start microphone capture:")) ;;
     invoke (console_log ("Session ID : " ++ id)) ;;
     ret id)
    (fun e =>
       assign (set_currentSessionId None) ;;
       assign (set_framesCaptured 0) ;;
       assign (set_lastLevel 0%R) ;;
       throw e).

Definition stopSession : M Client unit :=
  on_micCapture (stop throws) ;;
  assign (set_framesCaptured 0) ;;
  assign (set_lastLevel 0%R) ;;
  assign (set_currentSessionId None) ;;
  request fails db_endSession.

Definition getLiveAudioStats : M Client (option LiveAudioStats) :=
  id <- read (fun c => currentSessionId (controller c)) ;;
  match id with
  | None => ret None
  | Some sessionId =>
      if is_empty sessionId then ret None
      else
        frames <- read (fun c => framesCaptured (controller c)) ;;
        level <- read (fun c => lastLevel (controller c)) ;;
        ret (Some {| stats_framesCaptured := frames;
                     stats_lastLevel := level |})
  end.

Definition getCurrentSessionId : M Client (option string) :=
  read (fun c => currentSessionId (controller c)).

(** One tick of the sampling timer while the session runs. *)
Definition tick (timeDomainData : list number) : M Client unit :=
  on_micCapture (samplingHandler throws timeDomainData).

End Session.

(* ================================================================= *)
(** ** main.js: the audio handlers of the main process *)

(** The main process, as far as the loopback capture is concerned: the
    capture module, the [levelHandler] property that the handlers hang on
    it, the listeners of its [level] event, the main window, and the levels
    that [webContents.send] has delivered to that window, oldest first. *)
Record MainProcess : Type := {
  loopback : Loopback.LoopbackCapture;
  levelHandler : option nat;
  level_listeners : list nat;
  mainWindow : option Loopback.BrowserWindow;
  sent_levels : list R
}.

Definition set_loopback v (s : MainProcess) :=
  {| loopback := v; levelHandler := levelHandler s;
     level_listeners := level_listeners s; mainWindow := mainWindow s;
     sent_levels := sent_levels s |}.
Definition set_levelHandler v (s : MainProcess) :=
  {| loopback := loopback s; levelHandler := v;
     level_listeners := level_listeners s; mainWindow := mainWindow s;
     sent_levels := sent_levels s |}.
Definition set_level_listeners v (s : MainProcess) :=
  {| loopback := loopback s; levelHandler := levelHandler s;
     level_listeners := v; mainWindow := mainWindow s;
     sent_levels := sent_levels s |}.
Definition set_mainWindow v (s : MainProcess) :=
  {| loopback := loopback s; levelHandler := levelHandler s;
     level_listeners := level_listeners s; mainWindow := v;
     sent_levels := sent_levels s |}.
Definition set_sent_levels v (s : MainProcess) :=
  {| loopback := loopback s; levelHandler := levelHandler s;
     level_listeners := level_listeners s; mainWindow := mainWindow s;
     sent_levels := v |}.

(** [emitter.removeListener]: the instance that was added last goes. *)
Fixpoint remove_first (listener : nat) (listeners : list nat) : list nat :=
  match listeners with
  | [] => []
  | l :: rest =>
      if (l =? listener)%nat then rest else l :: remove_first listener rest
  end.

Definition removeListener (listener : nat) (listeners : list nat)
  : list nat :=
  rev (remove_first listener (rev listeners)).

(** The closure [levelHandler] of [audio:startLoopback] (lines 501-505). *)
Definition levelHandler_call (level : R) (s : MainProcess) : MainProcess :=
  match mainWindow s with
  | Some w =>
      if Loopback.isDestroyed w then s
      else set_sent_levels (sent_levels s ++ [level]) s
  | None => s
  end.

(** [emit('level', ...)]: each listener is called in turn; every listener
    is an instance of that closure. *)
Definition emit (s : MainProcess) (c : call) : MainProcess :=
  match c with
  | emit_level level =>
      fold_left (fun s' _ => levelHandler_call level s') (level_listeners s) s
  | _ => s
  end.

(** A function of the capture module, run inside the main process: the
    [level] events it emits reach the listeners. *)
Definition on_loopbackCapture {A} (m : M Loopback.LoopbackCapture A)
  : M MainProcess A :=
  fun s =>
    let '(r, l, calls) := m (loopback s) in
    (r, fold_left emit calls (set_loopback l s), calls).

(** Lines 489-492, 520-523 and 253-256. *)
Definition remove_levelHandler : M MainProcess unit :=
  handler <- read levelHandler ;;
  match handler with
  | Some h =>
      modify (fun s =>
                set_level_listeners (removeListener h (level_listeners s)) s) ;;
      modify (set_levelHandler None)
  | None => ret tt
  end.

Section Main.

Variable throws : call -> bool.

(** The [catch] blocks of the handlers log the error and throw a new one,
    whose message is [`${message}: ${error.message || error}`]. *)
Definition rethrow (logged message : string) (e : error)
  : M MainProcess unit :=
  invoke (console_error logged) ;;
  throw (Error (message ++ ": " ++ message_or_error e)).

(** [audio:startLoopback] up to the first [await] inside
    [startLoopback]. *)
Definition audio_startLoopback_begin (window : nat) : M MainProcess unit :=
  try_catch
    (main <- read mainWindow ;;
     match main with
     | None => throw (Error "Main window not available")
     | Some _ => ret tt
     end ;;
     remove_levelHandler ;;
     on_loopbackCapture (Loopback.startLoopback_begin throws window))
    (rethrow "[IPC] Error starting loopback capture:"
       "Failed to start loopback capture").

(** [audio:startLoopback] after the hidden window has loaded; [onPcm] names
    the empty closure it passes on and [listener] the [levelHandler] closure
    it creates. *)
Definition audio_startLoopback_resume
    (window handlerId timer onPcm listener : nat) : M MainProcess unit :=
  try_catch
    (on_loopbackCapture
       (Loopback.startLoopback_resume throws window handlerId timer
          (Some onPcm)) ;;
     modify (fun s =>
               set_level_listeners (level_listeners s ++ [listener]) s) ;;
     modify (set_levelHandler (Some listener)) ;;
     invoke (console_log "[IPC] Started loopback capture for device:"))
    (rethrow "[IPC] Error starting loopback capture:"
       "Failed to start loopback capture").

Definition audio_stopLoopback : M MainProcess unit :=
  try_catch
    (remove_levelHandler ;;
     on_loopbackCapture (Loopback.stopLoopback throws) ;;
     invoke (console_log "[IPC] Stopped loopback capture"))
    (rethrow "[IPC] Error stopping loopback capture:"
       "Failed to stop loopback capture").

(** The [closed] handler of the main window (lines 251-262). *)
Definition window_closed : M MainProcess unit :=
  remove_levelHandler ;;
  capturing <- read (fun s => Loopback.isCapturing (loopback s)) ;;
  (if capturing then on_loopbackCapture (Loopback.stopLoopback throws)
   else ret tt) ;;
  modify (set_mainWindow None).

(** A frame from the hidden window, and a tick of the level timer. *)
Definition loopback_pcm_data (h : Loopback.handler) (pcmArray : list Z)
  : M MainProcess unit :=
  on_loopbackCapture (Loopback.pcmHandler_call throws h pcmArray).

Definition level_tick : M MainProcess unit :=
  on_loopbackCapture (Loopback.rmsHandler throws).

End Main.

(** At most one listener, and it is the one that [levelHandler] names. *)
Definition listeners_tracked (s : MainProcess) : Prop :=
  level_listeners s = frames_of (levelHandler s).

(** The main process while the level meter is connected: the one listener
    is registered and remembered. *)
Definition metering (capture : Loopback.LoopbackCapture) (listener : nat)
    (main : Loopback.BrowserWindow) (sent : list R) : MainProcess := {|
  loopback := capture; levelHandler := Some listener;
  level_listeners := [listener]; mainWindow := Some main;
  sent_levels := sent |}.

(* ================================================================= *)
(** ** The loopback capture module: listOutputDevices *)

(** [haystack.includes(needle)], for a needle of ASCII characters. *)
Fixpoint includes (haystack needle : string) : bool :=
  if String.prefix needle haystack then true
  else
    match haystack with
    | EmptyString => false
    | String _ rest => includes rest needle
    end.

(** A source of [desktopCapturer], and a device as the module reports it. *)
Record DesktopCapturerSource : Type := {
  source_id : string;
  source_name : string
}.

Record OutputDevice : Type := { device_id : string; device_name : string }.

Definition default_output : list OutputDevice :=
  [{| device_id := "default"; device_name := "Default Output" |}].

Section ListOutputDevices.

Variable throws : call -> bool.

(** [String.prototype.toLowerCase], a function of the platform. *)
Variable toLowerCase : string -> string.

Definition is_audio_source (source : DesktopCapturerSource) : bool :=
  let name := toLowerCase (source_name source) in
  includes name "audio" || includes name "speaker"
  || includes name "headphone".

(** [listOutputDevices]; [sources] is what [desktopCapturer.getSources]
    resolves with, or [None] when it rejects. *)
Definition listOutputDevices (sources : option (list DesktopCapturerSource))
  : M Loopback.LoopbackCapture (list OutputDevice) :=
  try_catch
    (Loopback.ensureInitialized throws ;;
     match sources with
     | None => throw (Error "getSources")
     | Some all =>
         let audioSources := filter is_audio_source all in
         if (0 <? length audioSources)%nat
         then
           ret (map (fun source =>
                       {| device_id := source_id source;
                          device_name := source_name source |})
                  audioSources)
         else ret default_output
     end)
    (fun _ =>
       invoke (console_error
                 "[LoopbackCapture] Error listing output devices:") ;;
       ret default_output).

(** The handler [audio:listOutputs] of main.js. *)
Definition audio_listOutputs (sources : option (list DesktopCapturerSource))
  : M MainProcess (list OutputDevice) :=
  try_catch
    (on_loopbackCapture (listOutputDevices sources))
    (fun e =>
       invoke (console_error "[IPC] Error listing output devices:") ;;
       throw (Error ("Failed to list output devices: "
                     ++ message_or_error e))).

End ListOutputDevices.

(* ================================================================= *)
(** ** FakeTranscriptGenerator.ts *)

Module FakeTranscript.

Record TranscriptEvent : Type := {
  event_id : string;
  event_sessionId : string;
  speaker : string;
  startMs : Z;
  endMs : Z;
  text : string;
  isFinal : Z
}.

Definition INTERVIEWER_PHRASES : list string := [
  "Can you tell me about yourself?";
  "What interests you about this role?";
  "Why are you leaving your current position?";
  "What's your biggest strength?";
  "Can you describe a challenging situation you've handled?";
  "How do you handle working under pressure?";
  "Tell me about a time you worked in a team.";
  "Where do you see yourself in five years?";
  "What questions do you have for me?";
  "What do you know about our company?";
  "How do you prioritize your work?";
  "Can you walk me through your resume?"
]%string.

Definition INTERVIEWEE_PHRASES : list string := [
  "I have about five years of experience in software development.";
  "I'm really excited about this opportunity because it aligns with my career goals.";
  "I'm looking for new challenges and growth opportunities.";
  "I think my strongest skill is problem-solving and communication.";
  "I once had to lead a project with a tight deadline and managed it successfully.";
  "I try to stay organized and break down tasks into manageable pieces.";
  "I enjoy collaborating with others and find it helps me learn and grow.";
  "I hope to be in a leadership role, continuing to contribute meaningfully.";
  "What does the team culture look like here?";
  "I've researched your company and I'm impressed by your recent innovations.";
  "I use a combination of urgency and importance to prioritize tasks.";
  "I started my career as a junior developer and worked my way up through various roles."
]%string.

(** The generator, together with the events that the database has
    accepted from it, oldest first. *)
Record FakeTranscriptGenerator : Type := {
  intervalId : option nat;
  sessionId : option string;
  startTimeMs : Z;
  currentTimeMs : Z;
  speakerIndex : Z;
  inserted : list TranscriptEvent
}.

Definition set_intervalId v (g : FakeTranscriptGenerator) :=
  {| intervalId := v; sessionId := sessionId g;
     startTimeMs := startTimeMs g; currentTimeMs := currentTimeMs g;
     speakerIndex := speakerIndex g; inserted := inserted g |}.
Definition set_sessionId v (g : FakeTranscriptGenerator) :=
  {| intervalId := intervalId g; sessionId := v;
     startTimeMs := startTimeMs g; currentTimeMs := currentTimeMs g;
     speakerIndex := speakerIndex g; inserted := inserted g |}.
Definition set_startTimeMs v (g : FakeTranscriptGenerator) :=
  {| intervalId := intervalId g; sessionId := sessionId g;
     startTimeMs := v; currentTimeMs := currentTimeMs g;
     speakerIndex := speakerIndex g; inserted := inserted g |}.
Definition set_currentTimeMs v (g : FakeTranscriptGenerator) :=
  {| intervalId := intervalId g; sessionId := sessionId g;
     startTimeMs := startTimeMs g; currentTimeMs := v;
     speakerIndex := speakerIndex g; inserted := inserted g |}.
Definition set_speakerIndex v (g : FakeTranscriptGenerator) :=
  {| intervalId := intervalId g; sessionId := sessionId g;
     startTimeMs := startTimeMs g; currentTimeMs := currentTimeMs g;
     speakerIndex := v; inserted := inserted g |}.
Definition set_inserted v (g : FakeTranscriptGenerator) :=
  {| intervalId := intervalId g; sessionId := sessionId g;
     startTimeMs := startTimeMs g; currentTimeMs := currentTimeMs g;
     speakerIndex := speakerIndex g; inserted := v |}.

Definition stop : M FakeTranscriptGenerator unit :=
  timer <- read intervalId ;;
  match timer with
  | Some id => invoke (clearInterval id) ;; modify (set_intervalId None)
  | None => ret tt
  end ;;
  modify (set_sessionId None).

(** [this.speakerIndex === 0 ? 'SELF' : 'OTHER'] and the phrases that go
    with it. *)
Definition speaker_of (index : Z) : string :=
  if (index =? 0)%Z then "SELF" else "OTHER".

Definition phrases_of (index : Z) : list string :=
  if String.eqb (speaker_of index) "SELF"
  then INTERVIEWEE_PHRASES else INTERVIEWER_PHRASES.

(** [Math.max(500, text.length * 80)] *)
Definition estimatedDurationMs (phrase : string) : Z :=
  Z.max 500 (Z.of_nat (String.length phrase) * 80).

(** [generateEvent] up to its [await]: the event that it hands to the
    database, or nothing when no session is set.  [random] is the value of
    [Math.random()] that picks the phrase, and [eventId] the id that is
    built from the session id, the start time and a second random
    number. *)
Definition generateEvent_begin (random : Q) (eventId : string)
  : M FakeTranscriptGenerator (option TranscriptEvent) :=
  session <- read sessionId ;;
  match session with
  | None => ret None
  | Some sid =>
      if is_empty sid then ret None
      else
        index <- read speakerIndex ;;
        let phrases := phrases_of index in
        match nth_error phrases
                (Z.to_nat (Qfloor (random * of_nat (length phrases)))) with
        | None => throw (Error "TypeError")
        | Some phrase =>
            start <- read currentTimeMs ;;
            ret (Some {| event_id := eventId; event_sessionId := sid;
                         speaker := speaker_of index;
                         startMs := start;
                         endMs := (start + estimatedDurationMs phrase)%Z;
                         text := phrase; isFinal := 1 |})
        end
  end.

(** [generateEvent] after the [await]: [stored] tells whether the
    database accepted the event. *)
Definition generateEvent_end (stored : bool) (event : TranscriptEvent)
  : M FakeTranscriptGenerator unit :=
  if stored then
    modify (fun g => set_inserted (inserted g ++ [event]) g) ;;
    modify (set_currentTimeMs (endMs event + 100)%Z) ;;
    index <- read speakerIndex ;;
    modify (set_speakerIndex (Z.rem (index + 1) 2))
  else invoke (console_error "Failed to insert transcript event:").

(** A call of [generateEvent] that is over before the next one begins. *)
Definition generateEvent (random : Q) (eventId : string) (stored : bool)
  : M FakeTranscriptGenerator unit :=
  event <- generateEvent_begin random eventId ;;
  match event with
  | Some e => generateEvent_end stored e
  | None => ret tt
  end.

(** [start]: the first event is generated at once, and its insertion is
    still pending when [start] returns. *)
Definition start (sid : string) (now : Z) (timer : nat) (random : Q)
    (eventId : string)
  : M FakeTranscriptGenerator (result (option TranscriptEvent)) :=
  running <- read intervalId ;;
  match running with
  | Some _ => stop
  | None => ret tt
  end ;;
  modify (set_sessionId (Some sid)) ;;
  modify (set_startTimeMs now) ;;
  modify (set_currentTimeMs 0) ;;
  modify (set_speakerIndex 0) ;;
  pending <- attempt (generateEvent_begin random eventId) ;;
  invoke (setInterval timer) ;;
  modify (set_intervalId (Some timer)) ;;
  ret pending.

(** One firing of the timer: the random number, the id and the answer of
    the database. *)
Record tick : Type := {
  tick_random : Q;
  tick_eventId : string;
  tick_stored : bool
}.

(** [start], the completion of its first event, and then the ticks. *)
Definition session (sid : string) (now : Z) (timer : nat) (first : tick)
    (ticks : list tick) : M FakeTranscriptGenerator unit :=
  pending <- start sid now timer (tick_random first) (tick_eventId first) ;;
  match pending with
  | Ok (Some e) => generateEvent_end (tick_stored first) e
  | _ => ret tt
  end ;;
  forEach
    (fun t => generateEvent (tick_random t) (tick_eventId t) (tick_stored t))
    ticks.

(** A transcript that starts at time [time] with the speaker of [index]:
    every event belongs to the session, is final, carries a phrase of its
    speaker, lasts as long as its text demands, starts 100 ms after the
    previous one has ended, and the speakers alternate. *)
Fixpoint timeline (sid : string) (time index : Z)
    (events : list TranscriptEvent) : Prop :=
  match events with
  | [] => True
  | e :: rest =>
      event_sessionId e = sid
      /\ isFinal e = 1%Z
      /\ speaker e = speaker_of index
      /\ In (text e) (phrases_of index)
      /\ startMs e = time
      /\ endMs e = (time + estimatedDurationMs (text e))%Z
      /\ timeline sid (endMs e + 100) (Z.rem (index + 1) 2) rest
  end.

(** The time and the speaker that come after a transcript. *)
Fixpoint next_slot (time index : Z) (events : list TranscriptEvent)
  : Z * Z :=
  match events with
  | [] => (time, index)
  | e :: rest => next_slot (endMs e + 100) (Z.rem (index + 1) 2) rest
  end.

(** The generator while it runs for session [sid]: the database holds
    [events] on top of what it held before, and the generator stands at the
    time and speaker that come after them. *)
Definition generating (sid : string) (timer : nat)
    (before events : list TranscriptEvent) (g : FakeTranscriptGenerator)
  : Prop :=
  inserted g = before ++ events
  /\ timeline sid 0 0 events
  /\ (currentTimeMs g, speakerIndex g) = next_slot 0 0 events
  /\ (speakerIndex g = 0 \/ speakerIndex g = 1)%Z
  /\ sessionId g = Some sid
  /\ intervalId g = Some timer.

End FakeTranscript.

(* ================================================================= *)
(** ** db.js: opening the database *)

Module Db.

(** The variables of the module; a connection is named by a number. *)
Record Module_ : Type := {
  db : option nat;
  initializationFailed : bool;
  initializationError : option error
}.

Definition initial : Module_ := {|
  db := None; initializationFailed := false; initializationError := None |}.

Definition set_db v (s : Module_) :=
  {| db := v; initializationFailed := initializationFailed s;
     initializationError := initializationError s |}.
Definition set_initializationFailed v (s : Module_) :=
  {| db := db s; initializationFailed := v;
     initializationError := initializationError s |}.
Definition set_initializationError v (s : Module_) :=
  {| db := db s; initializationFailed := initializationFailed s;
     initializationError := v |}.

(** [error.message || String(error)] *)
Definition errorMessage (e : error) : string := message_or_error e.

Definition rebuildError : error :=
  Error
    "Database module not properly built for Electron. Please run: npm run rebuild".

Section Platform.

(** Which requests fail, and with which message. *)
Variable failure : operation -> option string.

Definition ask {S} (op : operation) : M S unit :=
  fun s =>
    match failure op with
    | Some message => (Throw (Error message), s, [])
    | None => (Ok tt, s, [])
    end.

(** [initializeDb]; [ready] is the answer of [app.isReady()] and [handle]
    the connection that [new Database] returns. *)
Definition initializeDb (ready : bool) (handle : nat)
  : M Module_ (option nat) :=
  current <- read db ;;
  match current with
  | Some d => ret (Some d)
  | None =>
      failed <- read initializationFailed ;;
      if failed then
        stored <- read initializationError ;;
        match stored with
        | Some e => throw e
        | None => throw (Error "Database initialization previously failed")
        end
      else if negb ready then
        modify (set_initializationFailed true) ;;
        modify (set_initializationError
                  (Some (Error
                           "App must be ready before initializing database"))) ;;
        throw (Error "App must be ready before initializing database")
      else
        try_catch
          (ask getDbPath ;;
           invoke (console_log "[DB] Initializing database at:") ;;
           ask new_Database ;;
           modify (set_db (Some handle)) ;;
           invoke (console_log "[DB] Database connection established"))
          (fun e =>
             invoke (console_error
                       "[DB] Failed to create database connection:") ;;
             modify (set_initializationFailed true) ;;
             modify (set_initializationError (Some e)) ;;
             if includes (errorMessage e) "better-sqlite3"
                || includes (errorMessage e) "Cannot find module"
                || includes (errorMessage e) "was compiled against"
             then
               modify (set_initializationError (Some rebuildError)) ;;
               throw rebuildError
             else throw e) ;;
        try_catch
          (ask (db_exec 0) ;;
           ask (db_exec 1) ;;
           invoke (console_log "[DB] Database tables initialized"))
          (fun e =>
             invoke (console_error
                       "[DB] Failed to create database tables:") ;;
             opened <- read db ;;
             match opened with
             | Some _ =>
                 try_catch (ask db_close)
                   (fun _ =>
                      invoke (console_error
                                "[DB] Error closing database:")) ;;
                 modify (set_db None)
             | None => ret tt
             end ;;
             modify (set_initializationFailed true) ;;
             modify (set_initializationError (Some e)) ;;
             throw e) ;;
        read db
  end.

Definition getDb (ready : bool) (handle : nat) : M Module_ (option nat) :=
  current <- read db ;;
  failed <- read initializationFailed ;;
  if is_null current && negb failed then
    try_catch (initializeDb ready handle) (fun _ => ret None)
  else if failed then ret None
  else ret current.

End Platform.

(** The states that the module can be in: a connection is held only as
    long as no initialisation has failed. *)
Definition consistent (s : Module_) : Prop :=
  db s = None \/ initializationFailed s = false.

End Db.

(* ================================================================= *)
(** * Properties *)

Unset Implicit Arguments.

Ltac qlra := Lqa.lra.

(** ** Rounding and the codec *)

Lemma Math_round_lower (x : Q) : inject_Z (Math_round x) <= x + (1 # 2).
Proof. unfold Math_round. apply Qfloor_le. Qed.

Lemma Math_round_upper (x : Q) : x + (1 # 2) < inject_Z (Math_round x) + 1.
Proof.
  unfold Math_round.
  pose proof (Qlt_floor (x + (1 # 2))) as H.
  rewrite inject_Z_plus in H. exact H.
Qed.

Lemma Zlt_of_Qlt (a b k : Z) :
  inject_Z a < inject_Z b + inject_Z k -> (a < b + k)%Z.
Proof. rewrite <- inject_Z_plus, <- Zlt_Qlt. trivial. Qed.

Lemma Math_round_inject (z : Z) : Math_round (inject_Z z) = z.
Proof.
  pose proof (Math_round_lower (inject_Z z)) as Hl.
  pose proof (Math_round_upper (inject_Z z)) as Hu.
  assert (Math_round (inject_Z z) < z + 1)%Z
    by (apply Zlt_of_Qlt; change (inject_Z 1) with 1; qlra).
  assert (z < Math_round (inject_Z z) + 1)%Z
    by (apply Zlt_of_Qlt; change (inject_Z 1) with 1; qlra).
  lia.
Qed.

Lemma Math_round_comp (x y : Q) : x == y -> Math_round x = Math_round y.
Proof. intros E. unfold Math_round. apply Qfloor_comp. rewrite E. reflexivity. Qed.

Lemma Math_round_mono (x y : Q) : x <= y -> (Math_round x <= Math_round y)%Z.
Proof. intros L. unfold Math_round. apply Qfloor_resp_le. qlra. Qed.

Lemma clamp_unit_range (value : Q) : -1 <= clamp_unit value <= 1.
Proof.
  unfold clamp_unit. split.
  - apply Q.le_max_l.
  - apply Q.max_lub; [ qlra | apply Q.le_min_l ].
Qed.

Lemma clamp_unit_id (value : Q) :
  -1 <= value <= 1 -> clamp_unit value == value.
Proof.
  intros [Hl Hu]. unfold clamp_unit.
  rewrite Q.min_r by assumption. rewrite Q.max_r by assumption. reflexivity.
Qed.

(** The range check of [floatToInt16] (line 816) never fires. *)
Lemma quantize_range (value : Q) : (-32767 <= quantize value <= 32767)%Z.
Proof.
  unfold quantize.
  pose proof (clamp_unit_range value) as [Hl Hu].
  pose proof (Math_round_lower (clamp_unit value * 32767)) as Rl.
  pose proof (Math_round_upper (clamp_unit value * 32767)) as Ru.
  set (w := Math_round (clamp_unit value * 32767)) in *.
  assert (w < 0 + 32768)%Z
    by (apply Zlt_of_Qlt; change (inject_Z 0) with 0;
        change (inject_Z 32768) with 32768; qlra).
  assert (0 < w + 32768)%Z
    by (apply Zlt_of_Qlt; change (inject_Z 0) with 0;
        change (inject_Z 32768) with 32768; qlra).
  lia.
Qed.

Lemma quantize_in_int16 (value : Q) :
  ((quantize value <? -32768) || (32767 <? quantize value))%Z = false.
Proof.
  pose proof (quantize_range value).
  apply orb_false_iff. split; apply Z.ltb_ge; lia.
Qed.

(** C7: for every [v] in [-32768, 32767], scaling [v] down by 32768 and
    encoding the result with [floatToInt16] gives an integer within 1 of
    [v]. *)
Theorem floatToInt16_int16ToFloat (v : Z) :
  (-32768 <= v <= 32767)%Z ->
  exists w, floatToInt16 [int16ToFloat v] = Ok [w] /\ (v - 1 <= w <= v + 1)%Z.
Proof.
  intros [Hl Hu].
  exists (quantize (inject_Z v / 32768)). split.
  - unfold floatToInt16, int16ToFloat. simpl.
    rewrite quantize_in_int16. reflexivity.
  - unfold quantize.
    assert (inject_Z (-32768) <= inject_Z v) as Bl by (rewrite <- Zle_Qle; lia).
    assert (inject_Z v <= inject_Z 32767) as Bu by (rewrite <- Zle_Qle; lia).
    change (inject_Z (-32768)) with (-32768) in Bl.
    change (inject_Z 32767) with 32767 in Bu.
    assert (inject_Z v / 32768 == inject_Z v * (1 # 32768)) as E by field.
    assert (-1 <= inject_Z v / 32768 <= 1) as Hr by (rewrite E; split; qlra).
    rewrite (Math_round_comp (clamp_unit (inject_Z v / 32768) * 32767)
               (inject_Z v * (32767 # 32768))).
    2:{ rewrite (clamp_unit_id _ Hr). field. }
    pose proof (Math_round_lower (inject_Z v * (32767 # 32768))) as Rl.
    pose proof (Math_round_upper (inject_Z v * (32767 # 32768))) as Ru.
    set (w := Math_round (inject_Z v * (32767 # 32768))) in *.
    assert (w < v + 2)%Z
      by (apply Zlt_of_Qlt; change (inject_Z 2) with 2; qlra).
    assert (v < w + 2)%Z
      by (apply Zlt_of_Qlt; change (inject_Z 2) with 2; qlra).
    lia.
Qed.

Lemma floatToInt16_int16ToFloat_witness :
  exists w, floatToInt16 [int16ToFloat (-32768)] = Ok [w]
            /\ (-32768 - 1 <= w <= -32768 + 1)%Z.
Proof. apply (floatToInt16_int16ToFloat (-32768)%Z). lia. Defined.

(** ** The RMS meter *)

Lemma of_nat_S (n : nat) : of_nat (S n) == of_nat n + 1.
Proof.
  unfold of_nat. rewrite Nat2Z.inj_succ. unfold Z.succ.
  rewrite inject_Z_plus. reflexivity.
Qed.

Lemma of_nat_pos (n : nat) : (0 < n)%nat -> 0 < of_nat n.
Proof.
  intros H. unfold of_nat. change 0 with (inject_Z 0).
  rewrite <- Zlt_Qlt. lia.
Qed.

Lemma sum_of_squares_Fin (samples : list Q) : forall sum,
  exists total,
    sum_of_squares (map Fin samples) sum = Ok total
    /\ total == sum + sum_squared samples.
Proof.
  unfold sum_squared.
  induction samples as [| v samples IH]; intros sum; simpl.
  - exists sum. split; [ reflexivity | ring ].
  - destruct (IH (sum + v * v)) as [total [E Q]].
    exists total. split; [ exact E | rewrite Q; ring ].
Qed.

Lemma sum_squared_bounds (samples : list Q) :
  Forall (fun v => -1 <= v <= 1) samples ->
  0 <= sum_squared samples <= of_nat (length samples).
Proof.
  induction 1 as [| v samples [Hl Hu] _ IH];
    unfold sum_squared in *; cbn [fold_right length].
  - change (of_nat 0) with 0. split; qlra.
  - rewrite of_nat_S.
    assert (0 <= v * v) by Lqa.nra.
    assert (v * v <= 1) by Lqa.nra.
    split; qlra.
Qed.

Lemma sum_squared_zero (samples : list Q) :
  Forall (fun v => v == 0) samples -> sum_squared samples == 0.
Proof.
  induction 1 as [| v samples E _ IH];
    unfold sum_squared in *; cbn [fold_right]; [ reflexivity | ].
  rewrite IH, E. ring.
Qed.

Lemma sum_squared_full_scale (samples : list Q) :
  Forall (fun v => v == 1 \/ v == -1) samples ->
  sum_squared samples == of_nat (length samples).
Proof.
  induction 1 as [| v samples E _ IH];
    unfold sum_squared in *; cbn [fold_right length].
  - reflexivity.
  - rewrite of_nat_S, IH. destruct E as [E | E]; rewrite E; ring.
Qed.

Lemma calculateRMS_Fin (samples : list Q) :
  samples <> [] ->
  calculateRMS (map Fin samples) = Ok (sqrt (Q2R (mean_square samples))).
Proof.
  intros NE. unfold calculateRMS.
  destruct samples as [| v samples]; [ congruence | ].
  rewrite length_map. cbn [length Nat.eqb].
  destruct (sum_of_squares_Fin (v :: samples) 0) as [total [E Q]].
  rewrite E. cbn [bind_result]. unfold Math_sqrt, mean_square.
  do 2 f_equal. apply Qeq_eqR. rewrite Q. cbn [length].
  assert (~ of_nat (S (length samples)) == 0)
    by (pose proof (of_nat_pos (S (length samples)) ltac:(lia)); qlra).
  field. assumption.
Qed.

(** C6: on a non-empty block of finite samples in [-1, 1], [calculateRMS]
    returns the square root of the mean of the squared samples, and that
    value lies in [0, 1]; it is 0 on an all-zero block and 1 on a block whose
    samples are all +1 or -1 (a full-scale square wave). *)
Theorem calculateRMS_unit_block (samples : list Q) :
  samples <> [] ->
  Forall (fun v => -1 <= v <= 1) samples ->
  calculateRMS (map Fin samples) = Ok (sqrt (Q2R (mean_square samples)))
  /\ (0 <= sqrt (Q2R (mean_square samples)) <= 1)%R
  /\ (Forall (fun v => v == 0) samples ->
      calculateRMS (map Fin samples) = Ok 0%R)
  /\ (Forall (fun v => v == 1 \/ v == -1) samples ->
      calculateRMS (map Fin samples) = Ok 1%R).
Proof.
  intros NE B.
  assert (0 < of_nat (length samples)) as Hn
    by (apply of_nat_pos; destruct samples; [ congruence | simpl; lia ]).
  rewrite (calculateRMS_Fin samples NE).
  repeat split.
  - apply sqrt_pos.
  - rewrite <- sqrt_1. apply sqrt_le_1.
    + rewrite <- RMicromega.Q2R_0. apply Qle_Rle.
      unfold mean_square. apply Qle_shift_div_l; [ exact Hn | ].
      destruct (sum_squared_bounds samples B). qlra.
    + lra.
    + rewrite <- RMicromega.Q2R_1. apply Qle_Rle.
      unfold mean_square. apply Qle_shift_div_r; [ exact Hn | ].
      destruct (sum_squared_bounds samples B). qlra.
  - intros Z. do 2 f_equal. rewrite <- sqrt_0. f_equal.
    rewrite <- RMicromega.Q2R_0. apply Qeq_eqR.
    unfold mean_square. rewrite (sum_squared_zero samples Z).
    field. qlra.
  - intros F. do 2 f_equal. rewrite <- sqrt_1. f_equal.
    rewrite <- RMicromega.Q2R_1. apply Qeq_eqR.
    unfold mean_square. rewrite (sum_squared_full_scale samples F).
    field. qlra.
Qed.

Lemma calculateRMS_unit_block_witness :
  calculateRMS (map Fin [1; -1; 1; -1]) = Ok 1%R.
Proof.
  apply (calculateRMS_unit_block [1; -1; 1; -1]).
  - discriminate.
  - repeat constructor; qlra.
  - repeat constructor; (left; reflexivity) || (right; reflexivity).
Defined.

(** ** The resampler *)

Lemma threw_bind {A B} (r : result A) (k : A -> result B) :
  threw r -> threw (bind_result r k).
Proof. intros [e E]. subst r. exists e. reflexivity. Qed.

Lemma valid_rate (r : Q) : 0 < r -> invalid_rate (Fin r) = false.
Proof.
  intros P. simpl. destruct (Qle_bool r 0) eqn:E; [ | reflexivity ].
  apply Qle_bool_iff in E. qlra.
Qed.

Lemma ratio_pos (s t : Q) : 0 < s -> 0 < t -> 0 < s / t.
Proof. intros. apply Qlt_shift_div_l; [ assumption | qlra ]. Qed.

Lemma Qle_bool_false (a b : Q) : b < a -> Qle_bool a b = false.
Proof.
  intros L. destruct (Qle_bool a b) eqn:E; [ | reflexivity ].
  apply Qle_bool_iff in E. qlra.
Qed.

Lemma Qeq_bool_false (a b : Q) : ~ a == b -> Qeq_bool a b = false.
Proof.
  intros N. destruct (Qeq_bool a b) eqn:E; [ | reflexivity ].
  apply Qeq_bool_eq in E. contradiction.
Qed.

(** With two valid, different rates, [downsample] is its length check
    followed by the loop. *)
Lemma downsample_unfold (x : list number) (s t : Q) :
  x <> [] -> 0 < s -> 0 < t -> ~ s == t ->
  downsample x (Fin s) (Fin t) =
  if (downsample_newLength (length x) (s / t) <=? 0)%Z
  then Throw (Error "downsample: Invalid newLength")
  else downsample_loop x (s / t)
         (Z.to_nat (downsample_newLength (length x) (s / t))) 0 0.
Proof.
  intros NE Ps Pt D. unfold downsample.
  destruct x as [| v x]; [ congruence | ]. cbn [length Nat.eqb].
  rewrite (valid_rate s Ps), (valid_rate t Pt). cbn [rate_value].
  rewrite (Qeq_bool_false s t D).
  rewrite (Qle_bool_false (s / t) 0 (ratio_pos s t Ps Pt)). reflexivity.
Qed.

Lemma downsample_loop_length (x : list number) (ratio : Q) :
  forall todo offsetResult offsetSource y,
    downsample_loop x ratio todo offsetResult offsetSource = Ok y ->
    length y = todo.
Proof.
  induction todo as [| todo IH]; intros oR oS y; cbn [downsample_loop].
  - intros E. injection E as <-. reflexivity.
  - destruct (downsample_window x (Z.to_nat oS) _ 0 0) as [[accum count] | e];
      cbn [bind_result]; [ | discriminate ].
    destruct (downsample_loop x ratio todo _ _) as [rest | e] eqn:R;
      cbn [bind_result]; [ | discriminate ].
    intros E. injection E as <-. cbn [length]. f_equal. eapply IH, R.
Qed.

Lemma downsample_loop_finite_output (x : list number) (ratio : Q) :
  forall todo offsetResult offsetSource y,
    downsample_loop x ratio todo offsetResult offsetSource = Ok y ->
    Forall (fun v => isFinite v = true) y.
Proof.
  induction todo as [| todo IH]; intros oR oS y; cbn [downsample_loop].
  - intros E. injection E as <-. constructor.
  - destruct (downsample_window x (Z.to_nat oS) _ 0 0) as [[accum count] | e];
      cbn [bind_result]; [ | discriminate ].
    destruct (downsample_loop x ratio todo _ _) as [rest | e] eqn:R;
      cbn [bind_result]; [ | discriminate ].
    intros E. injection E as <-. constructor; [ reflexivity | eapply IH, R ].
Qed.

Lemma downsample_window_finite (x : list number) :
  Forall (fun v => isFinite v = true) x ->
  forall steps i accum count,
    exists a c, downsample_window x i steps accum count = Ok (a, c).
Proof.
  intros F. induction steps as [| steps IH]; intros i accum count;
    cbn [downsample_window].
  - eauto.
  - destruct (nth_error x i) as [v |] eqn:N; [ | eauto ].
    rewrite Forall_forall in F.
    specialize (F v (nth_error_In _ _ N)).
    destruct v; try discriminate. apply IH.
Qed.

Lemma downsample_loop_finite (x : list number) (ratio : Q) :
  Forall (fun v => isFinite v = true) x ->
  forall todo offsetResult offsetSource,
    exists y, downsample_loop x ratio todo offsetResult offsetSource = Ok y.
Proof.
  intros F. induction todo as [| todo IH]; intros oR oS;
    cbn [downsample_loop].
  - eauto.
  - match goal with
    | |- context [downsample_window x ?i ?n 0 0] =>
        destruct (downsample_window_finite x F n i 0 0%nat) as [a [c E]]
    end.
    rewrite E. cbn [bind_result].
    match goal with
    | |- context [downsample_loop x ratio todo ?a ?b] =>
        destruct (IH a b) as [rest R]
    end.
    rewrite R. cbn [bind_result]. eauto.
Qed.

Lemma downsample_equal_rates (x : list number) (r : Q) :
  x <> [] -> 0 < r -> downsample x (Fin r) (Fin r) = Ok x.
Proof.
  intros NE P. unfold downsample. destruct x; [ congruence | ].
  cbn [length Nat.eqb]. rewrite (valid_rate r P). cbn [rate_value].
  rewrite Qeq_bool_refl. reflexivity.
Qed.

(** The two ways of writing the new length agree in exact arithmetic. *)
Lemma newLength_alt (len : nat) (s t : Q) :
  0 < s -> 0 < t ->
  downsample_newLength len (s / t) = Math_round (of_nat len * t / s).
Proof.
  intros Ps Pt. unfold downsample_newLength. apply Math_round_comp.
  field. split; qlra.
Qed.

Lemma of_nat_mul (a b : nat) : of_nat (a * b) == of_nat a * of_nat b.
Proof.
  unfold of_nat. rewrite Nat2Z.inj_mul, inject_Z_mult. reflexivity.
Qed.




(** C4: with equal finite positive rates the resampler returns its input,
    for every non-empty block: the same contents, and on the heap the very
    location it was given, with nothing allocated. *)
Theorem downsample_same_rate (x : list number) (r : Q) :
  x <> [] -> 0 < r ->
  downsample x (Fin r) (Fin r) = Ok x
  /\ (forall (w : MicWorld) (sourceBuffer : loc),
        float32_at (mem w) sourceBuffer = x ->
        downsample_array sourceBuffer (Fin r) (Fin r) w
        = (Ok sourceBuffer, w, [])).
Proof.
  intros NE P.
  pose proof (downsample_equal_rates x r NE P) as E.
  split; [ exact E | ].
  intros w l V. unfold downsample_array, bind, float32, read, lift.
  rewrite V, E. cbn [rate_value]. rewrite Qeq_bool_refl. reflexivity.
Qed.

Lemma downsample_same_rate_witness :
  downsample [Fin (1 # 2); Fin (-1)] (Fin 16000) (Fin 16000)
  = Ok [Fin (1 # 2); Fin (-1)].
Proof.
  apply (downsample_same_rate [Fin (1 # 2); Fin (-1)] 16000).
  - discriminate.
  - reflexivity.
Defined.

(** ** Invalid input *)

Lemma sum_of_squares_throws (buffer : list number) :
  Exists (fun v => isFinite v = false) buffer ->
  forall sum, threw (sum_of_squares buffer sum).
Proof.
  induction 1 as [v rest N | v rest _ IH]; intros sum.
  - destruct v; try discriminate; eexists; reflexivity.
  - destruct v; cbn [sum_of_squares]; try (eexists; reflexivity). apply IH.
Qed.

Lemma calculateRMS_throws (buffer : list number) :
  buffer = [] \/ Exists (fun v => isFinite v = false) buffer ->
  threw (calculateRMS buffer).
Proof.
  intros [-> | X]; [ eexists; reflexivity | ].
  unfold calculateRMS.
  destruct (length buffer =? 0)%nat; [ eexists; reflexivity | ].
  apply threw_bind, sum_of_squares_throws, X.
Qed.

Lemma floatToInt16_loop_throws (floatBuffer : list number) :
  Exists (fun v => isFinite v = false) floatBuffer ->
  threw (floatToInt16_loop floatBuffer).
Proof.
  induction 1 as [v rest N | v rest _ IH].
  - destruct v; try discriminate; eexists; reflexivity.
  - destruct v; cbn [floatToInt16_loop]; try (eexists; reflexivity).
    rewrite quantize_in_int16. apply threw_bind, IH.
Qed.

Lemma floatToInt16_throws (floatBuffer : list number) :
  floatBuffer = [] \/ Exists (fun v => isFinite v = false) floatBuffer ->
  threw (floatToInt16 floatBuffer).
Proof.
  intros [-> | X]; [ eexists; reflexivity | ].
  unfold floatToInt16.
  destruct (length floatBuffer =? 0)%nat; [ eexists; reflexivity | ].
  apply floatToInt16_loop_throws, X.
Qed.

Lemma downsample_rejects (x : list number) (s t : number) :
  x = [] \/ invalid_rate s = true \/ invalid_rate t = true ->
  threw (downsample x s t).
Proof.
  unfold downsample. intros [-> | [I | I]].
  - eexists; reflexivity.
  - destruct (length x =? 0)%nat; [ eexists; reflexivity | ].
    rewrite I. eexists; reflexivity.
  - destruct (length x =? 0)%nat; [ eexists; reflexivity | ].
    destruct (invalid_rate s); [ eexists; reflexivity | ].
    rewrite I. eexists; reflexivity.
Qed.

(** A non-finite sample among the indices the inner loop visits. *)
Lemma downsample_window_throws (x : list number) (j : nat) (v : number) :
  nth_error x j = Some v -> isFinite v = false ->
  forall steps i accum count,
    (i <= j < i + steps)%nat ->
    threw (downsample_window x i steps accum count).
Proof.
  intros N NF. induction steps as [| steps IH]; intros i accum count R;
    [ lia | ].
  cbn [downsample_window].
  destruct (nth_error x i) as [u |] eqn:U.
  - destruct u; try (eexists; reflexivity).
    destruct (Nat.eq_dec i j) as [-> | NEq].
    + rewrite N in U. injection U as ->. discriminate.
    + apply IH. lia.
  - apply nth_error_None in U.
    assert (j < length x)%nat by (apply nth_error_Some; congruence). lia.
Qed.

(** A non-finite sample below [round((offsetResult + todo) * ratio)] and not
    before [offsetSource] is met by one of the remaining windows. *)
Lemma downsample_loop_throws (x : list number) (ratio : Q) (j : nat)
    (v : number) :
  0 < ratio -> nth_error x j = Some v -> isFinite v = false ->
  forall todo offsetResult offsetSource,
    (0 <= offsetResult)%Z -> (0 <= offsetSource)%Z ->
    offsetSource = Math_round (inject_Z offsetResult * ratio) ->
    (offsetSource <= Z.of_nat j)%Z ->
    (Z.of_nat j
     < Math_round (inject_Z (offsetResult + Z.of_nat todo) * ratio))%Z ->
    threw (downsample_loop x ratio todo offsetResult offsetSource).
Proof.
  intros P N NF.
  assert (j < length x)%nat as J by (apply nth_error_Some; congruence).
  induction todo as [| todo IH]; intros oR oS HoR HoS Inv Lo Up.
  - rewrite Z.add_0_r in Up. lia.
  - cbn [downsample_loop].
    set (next := Math_round (inject_Z (oR + 1) * ratio)).
    assert (oS <= next)%Z as Mono.
    { subst oS. apply Math_round_mono. rewrite inject_Z_plus.
      change (inject_Z 1) with 1.
      assert (0 <= 1 * ratio) by qlra.
      Lqa.nra. }
    destruct (Z_lt_le_dec (Z.of_nat j) next) as [In | Out].
    + apply threw_bind.
      apply (downsample_window_throws x j v N NF). lia.
    + destruct (downsample_window x (Z.to_nat oS) _ 0 0)
        as [[accum count] | e]; cbn [bind_result];
        [ | eexists; reflexivity ].
      apply threw_bind. apply IH; try lia; try reflexivity.
      replace (oR + 1 + Z.of_nat todo)%Z with (oR + Z.of_nat (S todo))%Z
        by lia.
      exact Up.
Qed.



(** ** Running method bodies *)

Lemma after_nil {S A} (x : result A * S * list call) : after [] x = x.
Proof. destruct x as [[r s] t]. reflexivity. Qed.

Lemma after_after {S A} (t1 t2 : list call) (x : result A * S * list call) :
  after t1 (after t2 x) = after (t1 ++ t2) x.
Proof. destruct x as [[r s] t]. cbn. rewrite app_assoc. reflexivity. Qed.

Lemma after_triple {S A} (t1 t2 : list call) (r : result A) (s : S) :
  after t1 (r, s, t2) = (r, s, t1 ++ t2).
Proof. reflexivity. Qed.

Lemma bind_run {S A B} (m : M S A) (k : A -> M S B) (s s1 : S) (a : A)
    (t1 : list call) :
  m s = (Ok a, s1, t1) -> bind m k s = after t1 (k a s1).
Proof. intros E. unfold bind, after. rewrite E. reflexivity. Qed.

Lemma bind_throw {S A B} (m : M S A) (k : A -> M S B) (s s1 : S) (e : error)
    (t1 : list call) :
  m s = (Throw e, s1, t1) -> bind m k s = (Throw e, s1, t1).
Proof. intros E. unfold bind. rewrite E. reflexivity. Qed.

Lemma bind_ret {S A B} (a : A) (k : A -> M S B) (s : S) :
  bind (ret a) k s = k a s.
Proof. rewrite (bind_run _ _ s s a [] eq_refl). apply after_nil. Qed.

Lemma bind_read {S A B} (f : S -> A) (k : A -> M S B) (s : S) :
  bind (read f) k s = k (f s) s.
Proof. rewrite (bind_run _ _ s s (f s) [] eq_refl). apply after_nil. Qed.

Lemma bind_modify {S B} (f : S -> S) (k : unit -> M S B) (s : S) :
  bind (modify f) k s = k tt (f s).
Proof. rewrite (bind_run _ _ s (f s) tt [] eq_refl). apply after_nil. Qed.

Lemma bind_invoke {S B} (c : call) (k : unit -> M S B) (s : S) :
  bind (invoke c) k s = after [c] (k tt s).
Proof. apply (bind_run _ _ s s tt [c] eq_refl). Qed.

Lemma bind_get {A B} (f : MicCapture -> A) (k : A -> M MicWorld B)
    (w : MicWorld) :
  bind (get f) k w = k (f (this w)) w.
Proof. unfold get. apply (bind_read (fun w => f (this w))). Qed.

Lemma bind_update {B} (f : MicCapture -> MicCapture)
    (k : unit -> M MicWorld B) (w : MicWorld) :
  bind (update f) k w = k tt {| this := f (this w); mem := mem w |}.
Proof.
  unfold update.
  apply (bind_modify (fun w => {| this := f (this w); mem := mem w |})).
Qed.

Lemma bind_lift_Ok {S A B} (a : A) (k : A -> M S B) (s : S) :
  bind (lift (Ok a)) k s = k a s.
Proof. apply bind_ret. Qed.

(** ** Teardown of the microphone *)

Lemma forEach_invoke {S A} (f : A -> call) (l : list A) (s : S) :
  forEach (fun a => invoke (f a)) l s = (Ok tt, s, map f l).
Proof.
  revert s. induction l as [| a l IH]; intros s; cbn [forEach map].
  - reflexivity.
  - unfold bind, invoke at 1. rewrite IH. reflexivity.
Qed.

Lemma forEach_calls {S A} (f : A -> call) (l : list A) (s : S) :
  forEach (fun a s' => (Ok tt, s', [f a])) l s = (Ok tt, s, map f l).
Proof. apply forEach_invoke. Qed.

Lemma cleanup_run (throws : call -> bool) (w : MicWorld) :
  cleanup throws w
  = (Ok tt,
     {| this := set_isCapturing (isCapturing (this w)) (stopped (this w));
        mem := mem w |},
     release_calls (this w)).
Proof.
  destruct w as [[ac ms sn an sg ic si ol op tr sb spf sr] h].
  unfold cleanup, release_calls, disconnect_node.
  unfold bind, get, read, update, modify, ret, try_catch, perform, invoke.
  destruct si, sg, an, sn, ms as [[tracks] |], ac; cbn -[forEach];
    repeat match goal with
           | |- context [throws ?c] => destruct (throws c); cbn -[forEach]
           end;
    try rewrite (forEach_calls track_stop);
    cbn; rewrite ?app_nil_r; reflexivity.
Qed.

Lemma stop_run (throws : call -> bool) (w : MicWorld) :
  stop throws w
  = (Ok tt, {| this := stopped (this w); mem := mem w |},
     release_calls (this w)).
Proof.
  unfold stop. rewrite bind_update, cleanup_run.
  destruct w as [[ac ms sn an sg ic si ol op tr sb spf sr] h]. reflexivity.
Qed.

(** ** Teardown of the loopback capture *)

Ltac loopback_cases throws :=
  unfold Loopback.stopLoopback, Loopback.stopRMSMonitoring,
    Loopback.pcmHandler_call, Loopback.rmsHandler;
  unfold bind, read, modify, ret, try_catch, perform, invoke;
  cbn;
  repeat match goal with
         | |- context [throws ?c] => destruct (throws c) eqn:?; cbn
         end.

Lemma stopLoopback_returns (throws : call -> bool)
    (s : Loopback.LoopbackCapture) :
  exists s' calls,
    Loopback.stopLoopback throws s = (Ok tt, s', calls)
    /\ Loopback.isCapturing s' = false.
Proof.
  destruct s as [[] [[id []] |] [h |] cb init [timer |] last];
    loopback_cases throws; eauto.
Qed.

Lemma stopLoopback_guard (throws : call -> bool)
    (s : Loopback.LoopbackCapture) :
  Loopback.isCapturing s = false ->
  Loopback.stopLoopback throws s = (Ok tt, s, []).
Proof.
  intros E. unfold Loopback.stopLoopback. rewrite bind_read, E. reflexivity.
Qed.

Lemma stopLoopback_run (throws : call -> bool)
    (s : Loopback.LoopbackCapture) :
  Loopback.isCapturing s = true ->
  (forall c, throws c = false) ->
  Loopback.stopLoopback throws s
  = (Ok tt, Loopback.torn_down s, Loopback.teardown_calls s).
Proof.
  intros E Q.
  destruct s as [ic [[id []] |] [h |] cb init [timer |] last];
    cbn in E; subst ic;
    unfold Loopback.stopLoopback, Loopback.stopRMSMonitoring;
    unfold bind, read, modify, ret, try_catch, perform, invoke;
    cbn; repeat (rewrite Q; cbn); reflexivity.
Qed.

(** C8, as the code has it.  [MicCapture.stop] returns without throwing from
    every state of the object, whatever [disconnect] does: it cancels the
    poll timer, disconnects the three nodes, stops every track of the stream
    and closes the context that the object holds, and leaves the object
    empty; a second [stop], and [stop] on a fresh object, change nothing and
    call nothing.  [stopLoopback] never throws either and is idempotent, but
    it is gated on [isCapturing]: when that flag is off (idle, after a stop,
    or while [startLoopback] is still waiting for its window) it returns at
    once and releases nothing; when the flag is on and no platform call
    throws, it halts and destroys the window, removes the listener and
    cancels the level timer. *)
Theorem stop_never_throws (throws : call -> bool) :
  (forall w,
      stop throws w
      = (Ok tt, {| this := stopped (this w); mem := mem w |},
         release_calls (this w)))
  /\ (forall w,
      stop throws {| this := stopped (this w); mem := mem w |}
      = (Ok tt, {| this := stopped (this w); mem := mem w |}, []))
  /\ (forall h,
      stop throws {| this := new_MicCapture; mem := h |}
      = (Ok tt, {| this := new_MicCapture; mem := h |}, []))
  /\ (forall s, exists s' calls,
      Loopback.stopLoopback throws s = (Ok tt, s', calls)
      /\ Loopback.isCapturing s' = false
      /\ Loopback.stopLoopback throws s' = (Ok tt, s', []))
  /\ (forall s,
      Loopback.isCapturing s = false ->
      Loopback.stopLoopback throws s = (Ok tt, s, []))
  /\ (forall s,
      Loopback.isCapturing s = true ->
      (forall c, throws c = false) ->
      Loopback.stopLoopback throws s
      = (Ok tt, Loopback.torn_down s, Loopback.teardown_calls s)).
Proof.
  split; [ apply stop_run | ].
  split; [ intros w; rewrite stop_run; reflexivity | ].
  split; [ intros h; rewrite stop_run; reflexivity | ].
  split; [ | split; [ apply stopLoopback_guard | apply stopLoopback_run ] ].
  intros s. destruct (stopLoopback_returns throws s) as [s' [calls [E F]]].
  exists s', calls. auto using stopLoopback_guard.
Qed.

(** C8 as stated fails for the loopback capture in mid-start: after the first
    half of [startLoopback] has created window 7, [stopLoopback] returns
    without a single call and the window is never destroyed; the pending
    [startLoopback] then completes and the capture is running. *)
Lemma stopLoopback_mid_start_releases_nothing :
  let quiet := fun _ : call => false in
  exists s1 s2 calls,
    Loopback.startLoopback_begin quiet 7 Loopback.loopbackCapture
    = (Ok tt, s1, [initMain; new_BrowserWindow 7; loadURL 7])
    /\ Loopback.stopLoopback quiet s1 = (Ok tt, s1, [])
    /\ Loopback.startLoopback_resume quiet 7 1 2 (Some 3%nat) s1
       = (Ok tt, s2, calls)
    /\ Loopback.isCapturing s2 = true
    /\ Loopback.hiddenWindow s2
       = Some {| Loopback.window_id := 7; Loopback.isDestroyed := false |}
    /\ Loopback.rmsInterval s2 = Some 2%nat.
Proof.
  cbv zeta. eexists. eexists. eexists.
  split; [ reflexivity | ].
  split; [ reflexivity | ].
  split; [ reflexivity | ].
  repeat split.
Qed.

(** ** After stop *)

Lemma samplingHandler_idle (throws : call -> bool) (w : MicWorld)
    (data : list number) :
  isCapturing (this w) = false ->
  samplingHandler throws data w = (Ok tt, w, []).
Proof.
  intros E. unfold samplingHandler.
  rewrite !bind_get, E. reflexivity.
Qed.

Lemma processAudioFrame_not_ready (throws : call -> bool) (w : MicWorld)
    (data : list number) :
  analyserNode (this w) = None \/ audioContext (this w) = None ->
  processAudioFrame throws data w = (Ok tt, w, []).
Proof.
  intros E. unfold processAudioFrame. rewrite !bind_get.
  destruct E as [E | E]; rewrite E;
    [ | destruct (analyserNode (this w)) ]; reflexivity.
Qed.

Lemma forEach_idle {S A} (f : A -> M S unit) (s : S) :
  (forall a, f a s = (Ok tt, s, [])) ->
  forall l, forEach f l s = (Ok tt, s, []).
Proof.
  intros F. induction l as [| a l IH]; cbn [forEach]; [ reflexivity | ].
  rewrite (bind_run _ _ _ _ _ _ (F a)), IH. reflexivity.
Qed.


(** ** The Frame Assembler *)

Lemma totalSamples_from (sampleBuffer : list (list number)) : forall n,
  fold_left (fun sum buf => (sum + length buf)%nat) sampleBuffer n
  = (n + length (concat sampleBuffer))%nat.
Proof.
  induction sampleBuffer as [| b bs IH]; intros n; cbn [fold_left concat].
  - cbn. lia.
  - rewrite IH, length_app. lia.
Qed.

Lemma totalSamples_concat (sampleBuffer : list (list number)) :
  totalSamples sampleBuffer = length (concat sampleBuffer).
Proof. unfold totalSamples. apply totalSamples_from. Qed.

(** One step: nothing is lost or reordered, a frame is a full frame, and
    without a frame the buffer is short of one. *)
Lemma push_spec (spf : nat) (sampleBuffer : list (list number))
    (block : list number) :
  let (kept, frame) := push spf sampleBuffer block in
  concat (frames_of frame) ++ concat kept = concat sampleBuffer ++ block
  /\ Forall (fun f => length f = spf) (frames_of frame)
  /\ (frame = None -> (length (concat kept) < spf)%nat).
Proof.
  unfold push. rewrite totalSamples_concat.
  destruct (spf <=? length (concat (sampleBuffer ++ [block])))%nat eqn:E.
  - apply Nat.leb_le in E.
    assert (concat (sampleBuffer ++ [block]) = concat sampleBuffer ++ block)
      as C by (rewrite concat_app; cbn; rewrite app_nil_r; reflexivity).
    rewrite C in *. cbn [frames_of concat]. rewrite app_nil_r.
    split; [ | split; [ | discriminate ] ].
    + destruct (0 <? _)%nat eqn:Z; cbn [concat].
      * rewrite app_nil_r. apply firstn_skipn.
      * apply Nat.ltb_ge in Z.
        rewrite <- (firstn_skipn spf (concat sampleBuffer ++ block)) at 2.
        assert (skipn spf (concat sampleBuffer ++ block) = []) as ->
          by (apply length_zero_iff_nil; lia).
        reflexivity.
    + constructor; [ | constructor ]. rewrite length_firstn. lia.
  - apply Nat.leb_gt in E. cbn [frames_of concat app].
    rewrite concat_app. cbn [concat]. rewrite app_nil_r.
    split; [ reflexivity | split; [ constructor | ] ].
    intros _. rewrite concat_app in E. cbn in E. rewrite app_nil_r in E.
    exact E.
Qed.

(** With a block no longer than a frame, the buffer stays short of a frame. *)
Lemma push_short (spf : nat) (sampleBuffer : list (list number))
    (block : list number) :
  (length (concat sampleBuffer) < spf)%nat ->
  (length block <= spf)%nat ->
  (length (concat (fst (push spf sampleBuffer block))) < spf)%nat.
Proof.
  intros B L. pose proof (push_spec spf sampleBuffer block) as P.
  destruct (push spf sampleBuffer block) as [kept [f |]]; cbn [fst].
  - destruct P as [C [F _]]. inversion F as [| ? ? Lf _]; subst.
    apply (f_equal (@length number)) in C.
    cbn [frames_of concat] in C. rewrite !length_app in C. cbn in C. lia.
  - destruct P as [_ [_ S]]. auto.
Qed.

Lemma pushes_spec (spf : nat) : forall blocks sampleBuffer,
  (length (concat sampleBuffer) < spf)%nat ->
  Forall (fun b => (length b <= spf)%nat) blocks ->
  let (kept, frames) := pushes spf sampleBuffer blocks in
  concat frames ++ concat kept = concat sampleBuffer ++ concat blocks
  /\ Forall (fun f => length f = spf) frames
  /\ (length (concat kept) < spf)%nat.
Proof.
  induction blocks as [| b blocks IH]; intros buf B F; cbn [pushes].
  - cbn [concat]. rewrite app_nil_r. auto.
  - inversion F as [| ? ? Lb Fb]; subst.
    pose proof (push_spec spf buf b) as P.
    pose proof (push_short spf buf b B Lb) as S.
    destruct (push spf buf b) as [kept frame]. cbn [fst] in S.
    specialize (IH kept S Fb).
    destruct (pushes spf kept blocks) as [final frames].
    destruct P as [C [Ff _]]. destruct IH as [C' [Ff' S']].
    split; [ | split; [ apply Forall_app; auto | exact S' ] ].
    rewrite concat_app, <- app_assoc, C'. cbn [concat].
    rewrite !app_assoc. f_equal. exact C.
Qed.

Lemma length_concat_frames (spf : nat) (frames : list (list number)) :
  Forall (fun f => length f = spf) frames ->
  length (concat frames) = (length frames * spf)%nat.
Proof.
  induction 1 as [| f frames E _ IH]; cbn [concat length].
  - reflexivity.
  - rewrite length_app, IH, E. lia.
Qed.

Lemma processFrame_run (data : list number) (buf : list (list number)) :
  Loopback.processFrame data
    {| Loopback.window_isCapturing := true; Loopback.sampleBuffer := buf |}
  = (Ok tt,
     {| Loopback.window_isCapturing := true;
        Loopback.sampleBuffer := fst (push Loopback.samplesPerFrame buf data) |},
     map (fun f => sendPcmData (map Loopback.encode_sample f))
       (frames_of (snd (push Loopback.samplesPerFrame buf data)))).
Proof.
  unfold Loopback.processFrame. rewrite bind_read.
  cbn [Loopback.window_isCapturing negb]. rewrite bind_read.
  cbn [Loopback.sampleBuffer].
  destruct (push Loopback.samplesPerFrame buf data) as [kept [f |]];
    rewrite bind_modify; reflexivity.
Qed.

Lemma renderer_run : forall blocks buf,
  forEach Loopback.processFrame blocks
    {| Loopback.window_isCapturing := true; Loopback.sampleBuffer := buf |}
  = (Ok tt,
     {| Loopback.window_isCapturing := true;
        Loopback.sampleBuffer :=
          fst (pushes Loopback.samplesPerFrame buf blocks) |},
     map (fun f => sendPcmData (map Loopback.encode_sample f))
       (snd (pushes Loopback.samplesPerFrame buf blocks))).
Proof.
  induction blocks as [| b blocks IH]; intros buf; cbn [forEach pushes].
  - reflexivity.
  - rewrite (bind_run _ _ _ _ _ _ (processFrame_run b buf)).
    destruct (push Loopback.samplesPerFrame buf b) as [kept frame].
    cbn [fst snd]. rewrite IH.
    destruct (pushes Loopback.samplesPerFrame kept blocks) as [final frames].
    cbn [fst snd after]. rewrite map_app. reflexivity.
Qed.

(** ** The heap *)

Lemma float32_at_old (h ext : heap) (l : loc) :
  (l < length h)%nat -> float32_at (h ++ ext) l = float32_at h l.
Proof. intros L. unfold float32_at. rewrite nth_error_app1 by exact L. reflexivity. Qed.

Lemma int16_at_old (h ext : heap) (l : loc) :
  (l < length h)%nat -> int16_at (h ++ ext) l = int16_at h l.
Proof. intros L. unfold int16_at. rewrite nth_error_app1 by exact L. reflexivity. Qed.

Lemma nth_error_new (h ext : heap) (a : typedArray) :
  nth_error (h ++ a :: ext) (length h) = Some a.
Proof. rewrite nth_error_app2, Nat.sub_diag by lia. reflexivity. Qed.

Lemma float32_at_new (h ext : heap) (data : list number) :
  float32_at (h ++ Float32Array data :: ext) (length h) = data.
Proof. unfold float32_at. rewrite nth_error_new. reflexivity. Qed.

Lemma int16_at_new (h ext : heap) (data : list Z) :
  int16_at (h ++ Int16Array data :: ext) (length h) = data.
Proof. unfold int16_at. rewrite nth_error_new. reflexivity. Qed.

Lemma map_float32_at_old (h ext : heap) (locs : list loc) :
  Forall (fun l => (l < length h)%nat) locs ->
  map (float32_at (h ++ ext)) locs = map (float32_at h) locs.
Proof.
  induction 1 as [| l locs L _ IH]; cbn [map]; [ reflexivity | ].
  rewrite IH, float32_at_old by exact L. reflexivity.
Qed.

(** ** Running the microphone *)

Lemma bind_new_array {B} (a : typedArray) (k : loc -> M MicWorld B)
    (w : MicWorld) :
  bind (new_array a) k w
  = k (length (mem w)) {| this := this w; mem := mem w ++ [a] |}.
Proof.
  rewrite (bind_run _ _ w {| this := this w; mem := mem w ++ [a] |}
             (length (mem w)) [] eq_refl).
  apply after_nil.
Qed.

Lemma bind_float32 {B} (l : loc) (k : list number -> M MicWorld B)
    (w : MicWorld) :
  bind (float32 l) k w = k (float32_at (mem w) l) w.
Proof. unfold float32. apply (bind_read (fun w => float32_at (mem w) l)). Qed.

Lemma bind_int16 {B} (l : loc) (k : list Z -> M MicWorld B) (w : MicWorld) :
  bind (int16 l) k w = k (int16_at (mem w) l) w.
Proof. unfold int16. apply (bind_read (fun w => int16_at (mem w) l)). Qed.

Lemma bind_attempt {S A B} (m : M S A) (k : result A -> M S B) (s : S) :
  bind (attempt m) k s = let '(r, s1, t1) := m s in after t1 (k r s1).
Proof.
  unfold bind, attempt, after. destruct (m s) as [[r s1] t1]. reflexivity.
Qed.

Ltac run :=
  repeat first
    [ rewrite bind_get | rewrite bind_update | rewrite bind_new_array
    | rewrite bind_float32 | rewrite bind_int16 | rewrite bind_invoke
    | rewrite bind_ret | rewrite bind_lift_Ok | rewrite bind_attempt
    | rewrite bind_read | rewrite bind_modify
    | rewrite after_nil | rewrite after_triple | rewrite after_after ];
  cbn [this mem].

Lemma downsample_same_rate_result (x y : list number) (s t : number) :
  downsample x s t = Ok y ->
  Qeq_bool (rate_value s) (rate_value t) = true -> y = x.
Proof.
  unfold downsample. intros E Q. rewrite Q in E.
  destruct (length x =? 0)%nat; [ discriminate | ].
  destruct (invalid_rate s); [ discriminate | ].
  destruct (invalid_rate t); [ discriminate | ].
  congruence.
Qed.

Lemma encode_and_call_run (throws : call -> bool) (downsampled : loc)
    (w : MicWorld) :
  exists ext calls,
    encode_and_call throws downsampled w
    = (Ok tt, {| this := this w; mem := mem w ++ ext |}, calls)
    /\ match onPcmFrameCallback (this w),
             floatToInt16 (float32_at (mem w) downsampled) with
       | Some _, Ok (v :: encoded) =>
           exists pre,
             mem w ++ ext
             = pre ++ [Int16Array (v :: encoded); Int16Array (v :: encoded)]
             /\ (length (mem w) <= length pre)%nat
             /\ pcm_calls calls = [S (length pre)]
       | _, _ => pcm_calls calls = []
       end.
Proof.
  destruct w as [o h]. unfold encode_and_call. run.
  unfold floatToInt16_array. run. unfold lift at 1. unfold bind at 1.
  destruct (floatToInt16 (float32_at h downsampled)) as [p | e].
  2:{ exists [], [console_error "[MicCapture] Error converting to PCM16:"].
      rewrite app_nil_r. unfold invoke. cbn.
      split; [ reflexivity | destruct (onPcmFrameCallback o); reflexivity ]. }
  unfold new_array at 1. cbn [alloc mem this after app]. run.
  rewrite int16_at_new.
  destruct p as [| v p]; cbn [length Nat.eqb].
  { exists [Int16Array []], []. split; [ reflexivity | ].
    destruct (onPcmFrameCallback o); reflexivity. }
  run. destruct (onPcmFrameCallback o) as [cb |].
  2:{ exists [Int16Array (v :: p)], []. split; reflexivity. }
  unfold try_catch. run. unfold perform, invoke.
  exists [Int16Array (v :: p); Int16Array (v :: p)].
  rewrite length_app. cbn [length].
  destruct (throws _); eexists; (split; [ rewrite <- app_assoc; reflexivity | ]);
    exists h; rewrite Nat.add_1_r; auto.
Qed.

Lemma deliver_run (throws : call -> bool) (frameSamples : loc) (w : MicWorld) :
  exists ext calls,
    deliver throws frameSamples w
    = (Ok tt, {| this := this w; mem := mem w ++ ext |}, calls)
    /\ match onPcmFrameCallback (this w),
             mic_frame (sourceSampleRate (this w)) (targetSampleRate (this w))
               (float32_at (mem w) frameSamples) with
       | Some _, Some encoded =>
           exists pre,
             mem w ++ ext = pre ++ [Int16Array encoded; Int16Array encoded]
             /\ (length (mem w) <= length pre)%nat
             /\ pcm_calls calls = [S (length pre)]
       | _, _ => pcm_calls calls = []
       end.
Proof.
  destruct w as [o h]. unfold deliver, mic_frame. run.
  unfold downsample_array. run.
  set (data := float32_at h frameSamples).
  set (source := sourceSampleRate o). set (target := targetSampleRate o).
  unfold lift at 1. unfold bind at 1.
  destruct (downsample data source target) as [d | e] eqn:D.
  2:{ exists [], [console_error "[MicCapture] Error downsampling:"].
      rewrite app_nil_r. unfold invoke. cbn.
      split; [ reflexivity | destruct (onPcmFrameCallback o); reflexivity ]. }
  assert (exists pad downsampled,
             (if Qeq_bool (rate_value source) (rate_value target)
              then ret frameSamples
              else new_array (Float32Array d)) {| this := o; mem := h |}
             = (Ok downsampled, {| this := o; mem := h ++ pad |}, [])
             /\ float32_at (h ++ pad) downsampled = d) as [pad [l [E V]]].
  { destruct (Qeq_bool _ _) eqn:Q.
    - exists [], frameSamples. rewrite app_nil_r. split; [ reflexivity | ].
      symmetry. apply (downsample_same_rate_result data d source target D Q).
    - exists [Float32Array d], (length h). split; [ reflexivity | ].
      apply float32_at_new. }
  rewrite E. cbn [app after]. run. rewrite V.
  destruct (length d =? 0)%nat.
  { exists pad, []. split; [ reflexivity | ].
    destruct (onPcmFrameCallback o); reflexivity. }
  destruct (encode_and_call_run throws l {| this := o; mem := h ++ pad |})
    as [ext [calls [R P]]].
  cbn [this mem] in R, P. rewrite V in P.
  exists (pad ++ ext), calls. rewrite R, app_assoc.
  split; [ reflexivity | ].
  destruct (onPcmFrameCallback o); [ | exact P ].
  destruct (floatToInt16 d) as [[| v p] | e]; try exact P.
  cbn [length Nat.eqb]. destruct P as [pre [A [B C]]].
  exists pre. rewrite length_app in B. repeat split; auto; lia.
Qed.

Lemma try_perform_log {S} (throws : call -> bool) (c logged : call) (s : S) :
  try_catch (perform throws c) (fun _ => invoke logged) s
  = (Ok tt, s, c :: (if throws c then [logged] else [])).
Proof.
  unfold try_catch, perform, invoke. destruct (throws c); reflexivity.
Qed.

Lemma pcm_calls_app (a b : list call) :
  pcm_calls (a ++ b) = pcm_calls a ++ pcm_calls b.
Proof. unfold pcm_calls. apply flat_map_app. Qed.

Lemma set_sampleBuffer_same (o : MicCapture) :
  set_sampleBuffer (sampleBuffer o) o = o.
Proof. destruct o. reflexivity. Qed.

(** One run of [processAudioFrame] on a capture that has its analyser and
    context: the buffer contents make one Frame Assembler step, and the only
    array handed to the client is a fresh copy of the encoded frame. *)
Lemma processAudioFrame_run (throws : call -> bool) (data : list number)
    (w : MicWorld) :
  well_formed w ->
  analyserNode (this w) <> None -> audioContext (this w) <> None ->
  exists ext calls locs,
    processAudioFrame throws data w
    = (Ok tt,
       {| this := set_sampleBuffer locs (this w); mem := mem w ++ ext |},
       calls)
    /\ Forall (fun l => (l < length (mem w ++ ext))%nat) locs
    /\ match calculateRMS data with
       | Throw _ => locs = sampleBuffer (this w) /\ pcm_calls calls = []
       | Ok _ =>
           map (float32_at (mem w ++ ext)) locs
           = fst (push (samplesPerFrame (this w)) (buffered w) data)
           /\ match onPcmFrameCallback (this w),
                    snd (push (samplesPerFrame (this w)) (buffered w) data)
              with
              | Some _, Some frame =>
                  match mic_frame (sourceSampleRate (this w))
                          (targetSampleRate (this w)) frame with
                  | Some encoded =>
                      exists pre,
                        mem w ++ ext
                        = pre ++ [Int16Array encoded; Int16Array encoded]
                        /\ (length (mem w) <= length pre)%nat
                        /\ pcm_calls calls = [S (length pre)]
                        /\ Forall (fun l => (l <= length pre)%nat) locs
                  | None => pcm_calls calls = []
                  end
              | _, _ => pcm_calls calls = []
              end
       end.
Proof.
  destruct w as [o h]. unfold well_formed, buffered. cbn [this mem].
  intros WF An Ac. unfold processAudioFrame. run.
  destruct (analyserNode o) as [an |]; [ | congruence ].
  destruct (audioContext o) as [ac |]; [ | congruence ].
  cbn [is_null orb]. run. rewrite float32_at_new.
  destruct (calculateRMS data) as [rms | e].
  2:{ exists [Float32Array data], [console_error "[MicCapture] Error calculating RMS:"],
        (sampleBuffer o).
      rewrite set_sampleBuffer_same. split; [ reflexivity | ].
      split; [ | split; reflexivity ].
      eapply Forall_impl; [ | exact WF ]. intros l L.
      rewrite length_app. cbn in *. lia. }
  run.
  (* the level callback *)
  assert (exists levelCalls,
             match onLevelCallback o with
             | Some cb =>
                 try_catch (perform throws (onLevel cb rms))
                   (fun _ =>
                      invoke (console_error
                        "[MicCapture] Error in onLevel callback:"))
             | None => ret tt
             end {| this := o; mem := h ++ [Float32Array data] |}
             = (Ok tt, {| this := o; mem := h ++ [Float32Array data] |},
                levelCalls)
             /\ pcm_calls levelCalls = []) as [levelCalls [LE LP]].
  { destruct (onLevelCallback o) as [cb |].
    - eexists. rewrite try_perform_log. split; [ reflexivity | ].
      destruct (throws _); reflexivity.
    - exists []. split; reflexivity. }
  rewrite (bind_run _ _ _ _ _ _ LE). run.
  cbn [sampleBuffer samplesPerFrame set_sampleBuffer].
  set (h2 := (h ++ [Float32Array data]) ++ [Float32Array data]).
  set (copy := length (h ++ [Float32Array data])).
  assert (map (float32_at h2) (sampleBuffer o ++ [copy])
          = map (float32_at h) (sampleBuffer o) ++ [data]) as Contents.
  { rewrite map_app. cbn [map]. f_equal.
    - unfold h2. rewrite <- app_assoc. apply map_float32_at_old, WF.
    - unfold h2, copy. rewrite float32_at_new. reflexivity. }
  rewrite Contents.
  set (contents := map (float32_at h) (sampleBuffer o) ++ [data]).
  unfold push. fold contents.
  assert (length h2 = S (S (length h))) as Lh2
    by (unfold h2; rewrite !length_app; cbn; lia).
  destruct (samplesPerFrame o <=? totalSamples contents)%nat.
  - (* a frame is sliced off *)
    run. rewrite float32_at_new. run. rewrite !float32_at_new.
    cbn [fst snd]. run.
    set (frame := firstn (samplesPerFrame o) (concat contents)).
    set (rest := skipn (samplesPerFrame o) (concat contents)).
    set (h5 := ((h2 ++ [Float32Array (concat contents)])
                  ++ [Float32Array frame]) ++ [Float32Array rest]).
    set (remaining := length ((h2 ++ [Float32Array (concat contents)])
                                ++ [Float32Array frame])).
    set (locs := if (0 <? length rest)%nat then [remaining] else []).
    assert (length h5 = S remaining) as Lh5
      by (unfold h5, remaining; rewrite !length_app; cbn; lia).
    assert (remaining = S (S (S (S (length h))))) as Lrem
      by (unfold remaining; rewrite !length_app, Lh2; cbn; lia).
    assert (float32_at h5 (length (h2 ++ [Float32Array (concat contents)]))
            = frame) as Vf.
    { unfold h5. rewrite <- app_assoc. apply float32_at_new. }
    destruct (deliver_run throws
                (length (h2 ++ [Float32Array (concat contents)]))
                {| this := set_sampleBuffer locs
                             (set_sampleBuffer (sampleBuffer o ++ [copy]) o);
                   mem := h5 |})
      as [ext [calls [R P]]].
    cbn [this mem] in R, P. rewrite Vf in P.
    assert (exists pad, h5 = h ++ pad /\ length pad = 5%nat) as [pad [Hp Lp]].
    { eexists. split.
      - unfold h5, h2. rewrite <- !app_assoc. reflexivity.
      - reflexivity. }
    exists (pad ++ ext), (levelCalls ++ calls), locs.
    rewrite R. rewrite app_assoc, <- Hp.
    split; [ reflexivity | ].
    assert (Forall (fun l => (l < length h5)%nat) locs) as WF5.
    { unfold locs. destruct (0 <? length rest)%nat; repeat constructor. lia. }
    split.
    { eapply Forall_impl; [ | exact WF5 ]. intros l L.
      rewrite length_app. cbn beta in *. lia. }
    split.
    { rewrite (map_float32_at_old h5 ext locs WF5).
      unfold locs. destruct (0 <? length rest)%nat; cbn [map];
        [ | reflexivity ].
      f_equal. unfold h5, remaining. apply float32_at_new. }
    rewrite pcm_calls_app, LP. cbn [app].
    change (onPcmFrameCallback
              (set_sampleBuffer locs
                 (set_sampleBuffer (sampleBuffer o ++ [copy]) o)))
      with (onPcmFrameCallback o) in P.
    change (sourceSampleRate
              (set_sampleBuffer locs
                 (set_sampleBuffer (sampleBuffer o ++ [copy]) o)))
      with (sourceSampleRate o) in P.
    change (targetSampleRate
              (set_sampleBuffer locs
                 (set_sampleBuffer (sampleBuffer o ++ [copy]) o)))
      with (targetSampleRate o) in P.
    destruct (onPcmFrameCallback o); [ | exact P ].
    destruct (mic_frame _ _ frame) as [encoded |]; [ | exact P ].
    destruct P as [pre [A [B C]]]. exists pre.
    split; [ exact A | ]. split; [ rewrite Hp, length_app in B; lia | ].
    split; [ exact C | ].
    eapply Forall_impl; [ | exact WF5 ]. intros l L. cbn beta in L. lia.
  - (* the block is only buffered *)
    cbn [fst snd].
    exists [Float32Array data; Float32Array data], levelCalls,
      (sampleBuffer o ++ [copy]).
    unfold ret. cbn [after]. rewrite app_nil_r.
    replace (h ++ [Float32Array data; Float32Array data]) with h2
      by (unfold h2; rewrite <- app_assoc; reflexivity).
    split; [ reflexivity | ].
    split.
    { apply Forall_app. split.
      - eapply Forall_impl; [ | exact WF ]. intros l L. cbn beta in *. lia.
      - repeat constructor. unfold copy. rewrite Lh2, length_app. cbn. lia. }
    split; [ exact Contents | ].
    destruct (onPcmFrameCallback o); exact LP.
Qed.

(** ** Locality: old [Int16Array]s have no influence *)

Lemma same_floats_app (h1 h2 ext : heap) :
  same_floats h1 h2 -> same_floats (h1 ++ ext) (h2 ++ ext).
Proof.
  intros [L F]. split; [ rewrite !length_app; lia | ].
  intros l. destruct (Nat.lt_ge_cases l (length h1)) as [Lt | Ge].
  - rewrite !float32_at_old by lia. apply F.
  - unfold float32_at. rewrite !nth_error_app2 by lia. rewrite L. reflexivity.
Qed.

Lemma overwrite_length (l : loc) (data : list Z) (h : heap) :
  length (overwrite l data h) = length h.
Proof.
  revert l. induction h as [| a h IH]; intros l; [ reflexivity | ].
  destruct l as [| l]; cbn [overwrite].
  - destruct a; reflexivity.
  - destruct a; cbn [length]; rewrite IH; reflexivity.
Qed.

Lemma overwrite_float32 (l : loc) (data : list Z) (h : heap) (l' : loc) :
  float32_at (overwrite l data h) l' = float32_at h l'.
Proof.
  revert l l'. induction h as [| a h IH]; intros l l'; [ reflexivity | ].
  destruct l as [| l]; cbn [overwrite].
  - destruct a; [ reflexivity | ]. destruct l'; reflexivity.
  - assert (forall b, float32_at (b :: overwrite l data h) l'
                      = float32_at (b :: h) l') as E.
    { intros b. destruct l' as [| l']; [ reflexivity | ].
      unfold float32_at in *. cbn [nth_error]. apply IH. }
    destruct a; apply E.
Qed.

Lemma overwrite_same_floats (l : loc) (data : list Z) (h : heap) :
  same_floats h (overwrite l data h).
Proof.
  split; [ symmetry; apply overwrite_length | ].
  intros l'. symmetry. apply overwrite_float32.
Qed.

Lemma local_ret {A} (a : A) : local (ret a).
Proof.
  intros o h1 h2 _. exists (Ok a), o, [], []. rewrite !app_nil_r.
  split; reflexivity.
Qed.

Lemma local_bind {A B} (m : M MicWorld A) (k : A -> M MicWorld B) :
  local m -> (forall a, local (k a)) -> local (bind m k).
Proof.
  intros Lm Lk o h1 h2 S.
  destruct (Lm o h1 h2 S) as [r [o1 [ext1 [t1 [E1 E2]]]]].
  destruct r as [a | e].
  - destruct (Lk a o1 (h1 ++ ext1) (h2 ++ ext1) (same_floats_app _ _ _ S))
      as [r [o2 [ext2 [t2 [F1 F2]]]]].
    exists r, o2, (ext1 ++ ext2), (t1 ++ t2).
    rewrite (bind_run _ _ _ _ _ _ E1), (bind_run _ _ _ _ _ _ E2), F1, F2.
    rewrite !app_assoc. split; reflexivity.
  - exists (Throw e), o1, ext1, t1.
    rewrite (bind_throw _ _ _ _ _ _ E1), (bind_throw _ _ _ _ _ _ E2).
    split; reflexivity.
Qed.

Lemma local_get {A} (f : MicCapture -> A) : local (get f).
Proof.
  intros o h1 h2 _. exists (Ok (f o)), o, [], []. rewrite !app_nil_r.
  split; reflexivity.
Qed.

Lemma local_update (f : MicCapture -> MicCapture) : local (update f).
Proof.
  intros o h1 h2 _. exists (Ok tt), (f o), [], []. rewrite !app_nil_r.
  split; reflexivity.
Qed.

Lemma local_new_array (a : typedArray) : local (new_array a).
Proof.
  intros o h1 h2 [L _]. exists (Ok (length h1)), o, [a], [].
  unfold new_array, alloc. cbn [mem this]. rewrite L. split; reflexivity.
Qed.

Lemma local_float32 (l : loc) : local (float32 l).
Proof.
  intros o h1 h2 [_ F]. exists (Ok (float32_at h1 l)), o, [], [].
  rewrite !app_nil_r. unfold float32, read. cbn [mem]. rewrite F.
  split; reflexivity.
Qed.

Lemma local_contents (locs : list loc) :
  local (read (fun w => map (float32_at (mem w)) locs)).
Proof.
  intros o h1 h2 [_ F]. exists (Ok (map (float32_at h1) locs)), o, [], [].
  rewrite !app_nil_r. unfold read. cbn [mem].
  rewrite (map_ext _ _ F). split; reflexivity.
Qed.

Lemma local_lift {A} (r : result A) : local (lift r).
Proof.
  intros o h1 h2 _. exists r, o, [], []. rewrite !app_nil_r.
  split; reflexivity.
Qed.

Lemma local_invoke (c : call) : local (invoke c).
Proof.
  intros o h1 h2 _. exists (Ok tt), o, [], [c]. rewrite !app_nil_r.
  split; reflexivity.
Qed.

Lemma local_perform (throws : call -> bool) (c : call) :
  local (perform throws c).
Proof.
  intros o h1 h2 _. unfold perform.
  destruct (throws c); eexists; exists o, [], [c]; rewrite !app_nil_r;
    split; reflexivity.
Qed.

Lemma local_try_catch {A} (m : M MicWorld A) (handler : error -> M MicWorld A) :
  local m -> (forall e, local (handler e)) -> local (try_catch m handler).
Proof.
  intros Lm Lh o h1 h2 S.
  destruct (Lm o h1 h2 S) as [r [o1 [ext1 [t1 [E1 E2]]]]].
  unfold try_catch. rewrite E1, E2. destruct r as [a | e].
  - exists (Ok a), o1, ext1, t1. split; reflexivity.
  - destruct (Lh e o1 (h1 ++ ext1) (h2 ++ ext1) (same_floats_app _ _ _ S))
      as [r [o2 [ext2 [t2 [F1 F2]]]]].
    rewrite F1, F2. exists r, o2, (ext1 ++ ext2), (t1 ++ t2).
    rewrite !app_assoc. split; reflexivity.
Qed.

Lemma local_attempt {A} (m : M MicWorld A) : local m -> local (attempt m).
Proof.
  intros Lm o h1 h2 S.
  destruct (Lm o h1 h2 S) as [r [o1 [ext1 [t1 [E1 E2]]]]].
  unfold attempt. rewrite E1, E2. exists (Ok r), o1, ext1, t1.
  split; reflexivity.
Qed.

Create HintDb local.
#[local] Hint Resolve local_ret local_get local_update local_new_array
  local_float32 local_contents local_lift local_invoke local_perform : local.

Ltac local_step :=
  first
    [ solve [ auto with local ]
    | apply local_bind; [ | intros ? ]
    | apply local_try_catch; [ | intros ? ]
    | apply local_attempt
    | match goal with
      | |- local (if ?b then _ else _) => destruct b
      | |- local (match ?x with _ => _ end) => destruct x
      end ].

Lemma local_downsample_array (sourceBuffer : loc) (s t : number) :
  local (downsample_array sourceBuffer s t).
Proof. unfold downsample_array. repeat local_step. Qed.

(** [encode_and_call] reads an [Int16Array], but only the one it has just
    allocated. *)
Lemma encode_and_call_eq (throws : call -> bool) (downsampled : loc)
    (o : MicCapture) (h : heap) :
  encode_and_call throws downsampled {| this := o; mem := h |}
  = match floatToInt16 (float32_at h downsampled) with
    | Throw _ =>
        (Ok tt, {| this := o; mem := h ++ [] |},
         [console_error "[MicCapture] Error converting to PCM16:"])
    | Ok p =>
        if (length p =? 0)%nat
        then (Ok tt, {| this := o; mem := h ++ [Int16Array p] |}, [])
        else
          match onPcmFrameCallback o with
          | None => (Ok tt, {| this := o; mem := h ++ [Int16Array p] |}, [])
          | Some cb =>
              (Ok tt,
               {| this := o; mem := h ++ [Int16Array p; Int16Array p] |},
               onPcmFrame cb (S (length h))
               :: (if throws (onPcmFrame cb (S (length h)))
                   then [console_error
                           "[MicCapture] Error in onPcmFrame callback:"]
                   else []))
          end
    end.
Proof.
  unfold encode_and_call. run. unfold floatToInt16_array. run.
  unfold lift at 1. unfold bind at 1.
  destruct (floatToInt16 (float32_at h downsampled)) as [p | e].
  2:{ rewrite app_nil_r. reflexivity. }
  unfold new_array at 1. cbn [alloc mem this after app]. run.
  rewrite int16_at_new.
  destruct (length p =? 0)%nat; [ reflexivity | ].
  run. destruct (onPcmFrameCallback o) as [cb |]; [ | reflexivity ].
  unfold try_catch. run. unfold perform, invoke.
  rewrite length_app, Nat.add_1_r, <- app_assoc. cbn [length app].
  destruct (throws _); reflexivity.
Qed.

Lemma local_encode_and_call (throws : call -> bool) (downsampled : loc) :
  local (encode_and_call throws downsampled).
Proof.
  intros o h1 h2 [L F]. rewrite !encode_and_call_eq, <- F, <- L.
  destruct (floatToInt16 (float32_at h1 downsampled)) as [p | e].
  - destruct (length p =? 0)%nat.
    + eexists; eexists; eexists; eexists. split; reflexivity.
    + destruct (onPcmFrameCallback o);
        eexists; eexists; eexists; eexists; split; reflexivity.
  - eexists; eexists; eexists; eexists. split; reflexivity.
Qed.

#[local] Hint Resolve local_downsample_array local_encode_and_call : local.

Lemma local_deliver (throws : call -> bool) (frameSamples : loc) :
  local (deliver throws frameSamples).
Proof. unfold deliver. repeat local_step. Qed.

#[local] Hint Resolve local_deliver : local.

Lemma local_processAudioFrame (throws : call -> bool) (data : list number) :
  local (processAudioFrame throws data).
Proof. unfold processAudioFrame. repeat local_step. Qed.

#[local] Hint Resolve local_processAudioFrame : local.

Lemma local_samplingHandler (throws : call -> bool) (data : list number) :
  local (samplingHandler throws data).
Proof. unfold samplingHandler. repeat local_step. Qed.

Lemma local_forEach {A} (f : A -> M MicWorld unit) :
  (forall a, local (f a)) -> forall l, local (forEach f l).
Proof.
  intros Lf. induction l as [| a l IH]; cbn [forEach].
  - apply local_ret.
  - apply local_bind; [ apply Lf | intros _; exact IH ].
Qed.

(** ** Sequences of blocks through the microphone *)

Lemma sum_of_squares_finite (buffer : list number) :
  Forall (fun v => isFinite v = true) buffer ->
  forall sum, exists total, sum_of_squares buffer sum = Ok total.
Proof.
  induction 1 as [| v buffer F _ IH]; intros sum; cbn [sum_of_squares].
  - eauto.
  - destruct v; try discriminate. apply IH.
Qed.

Lemma calculateRMS_finite (block : list number) :
  finite_block block -> exists rms, calculateRMS block = Ok rms.
Proof.
  intros [NE F]. unfold calculateRMS.
  destruct block as [| v block]; [ congruence | ]. cbn [length Nat.eqb].
  destruct (sum_of_squares_finite (v :: block) F 0) as [total E].
  rewrite E. cbn [bind_result]. eauto.
Qed.

Lemma samplingHandler_capturing (throws : call -> bool) (data : list number)
    (w w' : MicWorld) (calls : list call) :
  capturing w ->
  processAudioFrame throws data w = (Ok tt, w', calls) ->
  samplingHandler throws data w = (Ok tt, w', calls).
Proof.
  intros [C [An Ac]] E. unfold samplingHandler. run. rewrite C.
  destruct (analyserNode (this w)); [ | congruence ].
  destruct (audioContext (this w)); [ | congruence ].
  cbn [negb is_null orb]. unfold try_catch. rewrite E. reflexivity.
Qed.

Lemma int16_at_copy (pre ext : heap) (encoded : list Z) :
  int16_at ((pre ++ [Int16Array encoded; Int16Array encoded]) ++ ext)
    (S (length pre)) = encoded.
Proof.
  rewrite int16_at_old by (rewrite length_app; cbn; lia).
  unfold int16_at. rewrite nth_error_app2 by lia.
  replace (S (length pre) - length pre)%nat with 1%nat by lia. reflexivity.
Qed.

Lemma delivered_app (h : heap) (a b : list call) :
  delivered h (a ++ b) = delivered h a ++ delivered h b.
Proof. unfold delivered. rewrite pcm_calls_app, map_app. reflexivity. Qed.

Lemma delivered_old (h ext : heap) (calls : list call) :
  Forall (fun l => (l < length h)%nat) (pcm_calls calls) ->
  delivered (h ++ ext) calls = delivered h calls.
Proof.
  unfold delivered. induction 1 as [| l ls L _ IH]; cbn [map];
    [ reflexivity | ].
  rewrite IH, int16_at_old by exact L. reflexivity.
Qed.

Lemma mic_run (throws : call -> bool) : forall blocks w,
  well_formed w -> capturing w -> Forall finite_block blocks ->
  exists ext calls locs,
    forEach (samplingHandler throws) blocks w
    = (Ok tt,
       {| this := set_sampleBuffer locs (this w); mem := mem w ++ ext |},
       calls)
    /\ Forall (fun l => (l < length (mem w ++ ext))%nat) locs
    /\ map (float32_at (mem w ++ ext)) locs
       = fst (pushes (samplesPerFrame (this w)) (buffered w) blocks)
    /\ Forall (fun l => (l < length (mem w ++ ext))%nat) (pcm_calls calls)
    /\ delivered (mem w ++ ext) calls
       = match onPcmFrameCallback (this w) with
         | Some _ =>
             flat_map
               (fun f => frames_of
                           (mic_frame (sourceSampleRate (this w))
                              (targetSampleRate (this w)) f))
               (snd (pushes (samplesPerFrame (this w)) (buffered w) blocks))
         | None => []
         end.
Proof.
  induction blocks as [| b blocks IH]; intros w WF C F.
  - exists [], [], (sampleBuffer (this w)). cbn [forEach pushes fst snd].
    rewrite set_sampleBuffer_same, app_nil_r. destruct w as [o h].
    split; [ reflexivity | ]. split; [ exact WF | ].
    split; [ reflexivity | ]. split; [ constructor | ].
    destruct (onPcmFrameCallback _); reflexivity.
  - inversion F as [| ? ? Fb Fbs]; subst.
    destruct C as [Cap [An Ac]].
    destruct (processAudioFrame_run throws b w WF An Ac)
      as [ext1 [calls1 [locs1 [E1 [WF1 P1]]]]].
    destruct (calculateRMS_finite b Fb) as [rms Rms]. rewrite Rms in P1.
    destruct P1 as [V1 D1].
    set (w1 := {| this := set_sampleBuffer locs1 (this w);
                  mem := mem w ++ ext1 |}) in *.
    assert (capturing w1) as C1 by (repeat split; assumption).
    destruct (IH w1 WF1 C1 Fbs) as [ext2 [calls2 [locs2 [E2 [WF2 [V2 [L2 D2]]]]]]].
    cbn [this mem w1] in E2, WF2, V2, L2, D2.
    change (set_sampleBuffer locs2 (set_sampleBuffer locs1 (this w)))
      with (set_sampleBuffer locs2 (this w)) in E2.
    unfold buffered in V2, D2. cbn [this mem w1 sampleBuffer set_sampleBuffer] in V2, D2.
    rewrite V1 in V2, D2.
    change (samplesPerFrame (set_sampleBuffer locs1 (this w)))
      with (samplesPerFrame (this w)) in V2, D2.
    change (onPcmFrameCallback (set_sampleBuffer locs1 (this w)))
      with (onPcmFrameCallback (this w)) in D2.
    change (sourceSampleRate (set_sampleBuffer locs1 (this w)))
      with (sourceSampleRate (this w)) in D2.
    change (targetSampleRate (set_sampleBuffer locs1 (this w)))
      with (targetSampleRate (this w)) in D2.
    exists (ext1 ++ ext2), (calls1 ++ calls2), locs2.
    cbn [forEach pushes].
    rewrite (bind_run _ _ _ _ _ _
               (samplingHandler_capturing throws b w w1 calls1
                  (conj Cap (conj An Ac)) E1)).
    rewrite E2. cbn [after]. rewrite !app_assoc.
    destruct (push (samplesPerFrame (this w)) (buffered w) b)
      as [kept frame] eqn:Pu.
    cbn [fst snd] in *.
    destruct (pushes (samplesPerFrame (this w)) kept blocks)
      as [final frames] eqn:Ps.
    cbn [fst snd] in *.
    split; [ reflexivity | ]. split; [ exact WF2 | ].
    split; [ exact V2 | ].
    assert (Forall (fun l => (l < length (mem w ++ ext1))%nat)
              (pcm_calls calls1)
            /\ delivered (mem w ++ ext1) calls1
               = match onPcmFrameCallback (this w) with
                 | Some _ =>
                     flat_map
                       (fun f => frames_of
                                   (mic_frame (sourceSampleRate (this w))
                                      (targetSampleRate (this w)) f))
                       (frames_of frame)
                 | None => []
                 end) as [L1 D1'].
    { unfold delivered.
      destruct (onPcmFrameCallback (this w)); [ | rewrite D1; split; constructor ].
      destruct frame as [f |]; [ | rewrite D1; split; constructor ].
      cbn [frames_of flat_map]. rewrite app_nil_r.
      destruct (mic_frame _ _ f) as [encoded |];
        [ | rewrite D1; split; constructor ].
      destruct D1 as [pre [A [B [Cc _]]]]. rewrite Cc, A. cbn [map frames_of].
      split.
      - repeat constructor. rewrite length_app. cbn. lia.
      - f_equal. rewrite <- (app_nil_r (pre ++ _)). apply int16_at_copy. }
    split.
    + rewrite pcm_calls_app. apply Forall_app. split; [ | exact L2 ].
      eapply Forall_impl; [ | exact L1 ]. intros l L. cbn beta in *.
      rewrite length_app. lia.
    + rewrite delivered_app, D2, (delivered_old _ ext2 calls1 L1), D1'.
      destruct (onPcmFrameCallback (this w)); [ | reflexivity ].
      rewrite flat_map_app. reflexivity.
Qed.

(** ** The Frame Assembler: frames and residue *)

Lemma floatToInt16_loop_length (floatBuffer : list number) :
  forall int16Buffer,
    floatToInt16_loop floatBuffer = Ok int16Buffer ->
    length int16Buffer = length floatBuffer.
Proof.
  induction floatBuffer as [| v rest IH]; intros out; cbn [floatToInt16_loop].
  - intros E. injection E as <-. reflexivity.
  - destruct v; try discriminate.
    rewrite quantize_in_int16.
    destruct (floatToInt16_loop rest) as [encoded | e]; cbn [bind_result];
      [ | discriminate ].
    intros E. injection E as <-. cbn [length]. f_equal. apply IH. reflexivity.
Qed.

(** The frame the microphone hands over has the length of the resampled
    slice: that of the slice when the rates are equal, and the rounded
    quotient otherwise (1600 for 4800 samples at 48000 to 16000 Hz). *)
Lemma mic_frame_length (s t : Q) (frameSamples : list number)
    (encoded : list Z) :
  0 < s -> 0 < t ->
  mic_frame (Fin s) (Fin t) frameSamples = Some encoded ->
  Z.of_nat (length encoded)
  = if Qeq_bool s t then Z.of_nat (length frameSamples)
    else Math_round (of_nat (length frameSamples) / (s / t)).
Proof.
  intros Ps Pt. unfold mic_frame.
  destruct (downsample frameSamples (Fin s) (Fin t)) as [d | e] eqn:D;
    [ | discriminate ].
  destruct (length d =? 0)%nat; [ discriminate | ].
  destruct (floatToInt16 d) as [p | e] eqn:F; [ | discriminate ].
  destruct (length p =? 0)%nat; [ discriminate | ].
  intros E. injection E as <-.
  assert (length p = length d) as ->.
  { unfold floatToInt16 in F. destruct (length d =? 0)%nat; [ discriminate | ].
    apply floatToInt16_loop_length, F. }
  assert (frameSamples <> []) as NE.
  { intros ->. discriminate. }
  destruct (Qeq_bool s t) eqn:Q.
  - rewrite (downsample_same_rate_result frameSamples d (Fin s) (Fin t) D Q).
    reflexivity.
  - apply Qeq_bool_neq in Q.
    rewrite (downsample_unfold frameSamples s t NE Ps Pt Q) in D.
    unfold downsample_newLength in D.
    destruct (_ <=? 0)%Z eqn:L; [ discriminate | ].
    apply Z.leb_gt in L.
    rewrite (downsample_loop_length _ _ _ _ _ _ D). lia.
Qed.

Lemma assembler_count (perFrame frames kept N R : nat) :
  (frames * perFrame + kept = N * perFrame + R)%nat ->
  (kept < perFrame)%nat -> (R < perFrame)%nat ->
  frames = N /\ kept = R.
Proof.
  intros E K L. apply (Nat.div_mod_unique perFrame); try assumption.
  rewrite !(Nat.mul_comm perFrame). exact E.
Qed.




(** ** The sample buffer between emissions *)

(** C2, as the code has it.  The buffer accumulates the analyser's raw
    blocks, at the rate of the audio context; resampling is applied later, to
    each frame that is sliced off.  [samplesPerFrame] counts 100 ms at that
    rate (4800 at 48000 Hz) and the analyser's window is shorter (2048).  For
    any sequence of pushes from an empty buffer in which no block is longer
    than a frame, what is buffered afterwards is the tail of the pushed
    samples, unchanged, and it is strictly shorter than one frame; this holds
    for the buffer of the hidden window and for the microphone's. *)
Theorem sample_buffer_invariant (perFrame : nat)
    (blocks : list (list number)) :
  (0 < perFrame)%nat ->
  Forall (fun b => (length b <= perFrame)%nat) blocks ->
  start_samplesPerFrame 48000 = 4800%nat
  /\ (fftSize <= start_samplesPerFrame 48000)%nat
  /\ exists kept consumed,
      fst (pushes perFrame [] blocks) = kept
      /\ concat blocks = consumed ++ concat kept
      /\ (totalSamples kept < perFrame)%nat
      /\ (perFrame = Loopback.samplesPerFrame ->
          exists calls,
            forEach Loopback.processFrame blocks
              {| Loopback.window_isCapturing := true;
                 Loopback.sampleBuffer := [] |}
            = (Ok tt,
               {| Loopback.window_isCapturing := true;
                  Loopback.sampleBuffer := kept |},
               calls))
      /\ (forall throws w,
             well_formed w -> capturing w ->
             sampleBuffer (this w) = [] ->
             samplesPerFrame (this w) = perFrame ->
             Forall finite_block blocks ->
             exists w' calls,
               forEach (samplingHandler throws) blocks w = (Ok tt, w', calls)
               /\ buffered w' = kept).
Proof.
  intros Pos Short.
  split; [ reflexivity | ]. split; [ unfold fftSize; cbn; lia | ].
  assert (length (concat ([] : list (list number))) < perFrame)%nat as Empty
    by (cbn; lia).
  pose proof (pushes_spec perFrame blocks [] Empty Short) as P.
  destruct (pushes perFrame [] blocks) as [kept frames] eqn:E.
  destruct P as [Order [_ Residue]]. cbn [concat app] in Order.
  exists kept, (concat frames). cbn [fst].
  split; [ reflexivity | ]. split; [ symmetry; exact Order | ].
  split; [ rewrite totalSamples_concat; exact Residue | ]. split.
  - intros ->. eexists. rewrite renderer_run, E. reflexivity.
  - intros throws w WF C B S F.
    destruct (mic_run throws blocks w WF C F)
      as [ext [calls [locs [Run [_ [V _]]]]]].
    unfold buffered in V. rewrite B, S in V. cbn [map] in V.
    rewrite E in V. eexists. exists calls. split; [ exact Run | exact V ].
Qed.

Lemma sample_buffer_invariant_witness :
  exists kept consumed,
    fst (pushes 4800 [] [[Fin 1; Fin 1; Fin 1]]) = kept
    /\ concat [[Fin 1; Fin 1; Fin 1]] = consumed ++ concat kept
    /\ (totalSamples kept < 4800)%nat.
Proof.
  destruct (sample_buffer_invariant 4800 [[Fin 1; Fin 1; Fin 1]])
    as [_ [_ [kept [consumed [A [B [C _]]]]]]].
  - lia.
  - constructor; [ cbn; lia | constructor ].
  - exists kept, consumed. auto.
Defined.

(** C2 as stated fails on what the buffer holds: a started microphone that
    is handed the block [1; 1; 1] buffers those three samples as they are,
    where resampling the block from 48000 to 16000 Hz would have left one.
    (And it fails on the length when a block is longer than a frame: after a
    block of [4800 + 4800] samples, 4800 are buffered.) *)
Lemma sample_buffer_holds_raw_samples :
  let quiet := fun _ : call => false in
  let block := [Fin 1; Fin 1; Fin 1] in
  let w :=
    {| this := started 1 2 3 4 5 {| getTracks := [6%nat] |} None (Some 7%nat)
                 (Fin 16000);
       mem := [] |} in
  (exists w',
      processAudioFrame quiet block w = (Ok tt, w', [])
      /\ buffered w' = [block])
  /\ downsample block (Fin 48000) (Fin 16000) = Ok [Fin (3 # 3)]
  /\ totalSamples
       (fst (push Loopback.samplesPerFrame [] (repeat (Fin 0) (4800 + 4800))))
     = Loopback.samplesPerFrame.
Proof.
  cbv zeta. split; [ | split ].
  - eexists. split; reflexivity.
  - reflexivity.
  - vm_compute. reflexivity.
Qed.

(** ** The frame handed to the client *)

Lemma In_pcm_calls (calls : list call) (cb : nat) (l : loc) :
  In (onPcmFrame cb l) calls -> In l (pcm_calls calls).
Proof.
  intros H. unfold pcm_calls. apply in_flat_map.
  exists (onPcmFrame cb l). split; [ exact H | left; reflexivity ].
Qed.

(** C10: every array that [processAudioFrame] hands to [onPcmFrame] was
    allocated during that call (it is no array that existed before), it is
    not one of the buffers the object keeps, and it is a second array with
    the contents of the encoded frame.  Whatever the client writes into it,
    the buffered samples read the same, and every later run of the sampling
    closure, on any blocks, returns the same, leaves the same object,
    allocates the same arrays and makes the same calls. *)
Theorem pcm_frame_is_fresh_copy (throws : call -> bool) (data : list number)
    (w w' : MicWorld) (calls : list call) (cb : nat) (pcmCopy : loc) :
  well_formed w ->
  processAudioFrame throws data w = (Ok tt, w', calls) ->
  In (onPcmFrame cb pcmCopy) calls ->
  (length (mem w) <= pcmCopy)%nat
  /\ ~ In pcmCopy (sampleBuffer (this w'))
  /\ (exists pcm16 encoded,
         pcm16 <> pcmCopy
         /\ nth_error (mem w') pcm16 = Some (Int16Array encoded)
         /\ nth_error (mem w') pcmCopy = Some (Int16Array encoded))
  /\ forall written,
      let w'' := {| this := this w';
                    mem := overwrite pcmCopy written (mem w') |} in
      buffered w'' = buffered w'
      /\ forall blocks, exists r o ext later,
          forEach (samplingHandler throws) blocks w'
          = (r, {| this := o; mem := mem w' ++ ext |}, later)
          /\ forEach (samplingHandler throws) blocks w''
             = (r, {| this := o; mem := mem w'' ++ ext |}, later).
Proof.
  intros WF Run Called.
  destruct (analyserNode (this w)) as [an |] eqn:An.
  2:{ rewrite (processAudioFrame_not_ready throws w data (or_introl An)) in Run.
      injection Run as _ <-. contradiction. }
  destruct (audioContext (this w)) as [ac |] eqn:Ac.
  2:{ rewrite (processAudioFrame_not_ready throws w data (or_intror Ac)) in Run.
      injection Run as _ <-. contradiction. }
  destruct (processAudioFrame_run throws data w WF)
    as [ext [calls0 [locs [E [_ P]]]]]; try congruence.
  rewrite E in Run. injection Run as <- <-.
  apply In_pcm_calls in Called.
  assert (exists pre encoded,
             mem w ++ ext = pre ++ [Int16Array encoded; Int16Array encoded]
             /\ (length (mem w) <= length pre)%nat
             /\ pcm_calls calls0 = [S (length pre)]
             /\ Forall (fun l => (l <= length pre)%nat) locs)
    as [pre [encoded [Heap [Old [Calls Kept]]]]].
  { destruct (calculateRMS data); [ | destruct P as [_ P]; rewrite P in Called;
                                      contradiction ].
    destruct P as [_ P].
    destruct (onPcmFrameCallback (this w));
      [ | rewrite P in Called; contradiction ].
    destruct (snd (push _ _ _)) as [frame |];
      [ | rewrite P in Called; contradiction ].
    destruct (mic_frame _ _ frame) as [encoded |];
      [ | rewrite P in Called; contradiction ].
    destruct P as [pre P]. exists pre, encoded. exact P. }
  rewrite Calls in Called. destruct Called as [<- | []].
  cbn [this mem sampleBuffer set_sampleBuffer].
  split; [ lia | ]. split.
  { intros I. rewrite Forall_forall in Kept. specialize (Kept _ I).
    cbn beta in Kept. lia. }
  split.
  { exists (length pre), encoded. rewrite Heap.
    split; [ lia | ]. split.
    - apply nth_error_new.
    - rewrite nth_error_app2 by lia.
      replace (S (length pre) - length pre)%nat with 1%nat by lia.
      reflexivity. }
  intros written. cbv zeta. split.
  { unfold buffered. cbn [this mem sampleBuffer set_sampleBuffer].
    apply map_ext. intros l. apply overwrite_float32. }
  intros blocks.
  apply (local_forEach (samplingHandler throws)
           (local_samplingHandler throws) blocks
           (set_sampleBuffer locs (this w)) (mem w ++ ext)
           (overwrite (S (length pre)) written (mem w ++ ext))).
  apply overwrite_same_floats.
Qed.

Lemma pcm_frame_is_fresh_copy_witness :
  let quiet := fun _ : call => false in
  let block := repeat (Fin (1 # 2)) 4800 in
  let w :=
    {| this := started 1 2 3 4 5 {| getTracks := [6%nat] |} None (Some 7%nat)
                 (Fin 16000);
       mem := [] |} in
  let w' :=
    {| this := set_sampleBuffer [] (this w);
       mem := [Float32Array block; Float32Array block; Float32Array block;
               Float32Array block; Float32Array [];
               Float32Array (repeat (Fin (12 # 24)) 1600);
               Int16Array (repeat 16384%Z 1600);
               Int16Array (repeat 16384%Z 1600)] |} in
  processAudioFrame quiet block w = (Ok tt, w', [onPcmFrame 7 7])
  /\ (length (mem w) <= 7)%nat
  /\ ~ In 7%nat (sampleBuffer (this w')).
Proof.
  cbv zeta.
  match goal with
  | |- ?run = ?res /\ _ => assert (run = res) as E by (vm_compute; reflexivity)
  end.
  split; [ exact E | ].
  match type of E with
  | processAudioFrame ?q ?b ?w = (_, ?w', ?calls) =>
      destruct (pcm_frame_is_fresh_copy q b w w' calls 7 7) as [A [B _]]
  end.
  - constructor.
  - exact E.
  - left. reflexivity.
  - split; [ exact A | exact B ].
Defined.

(** ** The codec on whole buffers *)

Lemma encode_sample_range (x : number) :
  (-32767 <= Loopback.encode_sample x <= 32767)%Z.
Proof.
  destruct x; cbn [Loopback.encode_sample]; try lia. apply quantize_range.
Qed.

Lemma floatToInt16_loop_finite (floatBuffer : list number) :
  Forall (fun v => isFinite v = true) floatBuffer ->
  floatToInt16_loop floatBuffer = Ok (map Loopback.encode_sample floatBuffer).
Proof.
  induction 1 as [| v rest F _ IH]; cbn [floatToInt16_loop map];
    [ reflexivity | ].
  destruct v; try discriminate.
  rewrite quantize_in_int16, IH. reflexivity.
Qed.

Lemma floatToInt16_loop_Ok_finite (floatBuffer : list number) :
  forall int16Buffer,
    floatToInt16_loop floatBuffer = Ok int16Buffer ->
    Forall (fun v => isFinite v = true) floatBuffer.
Proof.
  induction floatBuffer as [| v rest IH]; intros out; cbn [floatToInt16_loop];
    [ constructor | ].
  destruct v; try discriminate.
  rewrite quantize_in_int16.
  destruct (floatToInt16_loop rest) as [encoded | e]; cbn [bind_result];
    [ | discriminate ].
  intros _. constructor; [ reflexivity | eapply IH; reflexivity ].
Qed.

(** X1: [floatToInt16] returns exactly when the buffer is non-empty and
    holds finite numbers only (its range check never fires); what it returns
    has one integer per sample, each the clamped, scaled and rounded sample
    and each within [-32767, 32767], and it is what the hidden window's
    inline codec computes for the same samples. *)
Theorem floatToInt16_succeeds_iff (floatBuffer : list number) :
  ((exists int16Buffer, floatToInt16 floatBuffer = Ok int16Buffer)
   <-> floatBuffer <> []
       /\ Forall (fun v => isFinite v = true) floatBuffer)
  /\ (forall int16Buffer,
         floatToInt16 floatBuffer = Ok int16Buffer ->
         int16Buffer = map Loopback.encode_sample floatBuffer
         /\ length int16Buffer = length floatBuffer
         /\ Forall (fun v => (-32767 <= v <= 32767)%Z) int16Buffer).
Proof.
  assert (forall out, floatToInt16 floatBuffer = Ok out ->
            floatBuffer <> []
            /\ Forall (fun v => isFinite v = true) floatBuffer) as Valid.
  { intros out E. unfold floatToInt16 in E.
    destruct floatBuffer as [| v rest]; [ discriminate | ].
    cbn [length Nat.eqb] in E.
    split; [ discriminate | eapply floatToInt16_loop_Ok_finite, E ]. }
  split; [ split | ].
  - intros [out E]. exact (Valid out E).
  - intros [NE F]. exists (map Loopback.encode_sample floatBuffer).
    unfold floatToInt16. destruct floatBuffer as [| v rest]; [ congruence | ].
    cbn [length Nat.eqb]. apply floatToInt16_loop_finite, F.
  - intros out E. destruct (Valid out E) as [NE F].
    unfold floatToInt16 in E.
    destruct floatBuffer as [| v rest]; [ congruence | ].
    cbn [length Nat.eqb] in E.
    rewrite (floatToInt16_loop_finite (v :: rest) F) in E.
    injection E as <-.
    change (Loopback.encode_sample v :: map Loopback.encode_sample rest)
      with (map Loopback.encode_sample (v :: rest)).
    split; [ reflexivity | ]. split; [ apply length_map | ].
    apply Forall_map, Forall_forall. intros x _. apply encode_sample_range.
Qed.

Lemma clamp_unit_mono (x y : Q) : x <= y -> clamp_unit x <= clamp_unit y.
Proof.
  intros L. unfold clamp_unit.
  apply Q.max_le_compat_l, Q.min_le_compat_l, L.
Qed.

Lemma clamp_unit_high (x : Q) : 1 <= x -> clamp_unit x == 1.
Proof.
  intros L. unfold clamp_unit. rewrite Q.min_l by exact L.
  apply Q.max_r. qlra.
Qed.

Lemma clamp_unit_low (x : Q) : x <= -1 -> clamp_unit x == -1.
Proof.
  intros L. unfold clamp_unit. rewrite Q.min_r by qlra.
  apply Q.max_l. exact L.
Qed.

(** X2: the quantiser of the codec preserves order, saturates at
    [+32767] and [-32767] outside [-1, 1], maps 0 to 0, and inside [-1, 1]
    is off the exact product [32767 * x] by at most half a step. *)
Theorem quantize_monotone_saturating :
  (forall x y, x <= y -> (quantize x <= quantize y)%Z)
  /\ (forall x, 1 <= x -> quantize x = 32767%Z)
  /\ (forall x, x <= -1 -> quantize x = (-32767)%Z)
  /\ quantize 0 = 0%Z
  /\ (forall x, -1 <= x <= 1 ->
        x * 32767 - (1 # 2) < inject_Z (quantize x) <= x * 32767 + (1 # 2)).
Proof.
  split; [ | split; [ | split; [ | split ] ] ].
  - intros x y L. unfold quantize. apply Math_round_mono.
    pose proof (clamp_unit_mono x y L). qlra.
  - intros x L. unfold quantize.
    rewrite (Math_round_comp _ (inject_Z 32767)).
    + apply Math_round_inject.
    + rewrite (clamp_unit_high x L). reflexivity.
  - intros x L. unfold quantize.
    rewrite (Math_round_comp _ (inject_Z (-32767))).
    + apply Math_round_inject.
    + rewrite (clamp_unit_low x L). reflexivity.
  - reflexivity.
  - intros x B. unfold quantize.
    rewrite (Math_round_comp _ (x * 32767))
      by (rewrite (clamp_unit_id x B); reflexivity).
    pose proof (Math_round_lower (x * 32767)).
    pose proof (Math_round_upper (x * 32767)).
    split; qlra.
Qed.

(** ** The resampler keeps samples in range *)

Lemma downsample_window_bounds (x : list Q) (lo hi : Q) :
  Forall (fun v => lo <= v <= hi) x ->
  forall steps i accum count a c,
    downsample_window (map Fin x) i steps accum count = Ok (a, c) ->
    lo * of_nat count <= accum <= hi * of_nat count ->
    lo * of_nat c <= a <= hi * of_nat c.
Proof.
  intros B. induction steps as [| steps IH]; intros i accum count a c;
    cbn [downsample_window].
  - intros E. injection E as <- <-. auto.
  - rewrite nth_error_map.
    destruct (nth_error x i) as [v |] eqn:N; cbn [option_map].
    + intros E I. apply (IH _ _ _ _ _ E). rewrite of_nat_S.
      rewrite Forall_forall in B.
      destruct (B v (nth_error_In _ _ N)). split; qlra.
    + intros E. injection E as <- <-. auto.
Qed.

Lemma downsample_loop_bounds (x : list Q) (lo hi ratio : Q) :
  lo <= 0 <= hi ->
  Forall (fun v => lo <= v <= hi) x ->
  forall todo offsetResult offsetSource y,
    downsample_loop (map Fin x) ratio todo offsetResult offsetSource = Ok y ->
    Forall (fun v => exists q, v = Fin q /\ lo <= q <= hi) y.
Proof.
  intros Z B. induction todo as [| todo IH]; intros oR oS y;
    cbn [downsample_loop].
  - intros E. injection E as <-. constructor.
  - destruct (downsample_window (map Fin x) (Z.to_nat oS) _ 0 0)
      as [[accum count] | e] eqn:W; cbn [bind_result]; [ | discriminate ].
    destruct (downsample_loop (map Fin x) ratio todo _ _) as [rest | e] eqn:R;
      cbn [bind_result]; [ | discriminate ].
    intros E. injection E as <-. constructor; [ | eapply IH, R ].
    eexists. split; [ reflexivity | ].
    destruct (count =? 0)%nat eqn:C; [ exact Z | ].
    apply Nat.eqb_neq in C.
    assert (0 < of_nat count) as P by (apply of_nat_pos; lia).
    destruct (downsample_window_bounds x lo hi B _ _ _ _ _ _ W) as [L U].
    { change (of_nat 0) with 0. split; qlra. }
    split.
    + apply Qle_shift_div_l; assumption.
    + apply Qle_shift_div_r; assumption.
Qed.

(** X3: resampling keeps the samples in range.  If every sample of the
    block lies in [lo, hi], an interval around 0, so does every sample of
    the resampled block, which holds finite numbers only: averaging cannot
    clip, and a window with no sample in it yields 0. *)
Theorem downsample_within_bounds (x : list Q) (s t : number) (lo hi : Q)
    (y : list number) :
  lo <= 0 <= hi ->
  Forall (fun v => lo <= v <= hi) x ->
  downsample (map Fin x) s t = Ok y ->
  Forall (fun v => exists q, v = Fin q /\ lo <= q <= hi) y.
Proof.
  intros Z B. unfold downsample.
  destruct (length (map Fin x) =? 0)%nat; [ discriminate | ].
  destruct (invalid_rate s); [ discriminate | ].
  destruct (invalid_rate t); [ discriminate | ].
  destruct (Qeq_bool (rate_value s) (rate_value t)).
  - intros E. injection E as <-. apply Forall_map.
    eapply Forall_impl; [ | exact B ]. intros v V. eauto.
  - destruct (Qle_bool _ 0); [ discriminate | ].
    destruct (_ <=? 0)%Z; [ discriminate | ].
    apply downsample_loop_bounds; assumption.
Qed.

Lemma downsample_within_bounds_witness :
  exists y,
    downsample (map Fin [1; -1; 1 # 2; 1; 0; 1]) (Fin 48000) (Fin 16000)
    = Ok y
    /\ Forall (fun v => exists q, v = Fin q /\ -1 <= q <= 1) y.
Proof.
  eexists. split; [ reflexivity | ].
  apply (downsample_within_bounds [1; -1; 1 # 2; 1; 0; 1]
           (Fin 48000) (Fin 16000) (-1) 1).
  - split; discriminate.
  - repeat constructor; discriminate.
  - reflexivity.
Defined.

(** ** The level meter of the loopback capture *)

Lemma loopback_sum_of_squares (buffer : list Z) : forall sum,
  Loopback.sum_of_squares buffer sum
  == sum + sum_squared (map (fun value => inject_Z value / 32768) buffer).
Proof.
  unfold sum_squared.
  induction buffer as [| v buffer IH]; intros sum;
    cbn [Loopback.sum_of_squares map fold_right].
  - ring.
  - rewrite IH. ring.
Qed.

Lemma normalized_int16 (v : Z) :
  (-32768 <= v <= 32767)%Z -> -1 <= inject_Z v / 32768 <= 1.
Proof.
  intros [Hl Hu].
  assert (inject_Z (-32768) <= inject_Z v) as Bl by (rewrite <- Zle_Qle; lia).
  assert (inject_Z v <= inject_Z 32767) as Bu by (rewrite <- Zle_Qle; lia).
  change (inject_Z (-32768)) with (-32768) in Bl.
  change (inject_Z 32767) with 32767 in Bu.
  assert (inject_Z v / 32768 == inject_Z v * (1 # 32768)) as E by field.
  rewrite E. split; qlra.
Qed.

Lemma sqrt_mean_square_unit (samples : list Q) :
  samples <> [] ->
  Forall (fun v => -1 <= v <= 1) samples ->
  (0 <= sqrt (Q2R (mean_square samples)) <= 1)%R.
Proof.
  intros NE B.
  assert (0 < of_nat (length samples)) as Hn
    by (apply of_nat_pos; destruct samples; [ congruence | simpl; lia ]).
  destruct (sum_squared_bounds samples B).
  split; [ apply sqrt_pos | ].
  rewrite <- sqrt_1. apply sqrt_le_1; [ | lra | ].
  - rewrite <- RMicromega.Q2R_0. apply Qle_Rle.
    unfold mean_square. apply Qle_shift_div_l; [ exact Hn | qlra ].
  - rewrite <- RMicromega.Q2R_1. apply Qle_Rle.
    unfold mean_square. apply Qle_shift_div_r; [ exact Hn | qlra ].
Qed.

Lemma loopback_calculateRMS_mean (buffer : list Z) :
  buffer <> [] ->
  Math_sqrt (Loopback.sum_of_squares buffer 0 / of_nat (length buffer))
  = sqrt (Q2R (mean_square
                 (map (fun value => inject_Z value / 32768) buffer))).
Proof.
  intros NE. unfold Math_sqrt, mean_square. f_equal. apply Qeq_eqR.
  rewrite loopback_sum_of_squares, length_map.
  assert (0 < of_nat (length buffer))
    by (apply of_nat_pos; destruct buffer; [ congruence | cbn; lia ]).
  field. qlra.
Qed.

Lemma loopback_calculateRMS_unit (buffer : list Z) :
  (0 <= Loopback.calculateRMS buffer <= 1)%R.
Proof.
  unfold Loopback.calculateRMS.
  destruct (length buffer =? 0)%nat; [ lra | ].
  split.
  - apply Rmin_glb; [ lra | apply Rmax_l ].
  - apply Rmin_l.
Qed.

(** X4: the level that the loopback capture reports always lies in
    [0, 1].  On a non-empty buffer of Int16 samples the final clamp is idle:
    the level is the square root of the mean of the squared samples, each
    scaled by 1/32768.  It is 0 on silence and exactly 1 on a buffer that
    sits at -32768. *)
Theorem loopback_level_range :
  (forall buffer, (0 <= Loopback.calculateRMS buffer <= 1)%R)
  /\ (forall buffer,
         buffer <> [] ->
         Forall (fun v => (-32768 <= v <= 32767)%Z) buffer ->
         Loopback.calculateRMS buffer
         = sqrt (Q2R (mean_square
                        (map (fun value => inject_Z value / 32768) buffer))))
  /\ (forall buffer,
         Forall (fun v => v = 0%Z) buffer ->
         Loopback.calculateRMS buffer = 0%R)
  /\ (forall n,
         Loopback.calculateRMS (repeat (-32768)%Z (S n)) = 1%R).
Proof.
  assert (forall buffer,
             buffer <> [] ->
             Forall (fun v => (-32768 <= v <= 32767)%Z) buffer ->
             Loopback.calculateRMS buffer
             = sqrt (Q2R (mean_square
                            (map (fun value => inject_Z value / 32768)
                               buffer)))) as Exact.
  { intros buffer NE B. unfold Loopback.calculateRMS.
    destruct buffer as [| v buffer]; [ congruence | ].
    replace (length (v :: buffer) =? 0)%nat with false by reflexivity.
    cbv zeta. rewrite (loopback_calculateRMS_mean (v :: buffer) NE).
    set (samples := map (fun value => inject_Z value / 32768) (v :: buffer)).
    assert (Forall (fun q => -1 <= q <= 1) samples) as U.
    { unfold samples. apply Forall_map.
      eapply Forall_impl; [ | exact B ]. apply normalized_int16. }
    assert (samples <> []) as NS by (unfold samples; discriminate).
    destruct (sqrt_mean_square_unit samples NS U) as [Lo Hi].
    rewrite Rmax_right by exact Lo. apply Rmin_right. exact Hi. }
  split; [ | split; [ exact Exact | split ] ].
  - exact loopback_calculateRMS_unit.
  - intros buffer Z0.
    destruct buffer as [| v buffer]; [ reflexivity | ].
    rewrite Exact; [ | discriminate | ].
    + rewrite <- sqrt_0. f_equal. rewrite <- RMicromega.Q2R_0.
      apply Qeq_eqR. unfold mean_square. rewrite sum_squared_zero.
      * rewrite length_map. field.
        pose proof (of_nat_pos (length (v :: buffer)) ltac:(cbn; lia)). qlra.
      * apply Forall_map. eapply Forall_impl; [ | exact Z0 ].
        intros z ->. reflexivity.
    + eapply Forall_impl; [ | exact Z0 ]. intros z ->. lia.
  - intros n. rewrite Exact.
    + rewrite <- sqrt_1. f_equal. rewrite <- RMicromega.Q2R_1.
      apply Qeq_eqR. unfold mean_square. rewrite sum_squared_full_scale.
      * field.
        rewrite length_map.
        pose proof (of_nat_pos (length (repeat (-32768)%Z (S n)))
                      ltac:(cbn; lia)). qlra.
      * apply Forall_map, Forall_forall. intros z I.
        apply repeat_spec in I. subst z. right. reflexivity.
    + discriminate.
    + apply Forall_forall. intros z I. apply repeat_spec in I. lia.
Qed.

(** ** From the hidden window to the client of the loopback capture *)

Lemma to_int16_id (v : Z) :
  (-32768 <= v <= 32767)%Z -> Loopback.to_int16 v = v.
Proof.
  intros B. unfold Loopback.to_int16. rewrite Z.mod_small by lia. lia.
Qed.

Lemma to_int16_encoded (frameSamples : list number) :
  map Loopback.to_int16 (map Loopback.encode_sample frameSamples)
  = map Loopback.encode_sample frameSamples.
Proof.
  rewrite map_map. apply map_ext. intros x. apply to_int16_id.
  pose proof (encode_sample_range x). lia.
Qed.

Lemma set_lastPcmBuffer_twice (a b : option (list Z))
    (s : Loopback.LoopbackCapture) :
  Loopback.set_lastPcmBuffer b (Loopback.set_lastPcmBuffer a s)
  = Loopback.set_lastPcmBuffer b s.
Proof. reflexivity. Qed.

Lemma pcmHandler_call_run (throws : call -> bool) (h : Loopback.handler)
    (pcmArray : list Z) (s : Loopback.LoopbackCapture) :
  Loopback.isCapturing s = true ->
  (forall cb b, throws (onPcm cb b) = false) ->
  Loopback.pcmHandler_call throws h pcmArray s
  = (Ok tt,
     Loopback.set_lastPcmBuffer (Some (map Loopback.to_int16 pcmArray)) s,
     opt_call (fun cb => onPcm cb (map Loopback.to_int16 pcmArray))
       (Loopback.handler_onPcm h)).
Proof.
  intros C Q. unfold Loopback.pcmHandler_call.
  rewrite bind_read, C, bind_modify.
  destruct (Loopback.handler_onPcm h) as [cb |]; [ | reflexivity ].
  unfold perform. rewrite Q. reflexivity.
Qed.

Lemma pcmHandler_calls_run (throws : call -> bool) (h : Loopback.handler) :
  (forall cb b, throws (onPcm cb b) = false) ->
  forall (messages : list (list Z)) (s : Loopback.LoopbackCapture),
    Loopback.isCapturing s = true ->
    forEach (Loopback.pcmHandler_call throws h) messages s
    = (Ok tt,
       match messages with
       | [] => s
       | _ :: _ =>
           Loopback.set_lastPcmBuffer
             (Some (map Loopback.to_int16 (last messages []))) s
       end,
       flat_map
         (fun pcmArray =>
            opt_call (fun cb => onPcm cb (map Loopback.to_int16 pcmArray))
              (Loopback.handler_onPcm h))
         messages).
Proof.
  intros Q. induction messages as [| m messages IH]; intros s C;
    cbn [forEach flat_map]; [ reflexivity | ].
  rewrite (bind_run _ _ _ _ _ _ (pcmHandler_call_run throws h m s C Q)).
  rewrite IH by exact C. cbn [after].
  destruct messages as [| m' messages]; [ reflexivity | ].
  rewrite set_lastPcmBuffer_twice. reflexivity.
Qed.

Lemma onPcm_calls_unchanged (cb : nat) (sent : list (list Z)) :
  (forall pcm, In pcm sent -> map Loopback.to_int16 pcm = pcm) ->
  flat_map (fun pcmArray => [onPcm cb (map Loopback.to_int16 pcmArray)]) sent
  = map (onPcm cb) sent.
Proof.
  induction sent as [| m rest IH]; intros Id; [ reflexivity | ].
  change (flat_map ?f (m :: rest)) with (f m ++ flat_map f rest).
  cbv beta. rewrite IH by (intros pcm I; apply Id; right; exact I).
  rewrite Id by (left; reflexivity). reflexivity.
Qed.

(** X5: while the loopback capture runs and the client's callback does not
    throw, every frame that the hidden window encodes and sends reaches
    [onPcm] as the same integers, in the order sent: wrapping the message
    in an [Int16Array] changes nothing, because the window's codec stays
    within [-32767, 32767].  The last frame is the one kept for the level
    meter. *)
Theorem loopback_frames_reach_callback (throws : call -> bool)
    (h : Loopback.handler) (cb : nat) (frames : list (list number))
    (s : Loopback.LoopbackCapture) :
  Loopback.isCapturing s = true ->
  Loopback.handler_onPcm h = Some cb ->
  (forall c b, throws (onPcm c b) = false) ->
  let sent := map (map Loopback.encode_sample) frames in
  forEach (Loopback.pcmHandler_call throws h) sent s
  = (Ok tt,
     match sent with
     | [] => s
     | _ :: _ => Loopback.set_lastPcmBuffer (Some (last sent [])) s
     end,
     map (onPcm cb) sent)
  /\ Forall (Forall (fun v => (-32767 <= v <= 32767)%Z)) sent.
Proof.
  intros C H Q sent. split.
  - rewrite (pcmHandler_calls_run throws h Q sent s C). rewrite H.
    assert (forall pcm, In pcm sent -> map Loopback.to_int16 pcm = pcm) as Id.
    { intros pcm I. apply in_map_iff in I. destruct I as [f [<- _]].
      apply to_int16_encoded. }
    f_equal; [ f_equal | ].
    + destruct sent as [| m rest] eqn:E; [ reflexivity | ].
      rewrite Id; [ reflexivity | ].
      rewrite <- E. destruct (exists_last (l := sent)) as [front [b ->]].
      { rewrite E. discriminate. }
      rewrite E. rewrite <- E. rewrite last_last.
      apply in_or_app. right. left. reflexivity.
    + cbn [opt_call]. apply onPcm_calls_unchanged, Id.
  - unfold sent. apply Forall_map, Forall_forall. intros f _.
    apply Forall_map, Forall_forall. intros x _. apply encode_sample_range.
Qed.

Lemma loopback_frames_reach_callback_witness :
  forEach
    (Loopback.pcmHandler_call (fun _ => false)
       {| Loopback.handler_id := 1; Loopback.handler_onPcm := Some 2%nat |})
    (map (map Loopback.encode_sample) [[Fin 1; Fin (-1)]; [NaN; Fin 0]])
    (Loopback.set_isCapturing true Loopback.loopbackCapture)
  = (Ok tt,
     Loopback.set_lastPcmBuffer (Some [0; 0]%Z)
       (Loopback.set_isCapturing true Loopback.loopbackCapture),
     [onPcm 2 [32767; -32767]%Z; onPcm 2 [0; 0]%Z]).
Proof.
  apply (loopback_frames_reach_callback (fun _ => false)
           {| Loopback.handler_id := 1; Loopback.handler_onPcm := Some 2%nat |}
           2 [[Fin 1; Fin (-1)]; [NaN; Fin 0]]
           (Loopback.set_isCapturing true Loopback.loopbackCapture));
    reflexivity.
Defined.

(** X6: the level timer reports the latest frame, once.  After any number
    of frames have arrived, the next tick emits exactly one [level] event,
    the level of the frame that arrived last, a number in [0, 1]; a tick
    with no new frame since the previous one emits nothing. *)
Theorem level_timer_reports_latest_frame (throws : call -> bool)
    (h : Loopback.handler) (messages : list (list Z)) (latest : list Z)
    (s : Loopback.LoopbackCapture) :
  Loopback.isCapturing s = true ->
  (forall cb b, throws (onPcm cb b) = false) ->
  (forall level, throws (emit_level level) = false) ->
  exists s1 calls s2,
    forEach (Loopback.pcmHandler_call throws h) (messages ++ [latest]) s
    = (Ok tt, s1, calls)
    /\ Loopback.rmsHandler throws s1
       = (Ok tt, s2,
          [emit_level
             (Loopback.calculateRMS (map Loopback.to_int16 latest))])
    /\ Loopback.rmsHandler throws s2 = (Ok tt, s2, [])
    /\ (0 <= Loopback.calculateRMS (map Loopback.to_int16 latest) <= 1)%R.
Proof.
  intros C Q E.
  rewrite (pcmHandler_calls_run throws h Q (messages ++ [latest]) s C).
  rewrite last_last.
  destruct (messages ++ [latest]) as [| m rest] eqn:N;
    [ destruct messages; discriminate | ].
  eexists. eexists. eexists. split; [ reflexivity | ].
  destruct s as [ic hw ph cb init timer lastBuffer]. cbn in C. subst ic.
  unfold Loopback.rmsHandler, perform.
  rewrite !bind_read. cbn. rewrite E.
  split; [ reflexivity | ]. split; [ reflexivity | ].
  apply loopback_calculateRMS_unit.
Qed.

Lemma level_timer_reports_latest_frame_witness :
  let quiet := fun _ : call => false in
  let h := {| Loopback.handler_id := 1; Loopback.handler_onPcm := None |} in
  exists s1 calls s2,
    forEach (Loopback.pcmHandler_call quiet h) ([[1; 2]] ++ [[0; 0]])%Z
      (Loopback.set_isCapturing true Loopback.loopbackCapture)
    = (Ok tt, s1, calls)
    /\ Loopback.rmsHandler quiet s1
       = (Ok tt, s2,
          [emit_level
             (Loopback.calculateRMS (map Loopback.to_int16 [0; 0]%Z))])
    /\ Loopback.rmsHandler quiet s2 = (Ok tt, s2, [])
    /\ (0 <= Loopback.calculateRMS (map Loopback.to_int16 [0; 0]%Z) <= 1)%R.
Proof.
  cbv zeta.
  apply (level_timer_reports_latest_frame (fun _ => false)
           {| Loopback.handler_id := 1; Loopback.handler_onPcm := None |}
           [[1; 2]]%Z [0; 0]%Z
           (Loopback.set_isCapturing true Loopback.loopbackCapture));
    reflexivity.
Defined.

(** ** Starting and stopping the loopback capture *)

Ltac loopback_run throws :=
  unfold Loopback.startLoopback_begin, Loopback.startLoopback_resume,
    Loopback.startLoopback_catch, Loopback.stopLoopback,
    Loopback.startRMSMonitoring, Loopback.stopRMSMonitoring,
    Loopback.ensureInitialized;
  unfold bind, read, modify, ret, throw, try_catch, perform, invoke;
  cbn.

Lemma startLoopback_begin_run (throws : call -> bool)
    (s : Loopback.LoopbackCapture) (window : nat) :
  (forall c, throws c = false) ->
  Loopback.isCapturing s = false ->
  Loopback.startLoopback_begin throws window s
  = (Ok tt, Loopback.set_isInitialized true s,
     (if Loopback.isInitialized s then [] else [initMain])
     ++ [new_BrowserWindow window; loadURL window]).
Proof.
  intros Q C.
  destruct s as [ic hw ph cb init interval lastBuffer]. cbn in C. subst ic.
  destruct init; loopback_run throws; rewrite ?Q; reflexivity.
Qed.

Lemma startLoopback_resume_run (throws : call -> bool)
    (s : Loopback.LoopbackCapture) (window handlerId timer : nat)
    (onPcmArg : option nat) :
  (forall c, throws c = false) ->
  Loopback.startLoopback_resume throws window handlerId timer onPcmArg s
  = (Ok tt,
     {| Loopback.isCapturing := true;
        Loopback.hiddenWindow :=
          Some {| Loopback.window_id := window;
                  Loopback.isDestroyed := false |};
        Loopback.pcmHandler :=
          Some {| Loopback.handler_id := handlerId;
                  Loopback.handler_onPcm := onPcmArg |};
        Loopback.onPcmCallback := onPcmArg;
        Loopback.isInitialized := Loopback.isInitialized s;
        Loopback.rmsInterval := Some timer;
        Loopback.lastPcmBuffer := None |},
     [ipcMain_on handlerId]
     ++ opt_call clearInterval (Loopback.rmsInterval s)
     ++ [setInterval timer;
         console_log "[LoopbackCapture] Started loopback capture"]).
Proof.
  intros Q.
  destruct s as [ic hw ph cb init interval lastBuffer].
  destruct interval; loopback_run throws; rewrite ?Q; reflexivity.
Qed.





(** ** Starting the microphone *)

Lemma try_catch_Ok {S A} (m : M S A) (handler : error -> M S A) (s s1 : S)
    (a : A) (t1 : list call) :
  m s = (Ok a, s1, t1) -> try_catch m handler s = (Ok a, s1, t1).
Proof. intros E. unfold try_catch. rewrite E. reflexivity. Qed.

Lemma try_catch_Throw {S A} (m : M S A) (handler : error -> M S A) (s s1 : S)
    (e : error) (t1 : list call) :
  m s = (Throw e, s1, t1) -> try_catch m handler s = after t1 (handler e s1).
Proof. intros E. unfold try_catch, after. rewrite E. reflexivity. Qed.

Lemma bind_request {S B} (fails : operation -> bool) (op : operation)
    (k : unit -> M S B) (s : S) :
  bind (request fails op) k s
  = if fails op then (Throw (Error "platform"), s, []) else k tt s.
Proof.
  unfold bind, request. destruct (fails op); [ reflexivity | ].
  destruct (k tt s) as [[r s2] t2]. reflexivity.
Qed.

Lemma bind_throw_now {S A B} (e : error) (k : A -> M S B) (s : S) :
  bind (throw e) k s = (Throw e, s, []).
Proof. reflexivity. Qed.

Lemma start_begin_run (throws : call -> bool) (options : MicCaptureOptions)
    (w : MicWorld) :
  start_begin throws options w
  = (Ok tt,
     {| this := with_options options
                  (if isCapturing (this w) then stopped (this w) else this w);
        mem := mem w |},
     if isCapturing (this w) then release_calls (this w) else []).
Proof.
  unfold start_begin. rewrite bind_get.
  destruct (isCapturing (this w)).
  - rewrite (bind_run _ _ _ _ _ _ (stop_run throws w)).
    rewrite !bind_update. unfold update, modify. cbn [this mem after].
    rewrite app_nil_r. reflexivity.
  - rewrite bind_ret, !bind_update. unfold update, modify. cbn [this mem].
    destruct w. reflexivity.
Qed.

Lemma start_catch_run (throws : call -> bool) (e : error) (w : MicWorld) :
  start_catch throws e w
  = (Throw e,
     {| this := set_isCapturing (isCapturing (this w)) (stopped (this w));
        mem := mem w |},
     release_calls (this w)).
Proof.
  unfold start_catch. rewrite (bind_run _ _ _ _ _ _ (cleanup_run throws w)).
  unfold throw, after. rewrite app_nil_r. reflexivity.
Qed.

Lemma context_catch_run (e : error) (w : MicWorld) :
  context_catch e w
  = (Throw (Error ("Failed to initialize audio context: "
                   ++ message_or_error e)),
     {| this := set_mediaStream None (this w); mem := mem w |},
     console_error "[MicCapture] Failed to create AudioContext:"
     :: match mediaStream (this w) with
        | Some ms => map track_stop (getTracks ms)
        | None => []
        end).
Proof.
  unfold context_catch. rewrite bind_invoke, bind_get.
  destruct w as [[ac ms sn an sg ic si ol op tr sb spf sr] h].
  cbn [this mediaStream mem]. destruct ms as [ms |].
  - match goal with
    | |- context [bind (bind ?m ?k) _ ?s] =>
        assert (bind m k s
                = (Ok tt,
                   {| this := set_mediaStream None (this s); mem := mem s |},
                   map track_stop (getTracks ms))) as E
    end.
    { rewrite (bind_run _ _ _ _ _ _ (forEach_invoke track_stop _ _)).
      unfold update, modify, after. rewrite app_nil_r. reflexivity. }
    rewrite (bind_run _ _ _ _ _ _ E). unfold throw. cbn.
    rewrite !app_nil_r. reflexivity.
  - rewrite bind_ret. reflexivity.
Qed.

Lemma start_context_run (throws : call -> bool) (fails : operation -> bool)
    (g : grant) (o : MicCapture) (h : heap) :
  start_context throws fails g {| this := o; mem := h |}
  = if fails new_AudioContext
    then
      (Throw (Error "Failed to initialize audio context: platform"),
       {| this := set_isCapturing (isCapturing o) (stopped o); mem := h |},
       console_error "[MicCapture] Failed to create AudioContext:"
       :: map track_stop (getTracks (granted_stream g))
       ++ release_calls (set_mediaStream None o))
    else
      (Ok tt,
       {| this := set_audioContext (Some (granted_context g))
                    (set_mediaStream (Some (granted_stream g)) o);
          mem := h |},
       []).
Proof.
  unfold start_context.
  destruct (fails new_AudioContext) eqn:F.
  - erewrite try_catch_Throw.
    2:{ rewrite bind_update. cbn [this mem].
        erewrite try_catch_Throw.
        2:{ rewrite bind_request, F. reflexivity. }
        rewrite context_catch_run. reflexivity. }
    rewrite start_catch_run. cbn [this mem after app].
    destruct o. reflexivity.
  - erewrite try_catch_Ok; [ reflexivity | ].
    rewrite bind_update. cbn [this mem].
    erewrite try_catch_Ok; [ reflexivity | ].
    rewrite bind_request, F. reflexivity.
Qed.

Lemma read_sampleRate_run (g : grant) (o : MicCapture) (h : heap) :
  read_sampleRate g {| this := o; mem := h |}
  = match audioContext o with
    | Some _ =>
        (Ok tt,
         {| this := set_sourceSampleRate (Fin (context_sampleRate g)) o;
            mem := h |},
         [])
    | None =>
        (Throw (Error "Failed to initialize audio context: TypeError"),
         {| this := set_mediaStream None o; mem := h |},
         console_error "[MicCapture] Failed to create AudioContext:"
         :: match mediaStream o with
            | Some ms => map track_stop (getTracks ms)
            | None => []
            end)
    end.
Proof.
  unfold read_sampleRate. destruct (audioContext o) eqn:C.
  - erewrite try_catch_Ok; [ reflexivity | ].
    rewrite bind_get. cbn [this]. rewrite C. reflexivity.
  - erewrite try_catch_Throw.
    2:{ rewrite bind_get. cbn [this]. rewrite C. reflexivity. }
    rewrite context_catch_run. reflexivity.
Qed.

Lemma log_cleanup_throw_run (throws : call -> bool) (message : string)
    (e : error) (w : MicWorld) :
  (invoke (console_error message) ;; cleanup throws ;;
   (throw e : M MicWorld unit)) w
  = (Throw e,
     {| this := set_isCapturing (isCapturing (this w)) (stopped (this w));
        mem := mem w |},
     console_error message :: release_calls (this w)).
Proof.
  rewrite bind_invoke, (bind_run _ _ _ _ _ _ (cleanup_run throws w)).
  unfold throw, after. rewrite app_nil_r. reflexivity.
Qed.

Lemma create_source_run (throws : call -> bool) (fails : operation -> bool)
    (g : grant) (o : MicCapture) (h : heap) :
  create_source throws fails g {| this := o; mem := h |}
  = if fails createMediaStreamSource
    then
      (Throw (Error "Failed to create audio source: platform"),
       {| this := set_isCapturing (isCapturing o) (stopped o); mem := h |},
       console_error "[MicCapture] Failed to create MediaStreamSource:"
       :: release_calls o)
    else
      (Ok tt, {| this := set_sourceNode (Some (granted_source g)) o;
                 mem := h |}, []).
Proof.
  unfold create_source. destruct (fails createMediaStreamSource) eqn:F.
  - erewrite try_catch_Throw.
    2:{ rewrite bind_request, F. reflexivity. }
    rewrite log_cleanup_throw_run. reflexivity.
  - erewrite try_catch_Ok; [ reflexivity | ].
    rewrite bind_request, F. reflexivity.
Qed.

(** The object while [create_analyser] is at work. *)
Lemma create_analyser_run (throws : call -> bool) (fails : operation -> bool)
    (g : grant) (o : MicCapture) (h : heap) :
  let o1 := set_analyserNode (Some (granted_analyser g)) o in
  let o2 := set_silentGain (Some (granted_gain g)) o1 in
  let o3 :=
    set_samplesPerFrame
      (start_samplesPerFrame (rate_value (sourceSampleRate o))) o2 in
  let failed (at_ : MicCapture) :=
    (Throw (Error "Failed to create audio analyser: platform"),
     {| this := set_isCapturing (isCapturing o) (stopped at_); mem := h |},
     console_error "[MicCapture] Failed to create AnalyserNode:"
     :: release_calls at_) in
  create_analyser throws fails g {| this := o; mem := h |}
  = if fails createAnalyser then failed o
    else if fails createGain then failed o1
    else if fails (connect (granted_source g))
            || fails (connect (granted_analyser g))
            || fails (connect (granted_gain g))
    then failed o3
    else (Ok tt, {| this := o3; mem := h |}, []).
Proof.
  intros o1 o2 o3 failed. unfold create_analyser.
  destruct (fails createAnalyser) eqn:F1.
  { erewrite try_catch_Throw.
    2:{ rewrite bind_request, F1. reflexivity. }
    rewrite log_cleanup_throw_run. reflexivity. }
  destruct (fails createGain) eqn:F2.
  { erewrite try_catch_Throw.
    2:{ rewrite bind_request, F1, bind_update, bind_request, F2.
        reflexivity. }
    rewrite log_cleanup_throw_run. reflexivity. }
  destruct (fails (connect (granted_source g))
            || fails (connect (granted_analyser g))
            || fails (connect (granted_gain g))) eqn:F3.
  - erewrite try_catch_Throw.
    2:{ rewrite bind_request, F1, bind_update, bind_request, F2, bind_update,
          bind_get, bind_update, bind_request.
        cbn [this mem].
        instantiate (1 := []). instantiate (1 := {| this := o3; mem := h |}).
        instantiate (1 := Error "platform").
        destruct (fails (connect (granted_source g))); [ reflexivity | ].
        rewrite bind_request.
        destruct (fails (connect (granted_analyser g))); [ reflexivity | ].
        unfold request.
        destruct (fails (connect (granted_gain g)));
          [ reflexivity | discriminate ]. }
    rewrite log_cleanup_throw_run. reflexivity.
  - apply orb_false_iff in F3. destruct F3 as [F3 F5].
    apply orb_false_iff in F3. destruct F3 as [F3 F4].
    erewrite try_catch_Ok; [ reflexivity | ].
    rewrite bind_request, F1, bind_update, bind_request, F2, bind_update,
      bind_get, bind_update, bind_request, F3, bind_request, F4.
    unfold request. rewrite F5. reflexivity.
Qed.

Lemma startSampling_run (timer : nat) (w : MicWorld) :
  startSampling timer w
  = (Ok tt,
     {| this := set_sampleIntervalId (Some timer) (this w); mem := mem w |},
     opt_call clearInterval (sampleIntervalId (this w))
     ++ [setInterval timer]).
Proof.
  unfold startSampling. rewrite bind_get.
  destruct (sampleIntervalId (this w)) as [old |];
    [ rewrite !bind_invoke | rewrite bind_ret, bind_invoke ];
    reflexivity.
Qed.

Lemma start_catch_released (throws : call -> bool) (e : error)
    (ic : bool) (o : MicCapture) (h : heap) (calls : list call) :
  after calls
    (start_catch throws e
       {| this := set_isCapturing ic (stopped o); mem := h |})
  = (Throw e, {| this := set_isCapturing ic (stopped o); mem := h |}, calls).
Proof.
  rewrite start_catch_run. cbn. rewrite app_nil_r. reflexivity.
Qed.

Lemma start_graph_run (throws : call -> bool) (fails : operation -> bool)
    (g : grant) (o : MicCapture) (h : heap) :
  let o0 := set_sourceSampleRate (Fin (context_sampleRate g)) o in
  let o1 := set_sourceNode (Some (granted_source g)) o0 in
  let o2 := set_analyserNode (Some (granted_analyser g)) o1 in
  let o3 := set_silentGain (Some (granted_gain g)) o2 in
  let o4 :=
    set_samplesPerFrame (start_samplesPerFrame (context_sampleRate g)) o3 in
  let failed (message logged : string) (at_ : MicCapture) :=
    (Throw (Error message),
     {| this := set_isCapturing (isCapturing o) (stopped at_); mem := h |},
     console_error logged :: release_calls at_) in
  start_graph throws fails g {| this := o; mem := h |}
  = match audioContext o with
    | None =>
        (Throw (Error "Failed to initialize audio context: TypeError"),
         {| this := set_isCapturing (isCapturing o) (stopped o); mem := h |},
         console_error "[MicCapture] Failed to create AudioContext:"
         :: match mediaStream o with
            | Some ms => map track_stop (getTracks ms)
            | None => []
            end
         ++ release_calls (set_mediaStream None o))
    | Some _ =>
        if fails createMediaStreamSource
        then failed "Failed to create audio source: platform"%string
               "[MicCapture] Failed to create MediaStreamSource:"%string o0
        else if fails createAnalyser
        then failed "Failed to create audio analyser: platform"%string
               "[MicCapture] Failed to create AnalyserNode:"%string o1
        else if fails createGain
        then failed "Failed to create audio analyser: platform"%string
               "[MicCapture] Failed to create AnalyserNode:"%string o2
        else if fails (connect (granted_source g))
                || fails (connect (granted_analyser g))
                || fails (connect (granted_gain g))
        then failed "Failed to create audio analyser: platform"%string
               "[MicCapture] Failed to create AnalyserNode:"%string o4
        else
          (Ok tt,
           {| this := set_isCapturing true
                        (set_sampleIntervalId (Some (granted_timer g))
                           (set_sampleBuffer [] o4));
              mem := h |},
           opt_call clearInterval (sampleIntervalId o)
           ++ [setInterval (granted_timer g);
               console_log "[MicCapture] Started successfully"])
    end.
Proof.
  intros o0 o1 o2 o3 o4 failed. unfold start_graph.
  pose proof (read_sampleRate_run g o h) as R.
  destruct (audioContext o) as [c |] eqn:C.
  2:{ erewrite try_catch_Throw by (erewrite bind_throw by exact R; reflexivity).
      rewrite start_catch_run. cbn [this mem after app].
      destruct o. reflexivity. }
  pose proof (create_source_run throws fails g o0 h) as S.
  destruct (fails createMediaStreamSource).
  { erewrite try_catch_Throw.
    2:{ rewrite (bind_run _ _ _ _ _ _ R), after_nil.
        erewrite bind_throw by exact S. reflexivity. }
    apply start_catch_released. }
  pose proof (create_analyser_run throws fails g o1 h) as A.
  cbv zeta in A.
  change (rate_value (sourceSampleRate o1)) with (context_sampleRate g) in A.
  fold o2 o3 o4 in A.
  destruct (fails createAnalyser).
  { erewrite try_catch_Throw.
    2:{ rewrite (bind_run _ _ _ _ _ _ R), after_nil.
        rewrite (bind_run _ _ _ _ _ _ S), after_nil.
        erewrite bind_throw by exact A. reflexivity. }
    apply start_catch_released. }
  destruct (fails createGain).
  { erewrite try_catch_Throw.
    2:{ rewrite (bind_run _ _ _ _ _ _ R), after_nil.
        rewrite (bind_run _ _ _ _ _ _ S), after_nil.
        erewrite bind_throw by exact A. reflexivity. }
    apply start_catch_released. }
  destruct (fails (connect (granted_source g))
            || fails (connect (granted_analyser g))
            || fails (connect (granted_gain g))).
  { erewrite try_catch_Throw.
    2:{ rewrite (bind_run _ _ _ _ _ _ R), after_nil.
        rewrite (bind_run _ _ _ _ _ _ S), after_nil.
        erewrite bind_throw by exact A. reflexivity. }
    apply start_catch_released. }
  erewrite try_catch_Ok; [ reflexivity | ].
  rewrite (bind_run _ _ _ _ _ _ R), after_nil.
  rewrite (bind_run _ _ _ _ _ _ S), after_nil.
  rewrite (bind_run _ _ _ _ _ _ A), after_nil.
  rewrite bind_update.
  rewrite (bind_run _ _ _ _ _ _ (startSampling_run _ _)).
  rewrite bind_update. unfold invoke. cbn [this mem after].
  rewrite <- app_assoc. reflexivity.
Qed.

Lemma start_resume_rejected_run (throws : call -> bool) (e : error)
    (o : MicCapture) (h : heap) :
  start_resume_rejected throws e {| this := o; mem := h |}
  = (Throw (Error ("Failed to initialize audio context: "
                   ++ message_or_error e)),
     {| this := set_isCapturing (isCapturing o) (stopped o); mem := h |},
     console_error "[MicCapture] Failed to create AudioContext:"
     :: match mediaStream o with
        | Some ms => map track_stop (getTracks ms)
        | None => []
        end
     ++ release_calls (set_mediaStream None o)).
Proof.
  unfold start_resume_rejected.
  erewrite try_catch_Throw by apply context_catch_run.
  rewrite start_catch_run. cbn [this mem after app].
  destruct o. reflexivity.
Qed.

Lemma released_stopped (ic : bool) (o : MicCapture) :
  ic = false -> released (set_isCapturing ic (stopped o)).
Proof. intros ->. repeat split. Qed.

Lemma In_release_track (o : MicCapture) (ms : MediaStream) (track : nat) :
  mediaStream o = Some ms -> In track (getTracks ms) ->
  In (track_stop track) (release_calls o).
Proof.
  intros E I. unfold release_calls. rewrite E.
  do 4 (apply in_or_app; right). apply in_or_app. left.
  apply in_map, I.
Qed.

Lemma In_release_context (o : MicCapture) (c : nat) :
  audioContext o = Some c -> In (audioContext_close c) (release_calls o).
Proof.
  intros E. unfold release_calls. rewrite E.
  do 5 (apply in_or_app; right). left. reflexivity.
Qed.

Lemma release_calls_not_setInterval (o : MicCapture) :
  Forall not_setInterval (release_calls o).
Proof.
  unfold release_calls.
  repeat (apply Forall_app; split);
    try (match goal with
         | |- Forall _ (opt_call _ ?x) => destruct x
         end; repeat constructor).
  destruct (mediaStream o) as [ms |]; [ | constructor ].
  apply Forall_map, Forall_forall. intros t _. exact I.
Qed.

Ltac find_call :=
  solve [ apply in_map; assumption
        | eapply In_release_track; [ reflexivity | assumption ]
        | eapply In_release_context; reflexivity
        | left; reflexivity
        | right; find_call
        | apply in_or_app; left; find_call
        | apply in_or_app; right; find_call ].

Ltac no_setInterval :=
  repeat first
    [ assumption
    | apply release_calls_not_setInterval
    | apply Forall_nil
    | apply Forall_app; split
    | apply Forall_cons; [ exact I | ]
    | apply Forall_map, Forall_forall; intros ? _; exact I
    | match goal with
      | |- Forall _ (if ?b then _ else _) => destruct b
      end ].

Lemma start_outcome (throws : call -> bool)
    (fails : operation -> bool) (options : MicCaptureOptions) (g : grant)
    (w : MicWorld) :
  exists r o' calls,
    start throws fails options g w
    = (r, {| this := o'; mem := mem w |}, calls)
    /\ (all_granted fails g = true ->
        r = Ok tt /\ o' = brought_up options g)
    /\ (all_granted fails g = false ->
        threw r /\ released o'
        /\ Forall not_setInterval calls
        /\ (fails getUserMedia = false ->
            forall track,
              In track (getTracks (granted_stream g)) ->
              In (track_stop track) calls)
        /\ (fails getUserMedia = false ->
            fails new_AudioContext = false ->
            In (audioContext_close (granted_context g)) calls)).
Proof.
  destruct w as [o h]. cbn [mem]. unfold start.
  rewrite (bind_run _ _ _ _ _ _ (start_begin_run throws options _)).
  cbn [this mem].
  set (ob := with_options options (if isCapturing o then stopped o else o)).
  set (pre := if isCapturing o then release_calls o else []).
  assert (isCapturing ob = false) as Off.
  { unfold ob. destruct (isCapturing o) eqn:E; [ reflexivity | exact E ]. }
  assert (Forall not_setInterval pre) as Pre by (unfold pre; no_setInterval).
  unfold all_granted.
  destruct (fails getUserMedia) eqn:G; cbn [negb andb].
  { rewrite start_catch_run. cbn [this mem after].
    eexists. eexists. eexists. split; [ reflexivity | ].
    split; [ discriminate | ]. intros _.
    split; [ eexists; reflexivity | ].
    split; [ apply released_stopped, Off | ].
    split; [ no_setInterval | ].
    split; discriminate. }
  pose proof (start_context_run throws fails g ob h) as Cx.
  destruct (fails new_AudioContext) eqn:N; cbn [negb andb].
  { rewrite (bind_throw _ _ _ _ _ _ Cx). cbn [after].
    eexists. eexists. eexists. split; [ reflexivity | ].
    split; [ discriminate | ]. intros _.
    split; [ eexists; reflexivity | ].
    split; [ apply released_stopped, Off | ].
    split; [ no_setInterval | ].
    split; [ intros _ track T; find_call | discriminate ]. }
  rewrite (bind_run _ _ _ _ _ _ Cx), after_nil.
  set (oc := set_audioContext (Some (granted_context g))
               (set_mediaStream (Some (granted_stream g)) ob)).
  assert (isCapturing oc = false) as Offc by exact Off.
  destruct (context_suspended g && fails audioContext_resume) eqn:Re;
    cbn [negb andb].
  { apply andb_true_iff in Re. destruct Re as [-> ->].
    rewrite (bind_throw _ _ _ _ _ _
               (start_resume_rejected_run throws _ oc h)).
    cbn [after].
    eexists. eexists. eexists. split; [ reflexivity | ].
    split; [ discriminate | ]. intros _.
    split; [ eexists; reflexivity | ].
    split; [ apply released_stopped, Offc | ].
    split; [ no_setInterval | ].
    split; [ intros _ track T; find_call | intros _ _; find_call ]. }
  assert ((if context_suspended g
           then
             if fails audioContext_resume
             then start_resume_rejected throws (Error "resume")
             else ret tt
           else ret tt) {| this := oc; mem := h |}
          = (Ok tt, {| this := oc; mem := h |}, [])) as Rs.
  { destruct (context_suspended g); [ | reflexivity ].
    destruct (fails audioContext_resume); [ discriminate | reflexivity ]. }
  rewrite (bind_run _ _ _ _ _ _ Rs), after_nil.
  pose proof (start_graph_run throws fails g oc h) as Gr.
  cbv zeta in Gr. cbn [audioContext oc set_audioContext] in Gr.
  rewrite Gr. clear Gr Rs Cx.
  destruct (fails createMediaStreamSource); cbn [negb andb].
  { cbn [after].
    eexists. eexists. eexists. split; [ reflexivity | ].
    split; [ discriminate | ]. intros _.
    split; [ eexists; reflexivity | ].
    split; [ apply released_stopped, Offc | ].
    split; [ no_setInterval | ].
    split; [ intros _ track T; find_call | intros _ _; find_call ]. }
  destruct (fails createAnalyser); cbn [negb andb].
  { cbn [after].
    eexists. eexists. eexists. split; [ reflexivity | ].
    split; [ discriminate | ]. intros _.
    split; [ eexists; reflexivity | ].
    split; [ apply released_stopped, Offc | ].
    split; [ no_setInterval | ].
    split; [ intros _ track T; find_call | intros _ _; find_call ]. }
  destruct (fails createGain); cbn [negb andb].
  { cbn [after].
    eexists. eexists. eexists. split; [ reflexivity | ].
    split; [ discriminate | ]. intros _.
    split; [ eexists; reflexivity | ].
    split; [ apply released_stopped, Offc | ].
    split; [ no_setInterval | ].
    split; [ intros _ track T; find_call | intros _ _; find_call ]. }
  destruct (fails (connect (granted_source g))
            || fails (connect (granted_analyser g))
            || fails (connect (granted_gain g))); cbn [negb andb].
  { cbn [after].
    eexists. eexists. eexists. split; [ reflexivity | ].
    split; [ discriminate | ]. intros _.
    split; [ eexists; reflexivity | ].
    split; [ apply released_stopped, Offc | ].
    split; [ no_setInterval | ].
    split; [ intros _ track T; find_call | intros _ _; find_call ]. }
  cbn [after].
  eexists. eexists. eexists. split; [ reflexivity | ].
  split; [ | discriminate ]. intros _. split; [ reflexivity | ].
  unfold oc, ob, with_options, brought_up.
  destruct (isCapturing o); reflexivity.
Qed.

(** X9: [start] is all or nothing.  Whatever state the object is in and
    whichever of its requests the platform refuses, a call of [start] that
    nothing interleaves with either returns, exactly when every request is
    granted, and then the object is capturing with the stream, context,
    nodes and timer it was granted, an empty buffer and the callbacks and
    rate of its options; or it throws, and then the object holds nothing,
    is switched off and has no callbacks, no timer was started, every track
    of the stream it had obtained has been stopped and the context it had
    created has been closed. *)
Theorem start_all_or_nothing (throws : call -> bool)
    (fails : operation -> bool) (options : MicCaptureOptions) (g : grant)
    (w : MicWorld) :
  exists r o' calls,
    start throws fails options g w
    = (r, {| this := o'; mem := mem w |}, calls)
    /\ (all_granted fails g = true ->
        r = Ok tt /\ o' = brought_up options g)
    /\ (all_granted fails g = false ->
        threw r /\ released o'
        /\ Forall not_setInterval calls
        /\ (fails getUserMedia = false ->
            forall track,
              In track (getTracks (granted_stream g)) ->
              In (track_stop track) calls)
        /\ (fails getUserMedia = false ->
            fails new_AudioContext = false ->
            In (audioContext_close (granted_context g)) calls)).
Proof. exact (start_outcome throws fails options g w). Qed.

(** ** What the sampling code calls *)

Section Keeps.

Variable invariant : MicCapture -> Prop.
Variable allowed : call -> Prop.

Lemma keeps_ret {A} (a : A) : keeps invariant allowed (ret a).
Proof.
  intros w r w' calls I E. injection E as <- <- <-.
  split; [ exact I | constructor ].
Qed.

Lemma keeps_bind {A B} (m : M MicWorld A) (k : A -> M MicWorld B) :
  keeps invariant allowed m ->
  (forall a, keeps invariant allowed (k a)) ->
  keeps invariant allowed (bind m k).
Proof.
  intros Km Kk w r w' calls I E. unfold bind in E.
  destruct (m w) as [[[a | e] w1] t1] eqn:Em.
  - destruct (Km w _ _ _ I Em) as [I1 P1].
    destruct (k a w1) as [[r2 w2] t2] eqn:Ek.
    destruct (Kk a w1 _ _ _ I1 Ek) as [I2 P2].
    injection E as <- <- <-. split; [ exact I2 | ].
    apply Forall_app. split; assumption.
  - injection E as <- <- <-. exact (Km w _ _ _ I Em).
Qed.

Lemma keeps_get {A} (f : MicCapture -> A) : keeps invariant allowed (get f).
Proof.
  intros w r w' calls I E. injection E as <- <- <-.
  split; [ exact I | constructor ].
Qed.

(** A field that the invariant determines. *)
Lemma keeps_get_known {A B} (f : MicCapture -> A) (a : A)
    (k : A -> M MicWorld B) :
  (forall o, invariant o -> f o = a) ->
  keeps invariant allowed (k a) ->
  keeps invariant allowed (bind (get f) k).
Proof.
  intros Known K w r w' calls I E. rewrite bind_get, (Known _ I) in E.
  exact (K w _ _ _ I E).
Qed.

Lemma keeps_update (f : MicCapture -> MicCapture) :
  (forall o, invariant o -> invariant (f o)) ->
  keeps invariant allowed (update f).
Proof.
  intros F w r w' calls I E. injection E as <- <- <-.
  split; [ apply F, I | constructor ].
Qed.

Lemma keeps_new_array (a : typedArray) :
  keeps invariant allowed (new_array a).
Proof.
  intros w r w' calls I E. injection E as <- <- <-.
  split; [ exact I | constructor ].
Qed.

Lemma keeps_read {A} (f : MicWorld -> A) : keeps invariant allowed (read f).
Proof.
  intros w r w' calls I E. injection E as <- <- <-.
  split; [ exact I | constructor ].
Qed.

Lemma keeps_float32 (l : nat) : keeps invariant allowed (float32 l).
Proof. apply keeps_read. Qed.

Lemma keeps_int16 (l : nat) : keeps invariant allowed (int16 l).
Proof. apply keeps_read. Qed.

Lemma keeps_lift {A} (r : result A) : keeps invariant allowed (lift r).
Proof.
  intros w r' w' calls I E. injection E as <- <- <-.
  split; [ exact I | constructor ].
Qed.

Lemma keeps_invoke (c : call) :
  allowed c -> keeps invariant allowed (invoke c).
Proof.
  intros P w r w' calls I E. injection E as <- <- <-.
  split; [ exact I | repeat constructor; exact P ].
Qed.

Lemma keeps_perform (throws : call -> bool) (c : call) :
  allowed c -> keeps invariant allowed (perform throws c).
Proof.
  intros P w r w' calls I E. unfold perform in E.
  destruct (throws c); injection E as <- <- <-;
    (split; [ exact I | repeat constructor; exact P ]).
Qed.

Lemma keeps_try_catch {A} (m : M MicWorld A)
    (handler : error -> M MicWorld A) :
  keeps invariant allowed m ->
  (forall e, keeps invariant allowed (handler e)) ->
  keeps invariant allowed (try_catch m handler).
Proof.
  intros Km Kh w r w' calls I E. unfold try_catch in E.
  destruct (m w) as [[[a | e] w1] t1] eqn:Em.
  - injection E as <- <- <-. exact (Km w _ _ _ I Em).
  - destruct (Km w _ _ _ I Em) as [I1 P1].
    destruct (handler e w1) as [[r2 w2] t2] eqn:Eh.
    destruct (Kh e w1 _ _ _ I1 Eh) as [I2 P2].
    injection E as <- <- <-. split; [ exact I2 | ].
    apply Forall_app. split; assumption.
Qed.

Lemma keeps_attempt {A} (m : M MicWorld A) :
  keeps invariant allowed m -> keeps invariant allowed (attempt m).
Proof.
  intros Km w r w' calls I E. unfold attempt in E.
  destruct (m w) as [[r1 w1] t1] eqn:Em.
  injection E as <- <- <-. exact (Km w _ _ _ I Em).
Qed.

Lemma keeps_forEach {A} (f : A -> M MicWorld unit) :
  (forall a, keeps invariant allowed (f a)) ->
  forall l, keeps invariant allowed (forEach f l).
Proof.
  intros Kf. induction l as [| a l IH]; cbn [forEach].
  - apply keeps_ret.
  - apply keeps_bind; [ apply Kf | intros _; exact IH ].
Qed.

End Keeps.

Create HintDb keeps.
#[local] Hint Resolve keeps_ret keeps_get keeps_new_array keeps_float32
  keeps_int16 keeps_lift keeps_read : keeps.

Ltac keeps_step :=
  first
    [ solve [ auto with keeps ]
    | apply keeps_invoke; exact I
    | apply keeps_perform; exact I
    | apply keeps_update; intros ? [? ?]; split; assumption
    | apply keeps_update; intros ? ?; exact I
    | apply keeps_bind; [ | intros ? ]
    | apply keeps_try_catch; [ | intros ? ]
    | apply keeps_attempt
    | match goal with
      | |- keeps _ _ (if ?b then _ else _) => destruct b
      | |- keeps _ _ (match ?x with _ => _ end) => destruct x
      end ].

Lemma keeps_downsample_array (invariant : MicCapture -> Prop)
    (allowed : call -> Prop) (sourceBuffer : nat) (s t : number) :
  keeps invariant allowed (downsample_array sourceBuffer s t).
Proof. unfold downsample_array. repeat keeps_step. Qed.

Lemma keeps_floatToInt16_array (invariant : MicCapture -> Prop)
    (allowed : call -> Prop) (floatBuffer : nat) :
  keeps invariant allowed (floatToInt16_array floatBuffer).
Proof. unfold floatToInt16_array. repeat keeps_step. Qed.

#[local] Hint Resolve keeps_downsample_array keeps_floatToInt16_array : keeps.

Section Registered.

Variable throws : call -> bool.
Variable onLevelOption : option nat.
Variable onPcmFrameOption : option nat.

Lemma registered_encode_and_call (downsampled : nat) :
  keeps (callbacks_are onLevelOption onPcmFrameOption)
    (registered onLevelOption onPcmFrameOption)
    (encode_and_call throws downsampled).
Proof.
  unfold encode_and_call.
  apply keeps_bind; [ solve [ repeat keeps_step ] | intros tried ].
  destruct tried as [pcm16 | e]; [ | keeps_step ].
  apply keeps_bind; [ solve [ repeat keeps_step ] | intros encoded ].
  destruct (length encoded =? 0)%nat; [ keeps_step | ].
  apply (keeps_get_known _ _ _ onPcmFrameOption);
    [ intros o [_ E]; exact E | ].
  destruct onPcmFrameOption as [cb |] eqn:E; [ | keeps_step ].
  apply keeps_try_catch; [ | intros _; keeps_step ].
  apply keeps_bind; [ solve [ repeat keeps_step ] | intros pcmCopy ].
  apply keeps_perform. unfold registered. congruence.
Qed.

Lemma registered_deliver (frameSamples : nat) :
  keeps (callbacks_are onLevelOption onPcmFrameOption)
    (registered onLevelOption onPcmFrameOption)
    (deliver throws frameSamples).
Proof.
  pose proof registered_encode_and_call.
  unfold deliver. repeat keeps_step.
Qed.

Lemma registered_processAudioFrame (data : list number) :
  keeps (callbacks_are onLevelOption onPcmFrameOption)
    (registered onLevelOption onPcmFrameOption)
    (processAudioFrame throws data).
Proof.
  pose proof registered_deliver as D.
  unfold processAudioFrame.
  do 2 (apply keeps_bind; [ solve [ repeat keeps_step ] | intros ? ]).
  match goal with |- keeps _ _ (if ?b then _ else _) => destruct b end;
    [ keeps_step | ].
  do 2 (apply keeps_bind; [ solve [ repeat keeps_step ] | intros ? ]).
  match goal with |- keeps _ _ (match ?x with _ => _ end) => destruct x end;
    [ | keeps_step ].
  apply (keeps_get_known _ _ _ onLevelOption);
    [ intros o [E _]; exact E | ].
  apply keeps_bind.
  - destruct onLevelOption as [cb |] eqn:E; [ | keeps_step ].
    apply keeps_try_catch; [ | intros _; keeps_step ].
    apply keeps_perform. unfold registered. congruence.
  - intros _. repeat keeps_step.
Qed.

Lemma registered_samplingHandler (data : list number) :
  keeps (callbacks_are onLevelOption onPcmFrameOption)
    (registered onLevelOption onPcmFrameOption)
    (samplingHandler throws data).
Proof.
  pose proof (registered_processAudioFrame data).
  unfold samplingHandler. repeat keeps_step.
Qed.

End Registered.

(** X10: the sampling code calls nobody but the client.  Over any number
    of timer ticks, from any state of the object and on any data, every call
    that leaves the module is a call of the [onLevel] or of the [onPcmFrame]
    closure that is registered in the object, or an error message on the
    console; and the registered closures are the same afterwards.  With no
    closure registered, nothing but console messages leaves the module. *)
Theorem sampling_calls_registered_callbacks_only (throws : call -> bool)
    (blocks : list (list number)) (w : MicWorld) :
  exists r w' calls,
    forEach (samplingHandler throws) blocks w = (r, w', calls)
    /\ onLevelCallback (this w') = onLevelCallback (this w)
    /\ onPcmFrameCallback (this w') = onPcmFrameCallback (this w)
    /\ Forall (registered (onLevelCallback (this w))
                 (onPcmFrameCallback (this w))) calls.
Proof.
  destruct (forEach (samplingHandler throws) blocks w) as [[r w'] calls] eqn:E.
  exists r, w', calls. split; [ reflexivity | ].
  destruct (keeps_forEach _ _ _
              (registered_samplingHandler throws
                 (onLevelCallback (this w)) (onPcmFrameCallback (this w)))
              blocks w r w' calls)
    as [[L P] F]; [ split; reflexivity | exact E | ].
  auto.
Qed.

(** ** A stop that arrives while start is waiting *)

Lemma all_granted_inv (fails : operation -> bool) (g : grant) :
  all_granted fails g = true ->
  fails getUserMedia = false
  /\ fails new_AudioContext = false
  /\ context_suspended g && fails audioContext_resume = false
  /\ fails createMediaStreamSource = false
  /\ fails createAnalyser = false
  /\ fails createGain = false
  /\ fails (connect (granted_source g))
     || fails (connect (granted_analyser g))
     || fails (connect (granted_gain g)) = false.
Proof.
  unfold all_granted. intros G.
  repeat (apply andb_true_iff in G; destruct G as [G ?]).
  repeat split; apply negb_true_iff; assumption.
Qed.

Lemma start_context_granted (throws : call -> bool)
    (fails : operation -> bool) (g : grant) (o : MicCapture) (h : heap) :
  fails new_AudioContext = false ->
  start_context throws fails g {| this := o; mem := h |}
  = (Ok tt,
     {| this := set_audioContext (Some (granted_context g))
                  (set_mediaStream (Some (granted_stream g)) o);
        mem := h |},
     []).
Proof. intros N. rewrite start_context_run, N. reflexivity. Qed.

Lemma start_graph_granted (throws : call -> bool)
    (fails : operation -> bool) (g : grant) (o : MicCapture) (h : heap)
    (c : nat) :
  all_granted fails g = true ->
  audioContext o = Some c ->
  start_graph throws fails g {| this := o; mem := h |}
  = (Ok tt,
     {| this :=
          set_isCapturing true
            (set_sampleIntervalId (Some (granted_timer g))
               (set_sampleBuffer []
                  (set_samplesPerFrame
                     (start_samplesPerFrame (context_sampleRate g))
                     (set_silentGain (Some (granted_gain g))
                        (set_analyserNode (Some (granted_analyser g))
                           (set_sourceNode (Some (granted_source g))
                              (set_sourceSampleRate
                                 (Fin (context_sampleRate g)) o)))))));
        mem := h |},
     opt_call clearInterval (sampleIntervalId o)
     ++ [setInterval (granted_timer g);
         console_log "[MicCapture] Started successfully"]).
Proof.
  intros G C.
  destruct (all_granted_inv fails g G) as [_ [_ [_ [F1 [F2 [F3 F4]]]]]].
  rewrite start_graph_run. cbv zeta. rewrite C, F1, F2, F3, F4. reflexivity.
Qed.

(** X11: a [stop] that arrives while [start] is waiting for the
    microphone does not cancel the start.  When every request is granted,
    [start] goes on after the [stop] and brings the capture up: the object
    is capturing and holds the stream, the context, the nodes and the
    timer.  But [stop] has cleared the callbacks that [start] had stored, so
    the capture runs with none: whatever the analyser delivers from then on,
    nothing but console messages leaves the module. *)
Theorem stop_while_start_awaits_the_microphone (throws : call -> bool)
    (fails : operation -> bool) (options : MicCaptureOptions) (g : grant)
    (w : MicWorld) :
  all_granted fails g = true ->
  let up := {| this := brought_up (without_callbacks options) g;
               mem := mem w |} in
  (exists calls,
      (start_begin throws options ;;
       stop throws ;;
       start_context throws fails g ;;
       start_graph throws fails g) w
      = (Ok tt, up, calls))
  /\ (forall blocks, exists r w' calls,
        forEach (samplingHandler throws) blocks up = (r, w', calls)
        /\ Forall console_message calls).
Proof.
  intros G up.
  destruct (all_granted_inv fails g G) as [_ [N _]].
  split.
  - destruct w as [o h].
    rewrite (bind_run _ _ _ _ _ _ (start_begin_run throws options _)).
    rewrite (bind_run _ _ _ _ _ _ (stop_run throws _)).
    cbn [this mem].
    rewrite (bind_run _ _ _ _ _ _
               (start_context_granted throws fails g _ h N)).
    erewrite start_graph_granted; [ | exact G | reflexivity ].
    cbn [after]. eexists. reflexivity.
  - intros blocks.
    destruct (forEach (samplingHandler throws) blocks up)
      as [[r w'] calls] eqn:E.
    exists r, w', calls. split; [ reflexivity | ].
    destruct (keeps_forEach _ _ _
                (registered_samplingHandler throws None None)
                blocks up r w' calls)
      as [_ F]; [ split; reflexivity | exact E | ].
    eapply Forall_impl; [ | exact F ].
    intros c. destruct c; cbn; trivial; discriminate.
Qed.

Lemma stop_while_start_awaits_the_microphone_witness :
  let fails := fun _ : operation => false in
  let quiet := fun _ : call => false in
  let g := {| granted_stream := {| getTracks := [1%nat] |};
              granted_context := 2; context_suspended := false;
              context_sampleRate := 48000; granted_source := 3;
              granted_analyser := 4; granted_gain := 5;
              granted_timer := 6 |} in
  let options := {| options_onLevel := Some 7%nat;
                    options_onPcmFrame := Some 8%nat;
                    options_targetSampleRate := None |} in
  exists calls,
    (start_begin quiet options ;;
     stop quiet ;;
     start_context quiet fails g ;;
     start_graph quiet fails g) {| this := new_MicCapture; mem := [] |}
    = (Ok tt,
       {| this := brought_up (without_callbacks options) g; mem := [] |},
       calls).
Proof.
  cbv zeta.
  apply (stop_while_start_awaits_the_microphone
           (fun _ => false) (fun _ => false)
           {| options_onLevel := Some 7%nat;
              options_onPcmFrame := Some 8%nat;
              options_targetSampleRate := None |}
           {| granted_stream := {| getTracks := [1%nat] |};
              granted_context := 2; context_suspended := false;
              context_sampleRate := 48000; granted_source := 3;
              granted_analyser := 4; granted_gain := 5;
              granted_timer := 6 |}
           {| this := new_MicCapture; mem := [] |}).
  reflexivity.
Defined.

(** X12: a [stop] that arrives while [start] is waiting for the suspended
    context to resume does cancel the start.  When [start] goes on, the
    context is gone, reading its rate fails, and [start] throws; the object
    holds nothing and is switched off, no timer was started, and the [stop]
    has stopped every track of the stream and closed the context. *)
Theorem stop_while_start_awaits_resume (throws : call -> bool)
    (fails : operation -> bool) (options : MicCaptureOptions) (g : grant)
    (w : MicWorld) :
  fails new_AudioContext = false ->
  context_suspended g = true ->
  exists o' calls,
    (start_begin throws options ;;
     start_context throws fails g ;;
     stop throws ;;
     start_graph throws fails g) w
    = (Throw (Error "Failed to initialize audio context: TypeError"),
       {| this := o'; mem := mem w |}, calls)
    /\ released o'
    /\ Forall not_setInterval calls
    /\ (forall track,
           In track (getTracks (granted_stream g)) ->
           In (track_stop track) calls)
    /\ In (audioContext_close (granted_context g)) calls.
Proof.
  intros N _. destruct w as [o h].
  rewrite (bind_run _ _ _ _ _ _ (start_begin_run throws options _)).
  cbn [this mem].
  rewrite (bind_run _ _ _ _ _ _
             (start_context_granted throws fails g _ h N)).
  rewrite (bind_run _ _ _ _ _ _ (stop_run throws _)).
  cbn [this mem]. rewrite start_graph_run. cbv zeta.
  cbn [audioContext stopped mediaStream after app].
  eexists. eexists. split; [ reflexivity | ].
  split; [ apply released_stopped; reflexivity | ].
  split; [ no_setInterval | ].
  split; [ intros track T; find_call | find_call ].
Qed.

Lemma stop_while_start_awaits_resume_witness :
  let fails := fun _ : operation => false in
  let quiet := fun _ : call => false in
  let g := {| granted_stream := {| getTracks := [1%nat] |};
              granted_context := 2; context_suspended := true;
              context_sampleRate := 48000; granted_source := 3;
              granted_analyser := 4; granted_gain := 5;
              granted_timer := 6 |} in
  let options := {| options_onLevel := Some 7%nat;
                    options_onPcmFrame := Some 8%nat;
                    options_targetSampleRate := None |} in
  exists o' calls,
    (start_begin quiet options ;;
     start_context quiet fails g ;;
     stop quiet ;;
     start_graph quiet fails g) {| this := new_MicCapture; mem := [] |}
    = (Throw (Error "Failed to initialize audio context: TypeError"),
       {| this := o'; mem := [] |}, calls)
    /\ released o'.
Proof.
  cbv zeta.
  destruct (stop_while_start_awaits_resume
              (fun _ => false) (fun _ => false)
              {| options_onLevel := Some 7%nat;
                 options_onPcmFrame := Some 8%nat;
                 options_targetSampleRate := None |}
              {| granted_stream := {| getTracks := [1%nat] |};
                 granted_context := 2; context_suspended := true;
                 context_sampleRate := 48000; granted_source := 3;
                 granted_analyser := 4; granted_gain := 5;
                 granted_timer := 6 |}
              {| this := new_MicCapture; mem := [] |}
              eq_refl eq_refl)
    as [o' [calls [E [Rl _]]]].
  exists o', calls. split; assumption.
Defined.

Lemma start_granted_run (throws : call -> bool) (fails : operation -> bool)
    (options : MicCaptureOptions) (g : grant) (o : MicCapture) (h : heap) :
  all_granted fails g = true ->
  start throws fails options g {| this := o; mem := h |}
  = (Ok tt, {| this := brought_up options g; mem := h |},
     (if isCapturing o then release_calls o else [])
     ++ opt_call clearInterval
          (if isCapturing o then None else sampleIntervalId o)
     ++ [setInterval (granted_timer g);
         console_log "[MicCapture] Started successfully"]).
Proof.
  intros G.
  destruct (all_granted_inv fails g G) as [U [N [Re _]]].
  unfold start.
  rewrite (bind_run _ _ _ _ _ _ (start_begin_run throws options _)).
  cbn [this mem]. rewrite U.
  rewrite (bind_run _ _ _ _ _ _
             (start_context_granted throws fails g _ h N)).
  rewrite after_nil.
  match goal with
  | |- context [bind ?m _ ?s] =>
      assert (m s = (Ok tt, s, [])) as Rs
  end.
  { destruct (context_suspended g); [ | reflexivity ].
    destruct (fails audioContext_resume); [ discriminate | reflexivity ]. }
  rewrite (bind_run _ _ _ _ _ _ Rs), after_nil.
  erewrite start_graph_granted; [ | exact G | reflexivity ].
  cbn [after]. destruct (isCapturing o); reflexivity.
Qed.

(** X13: [start] and [stop] are a round trip, and [start] on a running
    capture restarts it.  When every request is granted, [start] brings the
    capture up; [stop] then cancels the timer, disconnects the gain, the
    analyser and the source, stops every track and closes the context that
    this [start] was granted, in that order, and leaves the object holding
    nothing.  A second [start] on the running capture performs the same
    teardown first and then comes up with what it is granted itself. *)
Theorem start_then_stop_releases_what_was_granted (throws : call -> bool)
    (fails : operation -> bool) (options again : MicCaptureOptions)
    (g g' : grant) (w : MicWorld) :
  all_granted fails g = true ->
  all_granted fails g' = true ->
  let up := {| this := brought_up options g; mem := mem w |} in
  let teardown :=
    [clearInterval (granted_timer g); disconnect (granted_gain g);
     disconnect (granted_analyser g); disconnect (granted_source g)]
    ++ map track_stop (getTracks (granted_stream g))
    ++ [audioContext_close (granted_context g)] in
  (exists calls, start throws fails options g w = (Ok tt, up, calls))
  /\ stop throws up
     = (Ok tt, {| this := stopped (brought_up options g); mem := mem w |},
        teardown)
  /\ released (stopped (brought_up options g))
  /\ start throws fails again g' up
     = (Ok tt, {| this := brought_up again g'; mem := mem w |},
        teardown
        ++ [setInterval (granted_timer g');
            console_log "[MicCapture] Started successfully"]).
Proof.
  intros G G' up teardown. destruct w as [o h].
  split; [ | split; [ | split ] ].
  - rewrite (start_granted_run throws fails options g o h G).
    eexists. reflexivity.
  - unfold up. rewrite stop_run. reflexivity.
  - repeat split.
  - unfold up. cbn [mem].
    rewrite (start_granted_run throws fails again g' _ h G').
    cbn [isCapturing brought_up]. unfold teardown, release_calls.
    cbn. rewrite <- !app_assoc. reflexivity.
Qed.

Lemma start_then_stop_releases_what_was_granted_witness :
  let g := {| granted_stream := {| getTracks := [1%nat] |};
              granted_context := 2; context_suspended := false;
              context_sampleRate := 48000; granted_source := 3;
              granted_analyser := 4; granted_gain := 5;
              granted_timer := 6 |} in
  let options := {| options_onLevel := Some 7%nat;
                    options_onPcmFrame := Some 8%nat;
                    options_targetSampleRate := None |} in
  stop (fun _ => false) {| this := brought_up options g; mem := [] |}
  = (Ok tt, {| this := stopped (brought_up options g); mem := [] |},
     [clearInterval 6; disconnect 5; disconnect 4; disconnect 3;
      track_stop 1; audioContext_close 2]).
Proof.
  cbv zeta.
  apply (start_then_stop_releases_what_was_granted
           (fun _ => false) (fun _ => false)
           {| options_onLevel := Some 7%nat;
              options_onPcmFrame := Some 8%nat;
              options_targetSampleRate := None |}
           {| options_onLevel := None; options_onPcmFrame := None;
              options_targetSampleRate := None |}
           {| granted_stream := {| getTracks := [1%nat] |};
              granted_context := 2; context_suspended := false;
              context_sampleRate := 48000; granted_source := 3;
              granted_analyser := 4; granted_gain := 5;
              granted_timer := 6 |}
           {| granted_stream := {| getTracks := [1%nat] |};
              granted_context := 2; context_suspended := false;
              context_sampleRate := 48000; granted_source := 3;
              granted_analyser := 4; granted_gain := 5;
              granted_timer := 6 |}
           {| this := new_MicCapture; mem := [] |});
    reflexivity.
Defined.

(** ** The session controller *)

Lemma keeps_request (invariant : MicCapture -> Prop) (allowed : call -> Prop)
    (fails : operation -> bool) (op : operation) :
  keeps invariant allowed (request fails op).
Proof.
  intros w r w' calls I E. unfold request in E.
  destruct (fails op); injection E as <- <- <-;
    (split; [ exact I | constructor ]).
Qed.

Lemma keeps_throw {A} (invariant : MicCapture -> Prop)
    (allowed : call -> Prop) (e : error) :
  keeps invariant allowed (throw e : M MicWorld A).
Proof.
  intros w r w' calls I E. injection E as <- <- <-.
  split; [ exact I | constructor ].
Qed.

Lemma release_calls_platform (o : MicCapture) :
  Forall platform_call (release_calls o).
Proof.
  unfold release_calls.
  repeat (apply Forall_app; split);
    try (match goal with
         | |- Forall _ (opt_call _ ?x) => destruct x
         end; repeat constructor).
  destruct (mediaStream o) as [ms |]; [ | constructor ].
  apply Forall_map, Forall_forall. intros t _. exact I.
Qed.

Lemma platform_cleanup (throws : call -> bool) :
  keeps (fun _ => True) platform_call (cleanup throws).
Proof.
  intros w r w' calls _ E. rewrite cleanup_run in E.
  injection E as <- <- <-. split; [ exact I | apply release_calls_platform ].
Qed.

Lemma platform_stop (throws : call -> bool) :
  keeps (fun _ => True) platform_call (stop throws).
Proof.
  intros w r w' calls _ E. rewrite stop_run in E.
  injection E as <- <- <-. split; [ exact I | apply release_calls_platform ].
Qed.

#[local] Hint Resolve keeps_request keeps_throw platform_cleanup
  platform_stop : keeps.

Lemma platform_start (throws : call -> bool) (fails : operation -> bool)
    (options : MicCaptureOptions) (g : grant) :
  keeps (fun _ => True) platform_call (start throws fails options g).
Proof.
  unfold start, start_begin, start_catch, start_resume_rejected,
    start_context, start_graph, read_sampleRate, create_source,
    create_analyser, context_catch, startSampling.
  repeat first
    [ keeps_step
    | apply keeps_forEach; intros ? ].
Qed.

Lemma fold_callback_platform (calls : list call) :
  Forall platform_call calls ->
  forall s, fold_left client_callback calls s = s.
Proof.
  induction 1 as [| c calls P _ IH]; intros s; cbn [fold_left];
    [ reflexivity | ].
  rewrite IH. destruct c; try reflexivity; destruct P.
Qed.

Lemma on_micCapture_run {A} (m : M MicWorld A) (c : Client) (r : result A)
    (w : MicWorld) (calls : list call) :
  m (micCapture c) = (r, w, calls) ->
  Forall platform_call calls ->
  on_micCapture m c
  = (r, {| controller := controller c; micCapture := w |}, calls).
Proof.
  intros E P. unfold on_micCapture. rewrite E.
  rewrite (fold_callback_platform calls P). reflexivity.
Qed.

Lemma startSession_outcome (throws : call -> bool)
    (fails : operation -> bool) (id : string) (levelCb frameCb : nat)
    (g : grant) (c : Client) :
  let options := {| options_onLevel := Some levelCb;
                    options_onPcmFrame := Some frameCb;
                    options_targetSampleRate := None |} in
  (fails db_createSession = false ->
   exists o' calls,
     startSession throws fails id levelCb frameCb g c
     = (Ok id,
        {| controller := {| currentSessionId := Some id;
                            framesCaptured := 0; lastLevel := 0%R |};
           micCapture := {| this := o'; mem := mem (micCapture c) |} |},
        calls)
     /\ (all_granted fails g = true -> o' = brought_up options g)
     /\ (all_granted fails g = false -> released o'))
  /\ (fails db_createSession = true ->
      startSession throws fails id levelCb frameCb g c
      = (Throw (Error "platform"),
         {| controller := sessionController; micCapture := micCapture c |},
         [])).
Proof.
  intros options. destruct c as [ctrl w]. cbn [micCapture]. split.
  - intros D.
    destruct (start_outcome throws fails options g w)
      as [r [o' [calls [E [Granted Refused]]]]].
    destruct (platform_start throws fails options g w _ _ _ I E) as [_ P].
    exists o'. unfold startSession.
    set (c1 := {| controller := {| currentSessionId := Some id;
                                    framesCaptured := 0; lastLevel := 0%R |};
                  micCapture := w |}).
    set (c2 := {| controller := {| currentSessionId := Some id;
                                    framesCaptured := 0; lastLevel := 0%R |};
                  micCapture := {| this := o'; mem := mem w |} |}).
    assert (exists logged,
               try_catch
                 (on_micCapture (start throws fails options g))
                 (fun _ =>
                    invoke (console_error
                              "Failed to start microphone capture:")) c1
               = (Ok tt, c2, calls ++ logged)) as [logged Mic].
    { pose proof (on_micCapture_run _ c1 _ _ _ E P) as Run.
      destruct r as [[] | e].
      - exists []. rewrite app_nil_r. apply try_catch_Ok, Run.
      - eexists. erewrite try_catch_Throw by exact Run. reflexivity. }
    eexists. split.
    + apply try_catch_Ok. rewrite bind_request, D. unfold assign.
      rewrite !bind_modify, bind_invoke. cbn [controller micCapture].
      fold options. change ({| controller := _; micCapture := w |}) with c1.
      rewrite (bind_run _ _ _ _ _ _ Mic), bind_invoke.
      unfold ret. cbn [after]. reflexivity.
    + split; [ intros G; apply Granted, G | intros G; apply Refused, G ].
  - intros D. unfold startSession.
    erewrite try_catch_Throw by (rewrite bind_request, D; reflexivity).
    unfold assign. rewrite !bind_modify. reflexivity.
Qed.

(** X14: a session survives a microphone that does not start.  When the
    database has created the session, [startSession] returns its id
    whatever happens to the microphone: the session is current, the live
    statistics start at zero, and the microphone is either up with the
    controller's two closures registered, when every request was granted,
    or holds nothing at all.  When the database fails, [startSession]
    throws, no session is current and the microphone has not been
    touched. *)
Theorem startSession_survives_microphone_failure (throws : call -> bool)
    (fails : operation -> bool) (id : string) (levelCb frameCb : nat)
    (g : grant) (c : Client) :
  let options := {| options_onLevel := Some levelCb;
                    options_onPcmFrame := Some frameCb;
                    options_targetSampleRate := None |} in
  (fails db_createSession = false ->
   exists o' calls,
     startSession throws fails id levelCb frameCb g c
     = (Ok id,
        {| controller := {| currentSessionId := Some id;
                            framesCaptured := 0; lastLevel := 0%R |};
           micCapture := {| this := o'; mem := mem (micCapture c) |} |},
        calls)
     /\ (all_granted fails g = true -> o' = brought_up options g)
     /\ (all_granted fails g = false -> released o'))
  /\ (fails db_createSession = true ->
      startSession throws fails id levelCb frameCb g c
      = (Throw (Error "platform"),
         {| controller := sessionController; micCapture := micCapture c |},
         [])).
Proof.
  exact (startSession_outcome throws fails id levelCb frameCb g c).
Qed.

(** X15: [stopSession] stops the microphone and clears the session before
    it talks to the database.  From every state it releases what the
    microphone holds, and leaves no current session and the statistics at
    zero, so that [getLiveAudioStats] answers [null]; it throws only when
    the database call fails, and then the microphone is stopped and the
    session cleared all the same. *)
Theorem stopSession_stops_capture_first (throws : call -> bool)
    (fails : operation -> bool) (c : Client) :
  let after_stop := {|
    controller := sessionController;
    micCapture := {| this := stopped (this (micCapture c));
                     mem := mem (micCapture c) |} |} in
  stopSession throws fails c
  = (if fails db_endSession then Throw (Error "platform") else Ok tt,
     after_stop, release_calls (this (micCapture c)))
  /\ getLiveAudioStats after_stop = (Ok None, after_stop, [])
  /\ on_micCapture getIsCapturing after_stop = (Ok false, after_stop, []).
Proof.
  intros after_stop. split; [ | split; reflexivity ].
  unfold stopSession.
  rewrite (bind_run _ _ _ _ _ _
             (on_micCapture_run _ c _ _ _ (stop_run throws _)
                (release_calls_platform _))).
  unfold assign. rewrite !bind_modify. cbn [controller micCapture].
  unfold request, after. destruct (fails db_endSession);
    rewrite app_nil_r; reflexivity.
Qed.

(** ** The live statistics of a session *)

Lemma level_calls_app (a b : list call) :
  level_calls (a ++ b) = level_calls a ++ level_calls b.
Proof. apply flat_map_app. Qed.

Lemma level_calls_none (calls : list call) :
  Forall not_onLevel calls -> level_calls calls = [].
Proof.
  induction 1 as [| c calls P _ IH]; [ reflexivity | ].
  unfold level_calls in *. cbn [flat_map]. rewrite IH.
  destruct c; try reflexivity; destruct P.
Qed.

Lemma quiet_deliver (throws : call -> bool) (frameSamples : nat) :
  keeps (fun _ => True) not_onLevel (deliver throws frameSamples).
Proof. unfold deliver, encode_and_call. repeat keeps_step. Qed.

Lemma processAudioFrame_levels (throws : call -> bool) (data : list number)
    (w : MicWorld) (cb : nat) (rms : R) (r : result unit) (w' : MicWorld)
    (calls : list call) :
  analyserNode (this w) <> None -> audioContext (this w) <> None ->
  onLevelCallback (this w) = Some cb ->
  calculateRMS data = Ok rms ->
  processAudioFrame throws data w = (r, w', calls) ->
  level_calls calls = [rms].
Proof.
  destruct w as [o h]. cbn [this]. intros An Ac L Rm.
  pose proof (quiet_deliver throws) as D.
  unfold processAudioFrame. run.
  destruct (analyserNode o) as [an |]; [ | congruence ].
  destruct (audioContext o) as [ac |]; [ | congruence ].
  cbn [is_null orb]. run. rewrite float32_at_new, Rm. run. rewrite L.
  rewrite (bind_run _ _ _ _ _ _ (try_perform_log throws _ _ _)).
  match goal with
  | |- after ?t (?k ?s) = _ -> _ =>
      assert (keeps (fun _ => True) not_onLevel k) as K
        by (repeat keeps_step);
      destruct (k s) as [[r3 w3] t3] eqn:E3;
      destruct (K s r3 w3 t3 I E3) as [_ Q]
  end.
  unfold after. intros E. injection E as _ _ <-.
  apply level_calls_none in Q.
  destruct (throws (onLevel cb rms)); unfold level_calls in *;
    cbn [app flat_map]; rewrite Q; reflexivity.
Qed.

Lemma mic_levels (throws : call -> bool) (cb : nat) : forall blocks w,
  well_formed w -> capturing w ->
  onLevelCallback (this w) = Some cb ->
  Forall finite_block blocks ->
  forall r w' calls,
    forEach (samplingHandler throws) blocks w = (r, w', calls) ->
    map Ok (level_calls calls) = map calculateRMS blocks.
Proof.
  induction blocks as [| b blocks IH]; intros w WF C L F r w' calls;
    cbn [forEach map].
  - intros E. injection E as _ _ <-. reflexivity.
  - inversion F as [| ? ? Fb Fbs]; subst.
    destruct C as [Cap [An Ac]].
    destruct (processAudioFrame_run throws b w WF An Ac)
      as [ext1 [calls1 [locs1 [E1 [WF1 _]]]]].
    destruct (calculateRMS_finite b Fb) as [rms Rms].
    pose proof (processAudioFrame_levels throws b w cb rms _ _ _
                  An Ac L Rms E1) as L1.
    set (w1 := {| this := set_sampleBuffer locs1 (this w);
                  mem := mem w ++ ext1 |}) in *.
    assert (capturing w1) as C1 by (repeat split; assumption).
    rewrite (bind_run _ _ _ _ _ _
               (samplingHandler_capturing throws b w w1 calls1
                  (conj Cap (conj An Ac)) E1)).
    destruct (forEach (samplingHandler throws) blocks w1)
      as [[r2 w2] calls2] eqn:E2.
    cbn [after]. intros E. injection E as _ _ <-.
    rewrite level_calls_app, map_app, L1, Rms. cbn [map app]. f_equal.
    exact (IH w1 WF1 C1 L Fbs _ _ _ E2).
Qed.

Lemma last_default {A} (l : list A) : forall a d1 d2,
  last (a :: l) d1 = last (a :: l) d2.
Proof.
  induction l as [| b l IH]; intros a d1 d2; [ reflexivity | ].
  change (last (b :: l) d1 = last (b :: l) d2). apply IH.
Qed.

Lemma fold_callback_session (calls : list call) : forall s,
  currentSessionId (fold_left client_callback calls s) = currentSessionId s
  /\ framesCaptured (fold_left client_callback calls s)
     = (framesCaptured s + length (pcm_calls calls))%nat
  /\ lastLevel (fold_left client_callback calls s)
     = last (level_calls calls) (lastLevel s).
Proof.
  induction calls as [| c calls IH]; intros s; cbn [fold_left].
  - cbn. repeat split. lia.
  - destruct (IH (client_callback s c)) as [I1 [I2 I3]].
    rewrite I1, I2, I3. unfold pcm_calls, level_calls. cbn [flat_map].
    destruct c; cbn -[last]; repeat split; try lia.
    match goal with
    | |- last ?l _ = last (_ :: ?l) _ =>
        destruct l; [ reflexivity | exact (last_default _ _ _ _) ]
    end.
Qed.

Lemma forEach_on_micCapture {A} (f : A -> M MicWorld unit) :
  forall (l : list A) (c : Client),
    forEach (fun a => on_micCapture (f a)) l c
    = on_micCapture (forEach f l) c.
Proof.
  induction l as [| a l IH]; intros c; cbn [forEach].
  - unfold on_micCapture, ret. destruct c. reflexivity.
  - destruct (f a (micCapture c)) as [[[[] | e] w1] t1] eqn:Ef.
    + assert (on_micCapture (f a) c
              = (Ok tt,
                 {| controller := fold_left client_callback t1 (controller c);
                    micCapture := w1 |}, t1)) as E1
        by (unfold on_micCapture; rewrite Ef; reflexivity).
      rewrite (bind_run _ _ _ _ _ _ E1), IH.
      unfold on_micCapture. rewrite (bind_run _ _ _ _ _ _ Ef).
      cbn [micCapture controller].
      destruct (forEach f l w1) as [[r2 w2] t2]. cbn [after].
      rewrite fold_left_app. reflexivity.
    + assert (on_micCapture (f a) c
              = (Throw e,
                 {| controller := fold_left client_callback t1 (controller c);
                    micCapture := w1 |}, t1)) as E1
        by (unfold on_micCapture; rewrite Ef; reflexivity).
      rewrite (bind_throw _ _ _ _ _ _ E1).
      unfold on_micCapture. rewrite (bind_throw _ _ _ _ _ _ Ef).
      reflexivity.
Qed.


Lemma mic_frame_48000_16000 (frameSamples : list number) :
  length frameSamples = 4800%nat ->
  Forall (fun v => isFinite v = true) frameSamples ->
  exists encoded,
    mic_frame (Fin 48000) (Fin 16000) frameSamples = Some encoded.
Proof.
  intros L F. unfold mic_frame.
  assert (frameSamples <> []) as NE by (intros ->; discriminate).
  rewrite (downsample_unfold frameSamples 48000 16000 NE)
    by (reflexivity || discriminate).
  unfold downsample_newLength. rewrite L.
  replace (Math_round (of_nat 4800 / (48000 / 16000))) with 1600%Z
    by (vm_compute; reflexivity).
  cbn [Z.leb Z.compare].
  destruct (downsample_loop_finite frameSamples (48000 / 16000) F
              (Z.to_nat 1600) 0 0) as [y E].
  rewrite E.
  pose proof (downsample_loop_length _ _ _ _ _ _ E) as Ly.
  pose proof (downsample_loop_finite_output _ _ _ _ _ _ E) as Fy.
  destruct y as [| v y]; [ discriminate | ].
  cbn [length Nat.eqb]. unfold floatToInt16. cbn [length Nat.eqb].
  rewrite (floatToInt16_loop_finite (v :: y) Fy). cbn [map length Nat.eqb].
  eauto.
Qed.

Lemma frames_are_encoded (frames : list (list number)) :
  Forall (fun f => length f = 4800%nat) frames ->
  Forall (Forall (fun v => isFinite v = true)) frames ->
  length (flat_map
            (fun f => frames_of (mic_frame (Fin 48000) (Fin 16000) f))
            frames)
  = length frames.
Proof.
  induction 1 as [| f frames L _ IH]; intros F; [ reflexivity | ].
  inversion F as [| ? ? Ff Ffs]; subst.
  cbn [flat_map]. rewrite length_app, (IH Ffs).
  destruct (mic_frame_48000_16000 f L Ff) as [encoded ->]. reflexivity.
Qed.

Lemma Forall_concat_parts {A} (P : A -> Prop) (parts : list (list A)) :
  Forall P (concat parts) <-> Forall (Forall P) parts.
Proof.
  induction parts as [| p parts IH]; cbn [concat].
  - split; constructor.
  - rewrite Forall_app, IH. split.
    + intros [H1 H2]. constructor; assumption.
    + intros H. inversion H; subst. split; assumption.
Qed.

(** X16: the live statistics follow the capture.  After [startSession]
    has created a session and brought the microphone up at 48000 Hz, feed
    the sampling timer any finite blocks, none longer than a frame of 4800
    samples, [N * 4800 + R] samples in all with [R < 4800].  Then
    [getLiveAudioStats] reports exactly [N] captured frames, one for each
    frame's worth of samples, and as level the RMS of the block that came
    last. *)
Theorem live_stats_follow_the_capture (throws : call -> bool)
    (fails : operation -> bool) (id : string) (levelCb frameCb : nat)
    (g : grant) (c : Client) (blocks : list (list number))
    (latest : list number) (N R : nat) :
  fails db_createSession = false ->
  all_granted fails g = true ->
  context_sampleRate g = 48000 ->
  is_empty id = false ->
  Forall finite_block (blocks ++ [latest]) ->
  Forall (fun b => (length b <= 4800)%nat) (blocks ++ [latest]) ->
  length (concat (blocks ++ [latest])) = (N * 4800 + R)%nat ->
  (R < 4800)%nat ->
  exists c1 calls1 c2 calls2 rms,
    startSession throws fails id levelCb frameCb g c = (Ok id, c1, calls1)
    /\ forEach (tick throws) (blocks ++ [latest]) c1 = (Ok tt, c2, calls2)
    /\ calculateRMS latest = Ok rms
    /\ getLiveAudioStats c2
       = (Ok (Some {| stats_framesCaptured := N; stats_lastLevel := rms |}),
          c2, []).
Proof.
  intros D G Rate NonEmpty Finite Short Total Rlt.
  destruct (startSession_outcome throws fails id levelCb frameCb g c)
    as [Created _].
  destruct (Created D) as [o' [calls1 [E1 [Up _]]]].
  specialize (Up G). subst o'.
  set (options := {| options_onLevel := Some levelCb;
                     options_onPcmFrame := Some frameCb;
                     options_targetSampleRate := None |}) in *.
  set (w1 := {| this := brought_up options g; mem := mem (micCapture c) |})
    in *.
  assert (well_formed w1) as WF by constructor.
  assert (capturing w1) as Cap by (repeat split; discriminate).
  destruct (mic_run throws (blocks ++ [latest]) w1 WF Cap Finite)
    as [ext [calls [locs [Run [_ [_ [_ Dv]]]]]]].
  pose proof (mic_levels throws levelCb (blocks ++ [latest]) w1 WF Cap
                eq_refl Finite _ _ _ Run) as Lv.
  assert (exists rms, calculateRMS latest = Ok rms) as [rms Rms].
  { apply calculateRMS_finite.
    apply Forall_app in Finite. destruct Finite as [_ Fl].
    inversion Fl; assumption. }
  (* the frames that were sliced off *)
  unfold buffered in Dv. cbn [w1 this mem brought_up sampleBuffer
    samplesPerFrame onPcmFrameCallback options options_onPcmFrame
    sourceSampleRate targetSampleRate options_targetSampleRate
    targetSampleRate_or_default map] in Dv.
  rewrite Rate in Dv.
  replace (start_samplesPerFrame 48000) with 4800%nat in Dv
    by (vm_compute; reflexivity).
  pose proof (pushes_spec 4800 (blocks ++ [latest]) []
                ltac:(cbn; lia) Short) as P.
  destruct (pushes 4800 [] (blocks ++ [latest])) as [kept frames].
  destruct P as [Order [Full Residue]]. cbn [concat app snd] in Order, Dv.
  assert (length frames = N) as Count.
  { apply (assembler_count 4800 _ (length (concat kept)) N R);
      try assumption.
    rewrite <- (length_concat_frames 4800 frames Full), <- length_app.
    rewrite Order. exact Total. }
  assert (Forall (Forall (fun v => isFinite v = true)) frames) as Ff.
  { apply Forall_concat_parts.
    assert (Forall (fun v => isFinite v = true)
              (concat (blocks ++ [latest]))) as Fc.
    { apply Forall_concat_parts.
      eapply Forall_impl; [ | exact Finite ]. intros b [_ Fb]. exact Fb. }
    rewrite <- Order in Fc. apply Forall_app in Fc. tauto. }
  assert (length (pcm_calls calls) = N) as Frames.
  { rewrite <- Count, <- (frames_are_encoded frames Full Ff), <- Dv.
    unfold delivered. rewrite length_map. reflexivity. }
  assert (last (level_calls calls) 0%R = rms) as Level.
  { rewrite map_app in Lv. cbn [map] in Lv. rewrite Rms in Lv.
    apply map_eq_app in Lv. destruct Lv as [l1 [l2 [-> [_ L2]]]].
    destruct l2 as [| x [| y l2]]; try discriminate.
    injection L2 as ->. apply last_last. }
  (* the controller after the ticks *)
  eexists. eexists. eexists. eexists. exists rms.
  split; [ exact E1 | ].
  split.
  { unfold tick. rewrite forEach_on_micCapture. unfold on_micCapture.
    cbn [micCapture controller]. fold w1. rewrite Run. reflexivity. }
  split; [ exact Rms | ].
  unfold getLiveAudioStats. rewrite bind_read. cbn [controller].
  match goal with
  | |- context [fold_left client_callback calls ?s] =>
      destruct (fold_callback_session calls s) as [F1 [F2 F3]]
  end.
  rewrite F1. cbn [currentSessionId]. rewrite NonEmpty.
  rewrite !bind_read. cbn [controller]. rewrite F2, F3.
  cbn [framesCaptured lastLevel]. rewrite Frames, Level. reflexivity.
Qed.

Lemma live_stats_follow_the_capture_witness :
  let quiet := fun _ : call => false in
  let granted := fun _ : operation => false in
  let g := {| granted_stream := {| getTracks := [1%nat] |};
              granted_context := 2; context_suspended := false;
              context_sampleRate := 48000; granted_source := 3;
              granted_analyser := 4; granted_gain := 5;
              granted_timer := 6 |} in
  let c := {| controller := sessionController;
              micCapture := {| this := new_MicCapture; mem := [] |} |} in
  exists c1 calls1 c2 calls2 rms,
    startSession quiet granted "s1" 7 8 g c = (Ok "s1"%string, c1, calls1)
    /\ forEach (tick quiet) ([repeat (Fin 0) 4800] ++ [[Fin 1]]) c1
       = (Ok tt, c2, calls2)
    /\ calculateRMS [Fin 1] = Ok rms
    /\ getLiveAudioStats c2
       = (Ok (Some {| stats_framesCaptured := 1; stats_lastLevel := rms |}),
          c2, []).
Proof.
  cbv zeta.
  apply (live_stats_follow_the_capture (fun _ => false) (fun _ => false)
           "s1" 7 8
           {| granted_stream := {| getTracks := [1%nat] |};
              granted_context := 2; context_suspended := false;
              context_sampleRate := 48000; granted_source := 3;
              granted_analyser := 4; granted_gain := 5;
              granted_timer := 6 |}
           {| controller := sessionController;
              micCapture := {| this := new_MicCapture; mem := [] |} |}
           [repeat (Fin 0) 4800] [Fin 1] 1 1).
  - reflexivity.
  - reflexivity.
  - reflexivity.
  - reflexivity.
  - constructor; [ | constructor; [ | constructor ] ].
    + split; [ discriminate | ]. apply Forall_forall. intros v V.
      apply repeat_spec in V. subst v. reflexivity.
    + split; [ discriminate | ]. constructor; [ reflexivity | constructor ].
  - constructor; [ | constructor; [ | constructor ] ].
    + rewrite repeat_length. lia.
    + cbn. lia.
  - cbn [app concat]. rewrite length_app, repeat_length. reflexivity.
  - lia.
Defined.

(** ** The audio handlers of the main process *)

Lemma removeListener_single (h : nat) : removeListener h [h] = [].
Proof. unfold removeListener. cbn. rewrite Nat.eqb_refl. reflexivity. Qed.

Lemma remove_levelHandler_run (s : MainProcess) :
  listeners_tracked s ->
  remove_levelHandler s
  = (Ok tt, set_levelHandler None (set_level_listeners [] s), []).
Proof.
  destruct s as [l [h |] listeners main sent]; unfold listeners_tracked;
    cbn [level_listeners levelHandler frames_of]; intros ->;
    unfold remove_levelHandler; rewrite bind_read; cbn [levelHandler].
  - rewrite bind_modify. unfold modify.
    cbn [set_level_listeners level_listeners set_levelHandler loopback
         levelHandler mainWindow sent_levels].
    rewrite removeListener_single. reflexivity.
  - reflexivity.
Qed.

Lemma on_loopbackCapture_run {A} (m : M Loopback.LoopbackCapture A)
    (s : MainProcess) (r : result A) (l : Loopback.LoopbackCapture)
    (calls : list call) :
  m (loopback s) = (r, l, calls) ->
  on_loopbackCapture m s = (r, fold_left emit calls (set_loopback l s), calls).
Proof. intros E. unfold on_loopbackCapture. rewrite E. reflexivity. Qed.

Lemma fold_emit_quiet (calls : list call) :
  Forall (fun c => match c with emit_level _ => False | _ => True end) calls ->
  forall s, fold_left emit calls s = s.
Proof.
  induction 1 as [| c calls P _ IH]; intros s; cbn [fold_left];
    [ reflexivity | ].
  rewrite IH. destruct c; try reflexivity; destruct P.
Qed.

Ltac no_emit :=
  repeat first
    [ apply Forall_nil
    | apply Forall_cons; [ exact I | ]
    | apply Forall_app; split
    | match goal with
      | |- Forall _ (if ?b then _ else _) => destruct b
      | |- Forall _ (opt_call _ ?x) => destruct x
      | |- Forall _ (match ?x with _ => _ end) => destruct x
      end ].

Lemma audio_startLoopback_begin_run (throws : call -> bool)
    (s : MainProcess) (window : nat) (main : Loopback.BrowserWindow) :
  (forall c, throws c = false) ->
  listeners_tracked s ->
  mainWindow s = Some main ->
  Loopback.isCapturing (loopback s) = false ->
  audio_startLoopback_begin throws window s
  = (Ok tt,
     set_loopback (Loopback.set_isInitialized true (loopback s))
       (set_levelHandler None (set_level_listeners [] s)),
     (if Loopback.isInitialized (loopback s) then [] else [initMain])
     ++ [new_BrowserWindow window; loadURL window]).
Proof.
  intros Q T M C. unfold audio_startLoopback_begin.
  apply try_catch_Ok. rewrite bind_read, M, bind_ret.
  rewrite (bind_run _ _ _ _ _ _ (remove_levelHandler_run s T)), after_nil.
  erewrite on_loopbackCapture_run
    by (apply startLoopback_begin_run; assumption).
  rewrite fold_emit_quiet by no_emit. reflexivity.
Qed.

Lemma audio_startLoopback_resume_run (throws : call -> bool)
    (s : MainProcess) (window handlerId timer onPcm listener : nat) :
  (forall c, throws c = false) ->
  audio_startLoopback_resume throws window handlerId timer onPcm listener s
  = (Ok tt,
     set_levelHandler (Some listener)
       (set_level_listeners (level_listeners s ++ [listener])
          (set_loopback
             {| Loopback.isCapturing := true;
                Loopback.hiddenWindow :=
                  Some {| Loopback.window_id := window;
                          Loopback.isDestroyed := false |};
                Loopback.pcmHandler :=
                  Some {| Loopback.handler_id := handlerId;
                          Loopback.handler_onPcm := Some onPcm |};
                Loopback.onPcmCallback := Some onPcm;
                Loopback.isInitialized :=
                  Loopback.isInitialized (loopback s);
                Loopback.rmsInterval := Some timer;
                Loopback.lastPcmBuffer := None |} s)),
     [ipcMain_on handlerId]
     ++ opt_call clearInterval (Loopback.rmsInterval (loopback s))
     ++ [setInterval timer;
         console_log "[LoopbackCapture] Started loopback capture";
         console_log "[IPC] Started loopback capture for device:"]).
Proof.
  intros Q. unfold audio_startLoopback_resume.
  apply try_catch_Ok.
  erewrite bind_run
    by (apply on_loopbackCapture_run, startLoopback_resume_run, Q).
  rewrite fold_emit_quiet by no_emit.
  rewrite !bind_modify. unfold invoke, after.
  rewrite <- !app_assoc. reflexivity.
Qed.

Lemma rmsHandler_run (throws : call -> bool) (s : Loopback.LoopbackCapture)
    (buffer : list Z) :
  (forall level, throws (emit_level level) = false) ->
  Loopback.isCapturing s = true ->
  Loopback.lastPcmBuffer s = Some buffer ->
  Loopback.rmsHandler throws s
  = (Ok tt, Loopback.set_lastPcmBuffer None s,
     [emit_level (Loopback.calculateRMS buffer)]).
Proof.
  intros Q C L. unfold Loopback.rmsHandler. rewrite !bind_read, L, C.
  unfold bind, perform, modify. rewrite Q. reflexivity.
Qed.

Lemma rmsHandler_nothing_new (throws : call -> bool)
    (s : Loopback.LoopbackCapture) :
  Loopback.lastPcmBuffer s = None ->
  Loopback.rmsHandler throws s = (Ok tt, s, []).
Proof.
  intros L. unfold Loopback.rmsHandler. rewrite !bind_read, L. reflexivity.
Qed.

Lemma levelHandler_call_keeps (level : R) (s : MainProcess) :
  loopback (levelHandler_call level s) = loopback s
  /\ levelHandler (levelHandler_call level s) = levelHandler s
  /\ level_listeners (levelHandler_call level s) = level_listeners s
  /\ mainWindow (levelHandler_call level s) = mainWindow s.
Proof.
  unfold levelHandler_call.
  destruct (mainWindow s) as [w |] eqn:M;
    [ destruct (Loopback.isDestroyed w) | ];
    cbn [loopback levelHandler level_listeners mainWindow set_sent_levels];
    rewrite ?M; (split; [ | split; [ | split ] ]); reflexivity.
Qed.

Lemma levelHandler_calls_keep (level : R) (listeners : list nat) :
  forall s,
    let s' := fold_left (fun s' _ => levelHandler_call level s') listeners s in
    loopback s' = loopback s
    /\ levelHandler s' = levelHandler s
    /\ level_listeners s' = level_listeners s
    /\ mainWindow s' = mainWindow s.
Proof.
  induction listeners as [| l listeners IH]; intros s; cbn [fold_left];
    [ (split; [ | split; [ | split ] ]); reflexivity | ].
  destruct (IH (levelHandler_call level s)) as [A [B [C D]]].
  destruct (levelHandler_call_keeps level s) as [A' [B' [C' D']]].
  cbv zeta. rewrite A, B, C, D.
  (split; [ | split; [ | split ] ]); assumption.
Qed.

Lemma emit_keeps (c : call) (s : MainProcess) :
  loopback (emit s c) = loopback s
  /\ levelHandler (emit s c) = levelHandler s
  /\ level_listeners (emit s c) = level_listeners s
  /\ mainWindow (emit s c) = mainWindow s.
Proof.
  destruct c; cbn [emit];
    try ((split; [ | split; [ | split ] ]); reflexivity).
  apply levelHandler_calls_keep.
Qed.

Lemma fold_emit_keeps (calls : list call) : forall s,
  loopback (fold_left emit calls s) = loopback s
  /\ levelHandler (fold_left emit calls s) = levelHandler s
  /\ level_listeners (fold_left emit calls s) = level_listeners s
  /\ mainWindow (fold_left emit calls s) = mainWindow s.
Proof.
  induction calls as [| c calls IH]; intros s; cbn [fold_left];
    [ (split; [ | split; [ | split ] ]); reflexivity | ].
  destruct (IH (emit s c)) as [A [B [C D]]].
  destruct (emit_keeps c s) as [A' [B' [C' D']]].
  rewrite A, B, C, D. (split; [ | split; [ | split ] ]); assumption.
Qed.

Lemma meter_run (throws : call -> bool) (s : MainProcess)
    (h : Loopback.handler) (pcmArray : list Z) :
  (forall c, throws c = false) ->
  Loopback.isCapturing (loopback s) = true ->
  let pcmBuffer := map Loopback.to_int16 pcmArray in
  let level := Loopback.calculateRMS pcmBuffer in
  (loopback_pcm_data throws h pcmArray ;; level_tick throws) s
  = (Ok tt,
     emit (set_loopback (Loopback.set_lastPcmBuffer None (loopback s)) s)
       (emit_level level),
     opt_call (fun cb => onPcm cb pcmBuffer) (Loopback.handler_onPcm h)
     ++ [emit_level level]).
Proof.
  intros Q C pcmBuffer level.
  unfold loopback_pcm_data, level_tick.
  erewrite bind_run.
  2:{ apply on_loopbackCapture_run.
      apply pcmHandler_call_run; [ exact C | intros; apply Q ]. }
  rewrite fold_emit_quiet by no_emit.
  erewrite on_loopbackCapture_run.
  2:{ cbn [loopback set_loopback].
      apply (rmsHandler_run throws _ pcmBuffer);
        [ intros; apply Q | exact C | reflexivity ]. }
  cbn [after fold_left loopback set_loopback].
  destruct s. reflexivity.
Qed.

Lemma set_loopback_same (s : MainProcess) : set_loopback (loopback s) s = s.
Proof. destruct s. reflexivity. Qed.

Lemma level_tick_nothing_new (throws : call -> bool) (s : MainProcess) :
  Loopback.lastPcmBuffer (loopback s) = None ->
  level_tick throws s = (Ok tt, s, []).
Proof.
  intros L. unfold level_tick.
  erewrite on_loopbackCapture_run by (apply rmsHandler_nothing_new, L).
  cbn [fold_left]. rewrite set_loopback_same. reflexivity.
Qed.



(** X18: a start request that is refused disconnects the level meter.
    While the loopback capture runs with the meter connected, a frame from
    the hidden window makes the next tick send its level to the main
    window.  A second [audio:startLoopback] is refused, because the capture
    is already running; but before asking the capture it has removed the
    [level] listener, and the refusal does not put it back.  The capture
    goes on, and from then on its level events reach no listener: nothing
    more is sent to the window. *)
Theorem refused_start_disconnects_the_meter (throws : call -> bool)
    (capture : Loopback.LoopbackCapture) (listener window : nat)
    (main : Loopback.BrowserWindow) (sent : list R) (h : Loopback.handler)
    (pcmArray : list Z) :
  (forall c, throws c = false) ->
  Loopback.isCapturing capture = true ->
  Loopback.isDestroyed main = false ->
  let level := Loopback.calculateRMS (map Loopback.to_int16 pcmArray) in
  let disconnected := {|
    loopback := capture; levelHandler := None; level_listeners := [];
    mainWindow := Some main; sent_levels := sent |} in
  (exists s' calls,
      (loopback_pcm_data throws h pcmArray ;; level_tick throws)
        (metering capture listener main sent)
      = (Ok tt, s', calls)
      /\ sent_levels s' = sent ++ [level])
  /\ audio_startLoopback_begin throws window
       (metering capture listener main sent)
     = (Throw (Error ("Failed to start loopback capture: "
                      ++ "Loopback capture is already running. "
                      ++ "Stop it first.")),
        disconnected,
        [console_error "[IPC] Error starting loopback capture:"])
  /\ (exists s' calls,
         (loopback_pcm_data throws h pcmArray ;; level_tick throws)
           disconnected
         = (Ok tt, s', calls)
         /\ In (emit_level level) calls
         /\ Loopback.isCapturing (loopback s') = true
         /\ sent_levels s' = sent).
Proof.
  intros Q C Live level disconnected.
  split; [ | split ].
  - rewrite (meter_run throws (metering capture listener main sent)
               h pcmArray Q C).
    eexists. eexists. split; [ reflexivity | ].
    cbn. unfold levelHandler_call. cbn. rewrite Live. reflexivity.
  - unfold audio_startLoopback_begin.
    erewrite try_catch_Throw.
    2:{ rewrite bind_read. cbn [mainWindow metering]. rewrite bind_ret.
        rewrite (bind_run _ _ _ _ _ _
                   (remove_levelHandler_run
                      (metering capture listener main sent) eq_refl)),
          after_nil.
        apply on_loopbackCapture_run.
        unfold Loopback.startLoopback_begin. rewrite bind_read.
        cbn [loopback set_levelHandler set_level_listeners metering].
        rewrite C. reflexivity. }
    reflexivity.
  - rewrite (meter_run throws disconnected h pcmArray Q C).
    eexists. eexists. split; [ reflexivity | ].
    split; [ apply in_or_app; right; left; reflexivity | ].
    split; [ exact C | reflexivity ].
Qed.

Lemma refused_start_disconnects_the_meter_witness :
  let quiet := fun _ : call => false in
  let main := {| Loopback.window_id := 1; Loopback.isDestroyed := false |} in
  let capture := Loopback.set_isCapturing true Loopback.loopbackCapture in
  audio_startLoopback_begin quiet 7 (metering capture 5 main [])
  = (Throw (Error ("Failed to start loopback capture: "
                   ++ "Loopback capture is already running. "
                   ++ "Stop it first.")),
     {| loopback := capture; levelHandler := None; level_listeners := [];
        mainWindow := Some main; sent_levels := [] |},
     [console_error "[IPC] Error starting loopback capture:"]).
Proof.
  cbv zeta.
  apply (refused_start_disconnects_the_meter (fun _ => false)
           (Loopback.set_isCapturing true Loopback.loopbackCapture) 5 7
           {| Loopback.window_id := 1; Loopback.isDestroyed := false |} []
           {| Loopback.handler_id := 2; Loopback.handler_onPcm := None |}
           []);
    reflexivity.
Defined.

(** X19: [audio:stopLoopback] and the [closed] handler of the main window
    never throw.  Whatever the platform does, and from every state in which
    the listener is the remembered one, each of them returns, and afterwards
    no [level] listener is registered or remembered and the capture is not
    running; closing the window also forgets the window. *)
Theorem audio_stop_and_close_never_throw (throws : call -> bool)
    (s : MainProcess) :
  listeners_tracked s ->
  (exists s' calls,
      audio_stopLoopback throws s = (Ok tt, s', calls)
      /\ levelHandler s' = None /\ level_listeners s' = []
      /\ Loopback.isCapturing (loopback s') = false
      /\ mainWindow s' = mainWindow s)
  /\ (exists s' calls,
         window_closed throws s = (Ok tt, s', calls)
         /\ levelHandler s' = None /\ level_listeners s' = []
         /\ Loopback.isCapturing (loopback s') = false
         /\ mainWindow s' = None).
Proof.
  intros T.
  set (s0 := set_levelHandler None (set_level_listeners [] s)).
  destruct (stopLoopback_returns throws (loopback s0)) as [l [calls [E F]]].
  pose proof (on_loopbackCapture_run _ s0 _ _ _ E) as Stop.
  destruct (fold_emit_keeps calls (set_loopback l s0)) as [A [B [C D]]].
  split.
  - unfold audio_stopLoopback.
    eexists. eexists. split.
    + apply try_catch_Ok.
      rewrite (bind_run _ _ _ _ _ _ (remove_levelHandler_run s T)), after_nil.
      fold s0. rewrite (bind_run _ _ _ _ _ _ Stop). reflexivity.
    + rewrite A, B, C, D. cbn. auto.
  - unfold window_closed.
    rewrite (bind_run _ _ _ _ _ _ (remove_levelHandler_run s T)), after_nil.
    fold s0. rewrite bind_read.
    destruct (Loopback.isCapturing (loopback s0)) eqn:Cap.
    + rewrite (bind_run _ _ _ _ _ _ Stop). unfold modify, after.
      eexists. eexists. split; [ reflexivity | ].
      cbn [levelHandler level_listeners loopback mainWindow set_mainWindow].
      rewrite A, B, C. cbn. auto.
    + rewrite bind_ret. unfold modify.
      eexists. eexists. split; [ reflexivity | ].
      cbn. auto.
Qed.

Lemma audio_stop_and_close_never_throw_witness :
  let noisy := fun _ : call => true in
  let main := {| Loopback.window_id := 1; Loopback.isDestroyed := false |} in
  let capture := Loopback.set_isCapturing true Loopback.loopbackCapture in
  exists s' calls,
    audio_stopLoopback noisy (metering capture 5 main []) = (Ok tt, s', calls)
    /\ levelHandler s' = None /\ level_listeners s' = []
    /\ Loopback.isCapturing (loopback s') = false
    /\ mainWindow s' = Some main.
Proof.
  cbv zeta.
  apply (audio_stop_and_close_never_throw (fun _ => true)
           (metering (Loopback.set_isCapturing true Loopback.loopbackCapture)
              5 {| Loopback.window_id := 1; Loopback.isDestroyed := false |}
              [])).
  reflexivity.
Defined.

(** ** Listing the output devices *)

Lemma ensureInitialized_outcome (throws : call -> bool)
    (s : Loopback.LoopbackCapture) :
  (exists s' calls,
      Loopback.ensureInitialized throws s = (Ok tt, s', calls))
  \/ (exists calls,
         Loopback.ensureInitialized throws s
         = (Throw (Error "platform"), s, calls)).
Proof.
  unfold Loopback.ensureInitialized. rewrite bind_read.
  destruct (Loopback.isInitialized s); [ left; eexists; eexists; reflexivity | ].
  unfold bind, perform, modify. destruct (throws initMain).
  - right. eexists. reflexivity.
  - left. eexists. eexists. reflexivity.
Qed.

Lemma listOutputDevices_outcome (throws : call -> bool)
    (toLowerCase : string -> string)
    (sources : option (list DesktopCapturerSource))
    (s : Loopback.LoopbackCapture) :
  exists devices s' calls,
    listOutputDevices throws toLowerCase sources s = (Ok devices, s', calls)
    /\ devices <> []
    /\ (devices = default_output
        \/ exists all,
             sources = Some all
             /\ devices
                = map (fun source =>
                         {| device_id := source_id source;
                            device_name := source_name source |})
                    (filter (is_audio_source toLowerCase) all)).
Proof.
  unfold listOutputDevices.
  destruct (ensureInitialized_outcome throws s)
    as [[s1 [calls1 E]] | [calls1 E]].
  - destruct sources as [all |].
    + destruct (filter (is_audio_source toLowerCase) all)
        as [| source rest] eqn:Fi.
      * erewrite try_catch_Ok.
        2:{ rewrite (bind_run _ _ _ _ _ _ E). reflexivity. }
        eexists. eexists. eexists. split; [ reflexivity | ].
        split; [ discriminate | left; reflexivity ].
      * erewrite try_catch_Ok.
        2:{ rewrite (bind_run _ _ _ _ _ _ E). reflexivity. }
        eexists. eexists. eexists. split; [ reflexivity | ].
        split; [ discriminate | ].
        right. exists all. rewrite Fi. split; reflexivity.
    + erewrite try_catch_Throw.
      2:{ rewrite (bind_run _ _ _ _ _ _ E). reflexivity. }
      eexists. eexists. eexists. split; [ reflexivity | ].
      split; [ discriminate | left; reflexivity ].
  - erewrite try_catch_Throw.
    2:{ rewrite (bind_throw _ _ _ _ _ _ E). reflexivity. }
    eexists. eexists. eexists. split; [ reflexivity | ].
    split; [ discriminate | left; reflexivity ].
Qed.

(** X20: the list of output devices is never empty and asking for it
    never fails.  Whatever [desktopCapturer] answers, and also when it or
    the initialisation of the library throws, [listOutputDevices] returns a
    list with at least one device: the sources whose lower-cased name
    includes "audio", "speaker" or "headphone", in their order, or else the
    single device "default".  The handler [audio:listOutputs] returns the
    same list and never throws. *)
Theorem listOutputDevices_never_empty (throws : call -> bool)
    (toLowerCase : string -> string)
    (sources : option (list DesktopCapturerSource)) (s : MainProcess) :
  exists devices l calls,
    listOutputDevices throws toLowerCase sources (loopback s)
    = (Ok devices, l, calls)
    /\ devices <> []
    /\ (devices = default_output
        \/ exists all,
             sources = Some all
             /\ devices
                = map (fun source =>
                         {| device_id := source_id source;
                            device_name := source_name source |})
                    (filter (is_audio_source toLowerCase) all))
    /\ (sources = None -> devices = default_output)
    /\ exists s',
         audio_listOutputs throws toLowerCase sources s
         = (Ok devices, s', calls).
Proof.
  destruct (listOutputDevices_outcome throws toLowerCase sources (loopback s))
    as [devices [l [calls [E [NE Which]]]]].
  exists devices, l, calls.
  split; [ exact E | ]. split; [ exact NE | ]. split; [ exact Which | ].
  split.
  - intros ->. destruct Which as [D | [all [? _]]]; [ exact D | discriminate ].
  - unfold audio_listOutputs. eexists.
    apply try_catch_Ok. apply on_loopbackCapture_run, E.
Qed.

(** ** The fake transcript *)

Lemma pick_phrase (random : Q) (index : Z) :
  0 <= random -> random < 1 ->
  exists phrase,
    nth_error (FakeTranscript.phrases_of index)
      (Z.to_nat
         (Qfloor (random * of_nat (length (FakeTranscript.phrases_of index)))))
    = Some phrase
    /\ In phrase (FakeTranscript.phrases_of index).
Proof.
  intros Lo Hi.
  assert (length (FakeTranscript.phrases_of index) = 12%nat) as L.
  { unfold FakeTranscript.phrases_of.
    destruct (String.eqb _ _); reflexivity. }
  rewrite L. set (k := Qfloor (random * of_nat 12)).
  assert (0 <= k < 12)%Z as [K0 K12].
  { unfold k. split.
    - change 0%Z with (Qfloor 0). apply Qfloor_resp_le.
      change (of_nat 12) with 12. qlra.
    - rewrite Zlt_Qlt.
      eapply Qle_lt_trans; [ apply Qfloor_le | ].
      change (of_nat 12) with 12. change (inject_Z 12) with 12. qlra. }
  destruct (nth_error (FakeTranscript.phrases_of index) (Z.to_nat k))
    as [phrase |] eqn:N.
  - exists phrase. split; [ reflexivity | eapply nth_error_In, N ].
  - apply nth_error_None in N. lia.
Qed.

Lemma timeline_app (sid : string) (events : list FakeTranscript.TranscriptEvent)
    (e : FakeTranscript.TranscriptEvent) : forall time index,
  FakeTranscript.timeline sid time index events ->
  FakeTranscript.timeline sid
    (fst (FakeTranscript.next_slot time index events))
    (snd (FakeTranscript.next_slot time index events)) [e] ->
  FakeTranscript.timeline sid time index (events ++ [e])
  /\ FakeTranscript.next_slot time index (events ++ [e])
     = ((FakeTranscript.endMs e + 100)%Z,
        Z.rem (snd (FakeTranscript.next_slot time index events) + 1) 2).
Proof.
  induction events as [| e0 events IH]; intros time index T Fit;
    cbn [app FakeTranscript.timeline FakeTranscript.next_slot fst snd] in *.
  - split; [ exact Fit | reflexivity ].
  - destruct T as [T1 [T2 [T3 [T4 [T5 [T6 T7]]]]]].
    destruct (IH _ _ T7 Fit) as [A B].
    split; [ | exact B ]. repeat (split; [ assumption | ]). exact A.
Qed.

Lemma generateEvent_step (sid : string) (timer : nat)
    (before events : list FakeTranscript.TranscriptEvent)
    (t : FakeTranscript.tick) (g : FakeTranscript.FakeTranscriptGenerator) :
  is_empty sid = false ->
  0 <= FakeTranscript.tick_random t -> FakeTranscript.tick_random t < 1 ->
  FakeTranscript.generating sid timer before events g ->
  exists g' calls added,
    FakeTranscript.generateEvent (FakeTranscript.tick_random t)
      (FakeTranscript.tick_eventId t) (FakeTranscript.tick_stored t) g
    = (Ok tt, g', calls)
    /\ FakeTranscript.generating sid timer before (events ++ added) g'
    /\ length added = (if FakeTranscript.tick_stored t then 1 else 0)%nat.
Proof.
  intros NE Lo Hi [Ins [Tl [Slot [Idx [Sid Tim]]]]].
  destruct g as [timerId session started time index stored].
  cbn [FakeTranscript.inserted FakeTranscript.currentTimeMs
       FakeTranscript.speakerIndex FakeTranscript.sessionId
       FakeTranscript.intervalId] in *.
  subst session timerId stored.
  destruct (pick_phrase (FakeTranscript.tick_random t) index Lo Hi)
    as [phrase [Pick In_]].
  set (e := {| FakeTranscript.event_id := FakeTranscript.tick_eventId t;
               FakeTranscript.event_sessionId := sid;
               FakeTranscript.speaker := FakeTranscript.speaker_of index;
               FakeTranscript.startMs := time;
               FakeTranscript.endMs :=
                 (time + FakeTranscript.estimatedDurationMs phrase)%Z;
               FakeTranscript.text := phrase;
               FakeTranscript.isFinal := 1 |}).
  match goal with
  | |- context [FakeTranscript.generateEvent _ _ _ ?g] =>
      assert (FakeTranscript.generateEvent_begin
                (FakeTranscript.tick_random t) (FakeTranscript.tick_eventId t)
                g
              = (Ok (Some e), g, [])) as Begin
  end.
  { unfold FakeTranscript.generateEvent_begin.
    rewrite bind_read. cbn [FakeTranscript.sessionId]. rewrite NE.
    rewrite bind_read. cbn [FakeTranscript.speakerIndex]. rewrite Pick.
    rewrite bind_read. reflexivity. }
  unfold FakeTranscript.generateEvent.
  rewrite (bind_run _ _ _ _ _ _ Begin), after_nil. clear Begin.
  unfold FakeTranscript.generateEvent_end.
  destruct (FakeTranscript.tick_stored t).
  - rewrite !bind_modify, bind_read. unfold modify.
    cbn [FakeTranscript.inserted FakeTranscript.set_inserted
         FakeTranscript.set_currentTimeMs FakeTranscript.speakerIndex
         FakeTranscript.set_speakerIndex FakeTranscript.intervalId
         FakeTranscript.sessionId FakeTranscript.startTimeMs
         FakeTranscript.currentTimeMs].
    assert (FakeTranscript.timeline sid
              (fst (FakeTranscript.next_slot 0 0 events))
              (snd (FakeTranscript.next_slot 0 0 events)) [e]) as Fit.
    { rewrite <- Slot. cbn [fst snd FakeTranscript.timeline].
      repeat (split; [ reflexivity || exact In_ | ]). exact I. }
    destruct (timeline_app sid events e 0 0 Tl Fit) as [Tl' Slot'].
    rewrite <- Slot in Slot'. cbn [snd] in Slot'.
    eexists. eexists. exists [e].
    split; [ reflexivity | ]. split; [ | reflexivity ].
    unfold FakeTranscript.generating.
    cbn [FakeTranscript.inserted FakeTranscript.currentTimeMs
         FakeTranscript.speakerIndex FakeTranscript.sessionId
         FakeTranscript.intervalId].
    split; [ rewrite app_assoc; reflexivity | ].
    split; [ exact Tl' | ]. split; [ symmetry; exact Slot' | ].
    split; [ destruct Idx as [-> | ->]; [ right | left ]; reflexivity | ].
    split; reflexivity.
  - eexists. eexists. exists [].
    split; [ reflexivity | ]. split; [ | reflexivity ].
    rewrite app_nil_r. unfold FakeTranscript.generating.
    cbn [FakeTranscript.inserted FakeTranscript.currentTimeMs
         FakeTranscript.speakerIndex FakeTranscript.sessionId
         FakeTranscript.intervalId].
    repeat (split; [ assumption || reflexivity | ]). reflexivity.
Qed.

Lemma generateEvents_run (sid : string) (timer : nat)
    (before : list FakeTranscript.TranscriptEvent) :
  is_empty sid = false ->
  forall (ticks : list FakeTranscript.tick)
         (events : list FakeTranscript.TranscriptEvent)
         (g : FakeTranscript.FakeTranscriptGenerator),
    Forall (fun t => 0 <= FakeTranscript.tick_random t
                     /\ FakeTranscript.tick_random t < 1) ticks ->
    FakeTranscript.generating sid timer before events g ->
    exists g' calls added,
      forEach
        (fun t =>
           FakeTranscript.generateEvent (FakeTranscript.tick_random t)
             (FakeTranscript.tick_eventId t) (FakeTranscript.tick_stored t))
        ticks g
      = (Ok tt, g', calls)
      /\ FakeTranscript.generating sid timer before (events ++ added) g'
      /\ length added
         = length (filter FakeTranscript.tick_stored ticks).
Proof.
  intros NE. induction ticks as [| t ticks IH]; intros events g V G.
  - exists g, [], []. rewrite app_nil_r.
    split; [ reflexivity | split; [ exact G | reflexivity ] ].
  - inversion V as [| ? ? [Lo Hi] Vs]; subst.
    destruct (generateEvent_step sid timer before events t g NE Lo Hi G)
      as [g1 [calls1 [added1 [E1 [G1 L1]]]]].
    destruct (IH _ g1 Vs G1) as [g2 [calls2 [added2 [E2 [G2 L2]]]]].
    exists g2, (calls1 ++ calls2), (added1 ++ added2).
    cbn [forEach]. rewrite (bind_run _ _ _ _ _ _ E1), E2.
    split; [ reflexivity | ].
    split; [ rewrite app_assoc; exact G2 | ].
    rewrite length_app, L1, L2. cbn [filter].
    destruct (FakeTranscript.tick_stored t); reflexivity.
Qed.

Lemma timeline_consecutive (sid : string) :
  forall (events : list FakeTranscript.TranscriptEvent) (time index : Z),
    (index = 0 \/ index = 1)%Z ->
    FakeTranscript.timeline sid time index events ->
    forall k e e',
      nth_error events k = Some e ->
      nth_error events (S k) = Some e' ->
      (FakeTranscript.startMs e + 500 <= FakeTranscript.endMs e)%Z
      /\ FakeTranscript.startMs e' = (FakeTranscript.endMs e + 100)%Z
      /\ FakeTranscript.speaker e' <> FakeTranscript.speaker e.
Proof.
  induction events as [| e0 events IH]; intros time index Idx T k e e' N N';
    [ destruct k; discriminate | ].
  cbn [FakeTranscript.timeline] in T.
  destruct T as [_ [_ [Sp [_ [St [En Rest]]]]]].
  assert (Z.rem (index + 1) 2 = 0 \/ Z.rem (index + 1) 2 = 1)%Z as Idx'
    by (destruct Idx as [-> | ->]; [ right | left ]; reflexivity).
  destruct k as [| k].
  - cbn in N, N'. injection N as <-.
    destruct events as [| e1 events]; [ discriminate | ].
    cbn in N'. injection N' as <-.
    cbn [FakeTranscript.timeline] in Rest.
    destruct Rest as [_ [_ [Sp' [_ [St' _]]]]].
    split; [ | split ].
    + rewrite St, En. unfold FakeTranscript.estimatedDurationMs. lia.
    + exact St'.
    + rewrite Sp, Sp'. destruct Idx as [-> | ->]; discriminate.
  - cbn in N, N'. exact (IH _ _ Idx' Rest k e e' N N').
Qed.

(** X21: the fake transcript is a well-formed conversation.  Start the
    generator for a session and let its timer fire any number of times,
    each call of [generateEvent] being over before the next begins,
    whatever phrases are drawn and whichever insertions the database
    refuses.  Then the events that were stored, in the order stored, all
    belong to the session and are final; the first starts at time 0 with
    SELF and a phrase of the interviewee; every event lasts
    [max(500, 80 * length of its text)] ms, so at least 500 ms; each next
    event starts exactly 100 ms after the previous one has ended and is
    spoken by the other speaker, with a phrase of that speaker.  One event
    is stored for every insertion that the database accepts, and a refused
    insertion changes nothing: the same slot is tried again. *)
Theorem fake_transcript_timeline (sid : string) (now : Z) (timer : nat)
    (first : FakeTranscript.tick) (ticks : list FakeTranscript.tick)
    (g : FakeTranscript.FakeTranscriptGenerator) :
  is_empty sid = false ->
  Forall (fun t => 0 <= FakeTranscript.tick_random t
                   /\ FakeTranscript.tick_random t < 1) (first :: ticks) ->
  exists g' calls events,
    FakeTranscript.session sid now timer first ticks g = (Ok tt, g', calls)
    /\ FakeTranscript.inserted g' = FakeTranscript.inserted g ++ events
    /\ FakeTranscript.timeline sid 0 0 events
    /\ length events
       = length (filter FakeTranscript.tick_stored (first :: ticks))
    /\ (FakeTranscript.currentTimeMs g', FakeTranscript.speakerIndex g')
       = FakeTranscript.next_slot 0 0 events
    /\ (forall k e e',
           nth_error events k = Some e ->
           nth_error events (S k) = Some e' ->
           (FakeTranscript.startMs e + 500 <= FakeTranscript.endMs e)%Z
           /\ FakeTranscript.startMs e' = (FakeTranscript.endMs e + 100)%Z
           /\ FakeTranscript.speaker e' <> FakeTranscript.speaker e).
Proof.
  intros NE V.
  inversion V as [| ? ? [Lo Hi] Vs]; subst.
  set (g1 := {| FakeTranscript.intervalId := Some timer;
                FakeTranscript.sessionId := Some sid;
                FakeTranscript.startTimeMs := now;
                FakeTranscript.currentTimeMs := 0;
                FakeTranscript.speakerIndex := 0;
                FakeTranscript.inserted := FakeTranscript.inserted g |}).
  assert (FakeTranscript.generating sid timer (FakeTranscript.inserted g)
            [] g1) as G1.
  { unfold FakeTranscript.generating, g1. cbn. rewrite app_nil_r.
    split; [ reflexivity | ]. split; [ exact I | ].
    split; [ reflexivity | ]. split; [ left; reflexivity | ].
    split; reflexivity. }
  destruct (pick_phrase (FakeTranscript.tick_random first) 0 Lo Hi)
    as [phrase [Pick _]].
  set (e := {| FakeTranscript.event_id := FakeTranscript.tick_eventId first;
               FakeTranscript.event_sessionId := sid;
               FakeTranscript.speaker := FakeTranscript.speaker_of 0;
               FakeTranscript.startMs := 0;
               FakeTranscript.endMs :=
                 (0 + FakeTranscript.estimatedDurationMs phrase)%Z;
               FakeTranscript.text := phrase;
               FakeTranscript.isFinal := 1 |}).
  (* [start] leaves [g1] behind, with the first event pending *)
  assert (exists pre,
             FakeTranscript.start sid now timer
               (FakeTranscript.tick_random first)
               (FakeTranscript.tick_eventId first) g
             = (Ok (Ok (Some e)), g1, pre)) as [pre St].
  { unfold FakeTranscript.start. rewrite bind_read.
    assert (exists pre,
               match FakeTranscript.intervalId g with
               | Some _ => FakeTranscript.stop
               | None => ret tt
               end g
               = (Ok tt,
                  match FakeTranscript.intervalId g with
                  | Some _ =>
                      FakeTranscript.set_sessionId None
                        (FakeTranscript.set_intervalId None g)
                  | None => g
                  end, pre)) as [pre Stop].
    { destruct (FakeTranscript.intervalId g) as [old |] eqn:Old;
        [ | eexists; reflexivity ].
      unfold FakeTranscript.stop. rewrite bind_read, Old.
      eexists. unfold bind, invoke, modify. reflexivity. }
    rewrite (bind_run _ _ _ _ _ _ Stop), !bind_modify, bind_attempt.
    match goal with
    | |- context [FakeTranscript.generateEvent_begin ?r ?i ?s] =>
        assert (FakeTranscript.generateEvent_begin r i s
                = (Ok (Some e), s, [])) as Begin0
    end.
    { unfold FakeTranscript.generateEvent_begin.
      rewrite bind_read.
      destruct (FakeTranscript.intervalId g);
        cbn [FakeTranscript.sessionId FakeTranscript.set_sessionId
             FakeTranscript.set_startTimeMs FakeTranscript.set_currentTimeMs
             FakeTranscript.set_speakerIndex FakeTranscript.set_intervalId
             FakeTranscript.speakerIndex FakeTranscript.currentTimeMs];
        rewrite NE, bind_read;
        cbn [FakeTranscript.sessionId FakeTranscript.set_sessionId
             FakeTranscript.set_startTimeMs FakeTranscript.set_currentTimeMs
             FakeTranscript.set_speakerIndex FakeTranscript.set_intervalId
             FakeTranscript.speakerIndex FakeTranscript.currentTimeMs];
        rewrite Pick, bind_read; reflexivity. }
    rewrite Begin0, bind_invoke, bind_modify. unfold ret.
    eexists. cbn [after]. f_equal. f_equal.
    unfold g1. destruct g as [[old |] session started time index stored];
      reflexivity. }
  assert (FakeTranscript.generateEvent_begin
            (FakeTranscript.tick_random first)
            (FakeTranscript.tick_eventId first) g1
          = (Ok (Some e), g1, [])) as Begin.
  { unfold FakeTranscript.generateEvent_begin.
    rewrite bind_read. cbn [g1 FakeTranscript.sessionId]. rewrite NE.
    rewrite bind_read. cbn [g1 FakeTranscript.speakerIndex]. rewrite Pick.
    rewrite bind_read. reflexivity. }
  destruct (generateEvent_step sid timer (FakeTranscript.inserted g) []
              first g1 NE Lo Hi G1)
    as [g2 [calls1 [added1 [E1 [G2 L1]]]]].
  unfold FakeTranscript.generateEvent in E1.
  rewrite (bind_run _ _ _ _ _ _ Begin), after_nil in E1.
  destruct (generateEvents_run sid timer (FakeTranscript.inserted g) NE
              ticks _ g2 Vs G2)
    as [g' [calls2 [added2 [E2 [[Ins [Tl [Slot [Idx [Sid Tim]]]]] L2]]]]].
  cbn [app] in Ins, Tl, Slot.
  exists g'. eexists. exists (added1 ++ added2).
  split.
  { unfold FakeTranscript.session.
    rewrite (bind_run _ _ _ _ _ _ St).
    rewrite (bind_run _ _ _ _ _ _ E1), E2. reflexivity. }
  split; [ exact Ins | ]. split; [ exact Tl | ].
  split.
  { rewrite length_app, L1, L2. cbn [filter].
    destruct (FakeTranscript.tick_stored first); reflexivity. }
  split; [ exact Slot | ].
  apply (timeline_consecutive sid (added1 ++ added2) 0 0);
    [ left; reflexivity | exact Tl ].
Qed.

Lemma fake_transcript_timeline_witness :
  let first := {| FakeTranscript.tick_random := 0;
                  FakeTranscript.tick_eventId := "a";
                  FakeTranscript.tick_stored := true |} in
  let second := {| FakeTranscript.tick_random := 1 # 2;
                   FakeTranscript.tick_eventId := "b";
                   FakeTranscript.tick_stored := true |} in
  let g := {| FakeTranscript.intervalId := None;
              FakeTranscript.sessionId := None;
              FakeTranscript.startTimeMs := 0;
              FakeTranscript.currentTimeMs := 0;
              FakeTranscript.speakerIndex := 0;
              FakeTranscript.inserted := [] |} in
  exists g' calls events,
    FakeTranscript.session "s1" 1000 1 first [second] g = (Ok tt, g', calls)
    /\ FakeTranscript.inserted g' = [] ++ events
    /\ FakeTranscript.timeline "s1" 0 0 events
    /\ length events = 2%nat.
Proof.
  cbv zeta.
  destruct (fake_transcript_timeline "s1" 1000 1
              {| FakeTranscript.tick_random := 0;
                 FakeTranscript.tick_eventId := "a";
                 FakeTranscript.tick_stored := true |}
              [{| FakeTranscript.tick_random := 1 # 2;
                  FakeTranscript.tick_eventId := "b";
                  FakeTranscript.tick_stored := true |}]
              {| FakeTranscript.intervalId := None;
                 FakeTranscript.sessionId := None;
                 FakeTranscript.startTimeMs := 0;
                 FakeTranscript.currentTimeMs := 0;
                 FakeTranscript.speakerIndex := 0;
                 FakeTranscript.inserted := [] |})
    as [g' [calls [events [E [Ins [Tl [Len _]]]]]]].
  - reflexivity.
  - constructor; [ | constructor; [ | constructor ] ];
      (split; [ discriminate | reflexivity ]).
  - exists g', calls, events.
    split; [ exact E | ]. split; [ exact Ins | ]. split; assumption.
Defined.

(** ** Opening the database *)

Lemma initializeDb_open (failure : operation -> option string)
    (ready : bool) (handle : nat) (s : Db.Module_) (c : nat) :
  Db.db s = Some c ->
  Db.initializeDb failure ready handle s = (Ok (Some c), s, []).
Proof.
  intros E. unfold Db.initializeDb. rewrite bind_read, E. reflexivity.
Qed.

Lemma initializeDb_failed (failure : operation -> option string)
    (ready : bool) (handle : nat) (s : Db.Module_) :
  Db.db s = None -> Db.initializationFailed s = true ->
  exists e, Db.initializeDb failure ready handle s = (Throw e, s, []).
Proof.
  intros E F. unfold Db.initializeDb. rewrite bind_read, E, bind_read, F.
  rewrite bind_read. destruct (Db.initializationError s); eexists; reflexivity.
Qed.

Lemma getDb_open (failure : operation -> option string)
    (ready : bool) (handle : nat) (s : Db.Module_) (c : nat) :
  Db.db s = Some c -> Db.initializationFailed s = false ->
  Db.getDb failure ready handle s = (Ok (Some c), s, []).
Proof.
  intros E F. unfold Db.getDb. rewrite !bind_read, E, F. reflexivity.
Qed.

Lemma getDb_failed (failure : operation -> option string)
    (ready : bool) (handle : nat) (s : Db.Module_) :
  Db.initializationFailed s = true ->
  Db.getDb failure ready handle s = (Ok None, s, []).
Proof.
  intros F. unfold Db.getDb. rewrite !bind_read, F.
  destruct (Db.db s); reflexivity.
Qed.

Lemma initializeDb_fresh (failure : operation -> option string)
    (ready : bool) (handle : nat) (e0 : option error) :
  exists r s' calls,
    Db.initializeDb failure ready handle
      {| Db.db := None; Db.initializationFailed := false;
         Db.initializationError := e0 |}
    = (r, s', calls)
    /\ match r with
       | Ok d =>
           d = Some handle /\ Db.db s' = Some handle
           /\ Db.initializationFailed s' = false
           /\ ready = true
           /\ failure getDbPath = None /\ failure new_Database = None
           /\ failure (db_exec 0) = None /\ failure (db_exec 1) = None
       | Throw _ => Db.db s' = None /\ Db.initializationFailed s' = true
       end.
Proof.
  unfold Db.initializeDb, Db.ask.
  unfold bind, read, modify, ret, throw, try_catch, invoke.
  cbn [Db.db Db.initializationFailed].
  destruct ready; cbn [negb];
    [ | eexists; eexists; eexists; split; [ reflexivity | split; reflexivity ] ].
  destruct (failure getDbPath) as [m1 |] eqn:F1.
  { destruct (includes (Db.errorMessage (Error m1)) "better-sqlite3"
              || includes (Db.errorMessage (Error m1)) "Cannot find module"
              || includes (Db.errorMessage (Error m1)) "was compiled against");
      eexists; eexists; eexists; (split; [ reflexivity | split; reflexivity ]). }
  destruct (failure new_Database) as [m2 |] eqn:F2.
  { destruct (includes (Db.errorMessage (Error m2)) "better-sqlite3"
              || includes (Db.errorMessage (Error m2)) "Cannot find module"
              || includes (Db.errorMessage (Error m2)) "was compiled against");
      eexists; eexists; eexists; (split; [ reflexivity | split; reflexivity ]). }
  cbn [Db.set_db Db.db Db.initializationFailed Db.initializationError].
  destruct (failure (db_exec 0)) as [m3 |] eqn:F3.
  { destruct (failure db_close);
      eexists; eexists; eexists; (split; [ reflexivity | split; reflexivity ]). }
  destruct (failure (db_exec 1)) as [m4 |] eqn:F4.
  { destruct (failure db_close);
      eexists; eexists; eexists; (split; [ reflexivity | split; reflexivity ]). }
  eexists. eexists. eexists. split; [ reflexivity | ].
  cbn. repeat (split; [ reflexivity | ]). reflexivity.
Qed.

(** X22: a failed initialisation of the database is permanent, a
    successful one is kept.  From every state the module can be in,
    [initializeDb] either returns a connection, which it has stored, or
    throws, and then no connection is held and the failure is recorded;
    this also happens when it is merely called before the app is ready.
    Afterwards, whatever the platform would answer now: with a connection
    stored, [initializeDb] and [getDb] return it without asking the platform
    again; after a failure, [getDb] answers [null], [initializeDb] throws
    again, and neither asks the platform or changes anything. *)
Theorem database_failure_is_permanent (failure : operation -> option string)
    (ready : bool) (handle : nat) (s : Db.Module_) :
  Db.consistent s ->
  exists r s' calls,
    Db.initializeDb failure ready handle s = (r, s', calls)
    /\ Db.consistent s'
    /\ (ready = false -> Db.db s = None -> threw r)
    /\ match r with
       | Ok d =>
           exists c,
             d = Some c /\ Db.db s' = Some c
             /\ Db.initializationFailed s' = false
             /\ forall failure' ready' handle',
                  Db.initializeDb failure' ready' handle' s'
                  = (Ok (Some c), s', [])
                  /\ Db.getDb failure' ready' handle' s'
                     = (Ok (Some c), s', [])
       | Throw _ =>
           Db.db s' = None /\ Db.initializationFailed s' = true
           /\ forall failure' ready' handle',
                Db.getDb failure' ready' handle' s' = (Ok None, s', [])
                /\ exists e,
                     Db.initializeDb failure' ready' handle' s'
                     = (Throw e, s', [])
       end.
Proof.
  intros Cs. destruct s as [[c |] failed e0].
  - (* a connection is stored *)
    destruct Cs as [Cs | Cs]; [ discriminate | ]. cbn in Cs. subst failed.
    eexists. eexists. eexists.
    split; [ apply initializeDb_open; reflexivity | ].
    split; [ right; reflexivity | ].
    split; [ discriminate | ].
    exists c. split; [ reflexivity | ]. split; [ reflexivity | ].
    split; [ reflexivity | ]. intros failure' ready' handle'.
    split; [ apply initializeDb_open | apply getDb_open ]; reflexivity.
  - destruct failed.
    + (* an earlier initialisation has failed *)
      destruct (initializeDb_failed failure ready handle
                  {| Db.db := None; Db.initializationFailed := true;
                     Db.initializationError := e0 |} eq_refl eq_refl)
        as [e E].
      eexists. eexists. eexists. split; [ exact E | ].
      split; [ left; reflexivity | ].
      split; [ intros _ _; eexists; reflexivity | ].
      split; [ reflexivity | ]. split; [ reflexivity | ].
      intros failure' ready' handle'.
      split; [ apply getDb_failed; reflexivity
             | apply initializeDb_failed; reflexivity ].
    + (* the first attempt *)
      destruct (initializeDb_fresh failure ready handle e0)
        as [r [s' [calls [E P]]]].
      exists r, s', calls. split; [ exact E | ].
      destruct r as [d | e].
      * destruct P as [-> [D [F [R _]]]].
        split; [ right; exact F | ].
        split; [ intros ->; discriminate | ].
        exists handle. split; [ reflexivity | ]. split; [ exact D | ].
        split; [ exact F | ]. intros failure' ready' handle'.
        split; [ apply initializeDb_open | apply getDb_open ]; assumption.
      * destruct P as [D F].
        split; [ left; exact D | ].
        split; [ intros _ _; eexists; reflexivity | ].
        split; [ exact D | ]. split; [ exact F | ].
        intros failure' ready' handle'.
        split; [ apply getDb_failed; assumption
               | apply initializeDb_failed; assumption ].
Qed.

Lemma database_failure_is_permanent_witness :
  exists r s' calls,
    Db.initializeDb (fun _ => None) false 1 Db.initial = (r, s', calls)
    /\ threw r
    /\ Db.getDb (fun _ => None) true 1 s' = (Ok None, s', []).
Proof.
  destruct (database_failure_is_permanent (fun _ => None) false 1 Db.initial)
    as [r [s' [calls [E [_ [T P]]]]]].
  - left. reflexivity.
  - exists r, s', calls. split; [ exact E | ].
    specialize (T eq_refl eq_refl). split; [ exact T | ].
    destruct r as [d | e]; [ destruct T; discriminate | ].
    destruct P as [_ [_ After]]. apply After.
Defined.
